(** * SaneC: the exception engine (saneex) and the object runtime (saneobj)

    A shallow embedding of the two engines of ProgerXP/SaneC.  The library
    functions of saneex.c and saneobj.c are Rocq functions over an explicit
    machine state; the try / catch / catchall / finally / endtry macros of
    saneex.h are interpreted over a small statement language (the shape of
    the programs of saneex-test.c), with setjmp / longjmp made explicit as a
    [Jump] outcome that travels to the frame whose jmp_buf it names. *)

From Stdlib Require Import ZArith List String Ascii Bool Lia.
From stdpp Require Import gmap.
Import ListNotations.
Local Open Scope Z_scope.

Module Saneex.

(** ** Constants of saneex.h and saneex.c *)

Definition SX_MAX_TRACE_STRING : Z := 128.
Definition EXIT_UNCAUGHT : Z := 200.
Definition EXIT_MAX_TRIES : Z := 254.
Definition EXIT_NO_TRY_ON_LEAVE : Z := 253.
Definition EXIT_OUTSIDE_RETHROW : Z := 252.
Definition EXIT_OUTSIDE_CAUGHT : Z := 251.
Definition EXIT_TOO_NESTED : Z := 250.
Definition MAX_TRY_CATCH : Z := 100.
Definition MAX_TRACE : Z := 20.
Definition FINALLY_THRESHOLD : Z := 50.

(** The range of int (32 bits on the targets of gcc and clang), and the
    value that an int operation which wraps around leaves. *)
Definition INT_MIN : Z := - 2 ^ 31.
Definition INT_MAX : Z := 2 ^ 31 - 1.
Definition int_wrap (z : Z) : Z := (z - INT_MIN) mod 2 ^ 32 + INT_MIN.

(** ** Data *)

(** struct SxTraceEntry.  [extra] is a pointer, 0 is NULL. *)
Record SxTraceEntry := mkEntry {
  code : Z;
  uncatchable : bool;
  file : string;
  line : Z;
  message : string;
  extra : Z
}.

(** struct TryContext.  The jmp_buf of a slot is identified with the index
    of the slot in [contexts]. *)
Record TryContext := mkContext { caught : Z }.

#[global] Instance TryContext_inhabited : Inhabited TryContext :=
  populate (mkContext 0).

(** What the program does to the outside: PASS(c) of saneex-test.c,
    free() of a block, a destructor call, and the lines written to stderr. *)
Inductive event :=
| EvPass (c : ascii)
| EvFree (p : Z)
| EvDel (p : Z)
| EvUncaught (code : Z)
| EvEntry (e : SxTraceEntry)
| EvAssert (status : Z).

(** An instance in memory, as the runtime reads it: the vt pointer that
    every object starts with, and the counter of an Autoref. *)
Record Object := mkObject { vt : Z; refs : Z }.

#[global] Instance Object_inhabited : Inhabited Object := populate (mkObject 0 0).

(** The thread-local variables of saneex.c, the instances in memory and the
    event log.  [trace] holds trace[0 .. nextTrace-1]; [contexts] is the
    static array, zero-initialised. *)
Record state := mkState {
  nextContext : Z;
  contexts : gmap Z TryContext;
  _sxLastJumpCode : Z;
  trace : list SxTraceEntry;
  hasUncatchable : bool;
  objects : gmap Z Object;
  events : list event
}.

Definition nextTrace (st : state) : Z := Z.of_nat (List.length (trace st)).

Definition initial : state := mkState 0 ∅ (-1) [] false ∅ [].

Definition set_nextContext (v : Z) (st : state) : state :=
  mkState v (contexts st) (_sxLastJumpCode st) (trace st) (hasUncatchable st)
          (objects st) (events st).
Definition set_contexts (v : gmap Z TryContext) (st : state) : state :=
  mkState (nextContext st) v (_sxLastJumpCode st) (trace st) (hasUncatchable st)
          (objects st) (events st).
Definition set_sxLastJumpCode (v : Z) (st : state) : state :=
  mkState (nextContext st) (contexts st) v (trace st) (hasUncatchable st)
          (objects st) (events st).
Definition set_trace (v : list SxTraceEntry) (st : state) : state :=
  mkState (nextContext st) (contexts st) (_sxLastJumpCode st) v (hasUncatchable st)
          (objects st) (events st).
Definition set_hasUncatchable (v : bool) (st : state) : state :=
  mkState (nextContext st) (contexts st) (_sxLastJumpCode st) (trace st) v
          (objects st) (events st).
Definition set_objects (v : gmap Z Object) (st : state) : state :=
  mkState (nextContext st) (contexts st) (_sxLastJumpCode st) (trace st)
          (hasUncatchable st) v (events st).
Definition emit (e : event) (st : state) : state :=
  mkState (nextContext st) (contexts st) (_sxLastJumpCode st) (trace st)
          (hasUncatchable st) (objects st) (events st ++ [e]).

(** contexts[i].caught and its assignment. *)
Definition caught_at (i : Z) (st : state) : Z := caught (contexts st !!! i).
Definition set_caught (i v : Z) (st : state) : state :=
  set_contexts (<[i := mkContext v]> (contexts st)) st.

(** How control leaves a piece of code. *)
Inductive outcome :=
| Normal (st : state)
| Jump (buf : Z) (code : Z) (st : state)
| Fatal (status : Z) (st : state)
| Uncaught (status : Z) (st : state)
| OutOfFuel.

(** Result of a library call that returns unless an sxAssert fails. *)
Inductive res (A : Type) :=
| Ok (a : A) (st : state)
| Abort (status : Z) (st : state).
Arguments Ok {A} a st.
Arguments Abort {A} status st.

(** sxAssert(x, c) without SX_ASSERT: a line on stderr and exit(c). *)
Definition sxAssert_fail {A} (c : Z) (st : state) : res A :=
  Abort c (emit (EvAssert c) st).

(** ** saneex.c *)

(** sxlcpy: at most SX_MAX_TRACE_STRING - 1 characters are kept. *)
Definition sxlcpy (src : string) : string :=
  substring 0 (Z.to_nat (SX_MAX_TRACE_STRING - 1)) src.

(** sxlcpyn(dest, src, n) on memory.  [buf] holds the bytes of the object
    that dest points into and [d] is the offset of dest in it; likewise
    [src] and [s].  A read or a write outside the object has no defined
    behaviour ([None]).  The loop is
    [while (n-- > 0 && ( *dest++ = *src++))]; the answer is the memory and
    the offset that dest has reached. *)
Fixpoint sxlcpyn_loop (n : nat) (buf : list ascii) (d : nat) (src : list ascii) (s : nat)
    : option (list ascii * nat) :=
  match n with
  | O => Some (buf, d)
  | S n' =>
      match src !! s with
      | None => None
      | Some ch =>
          if (d <? List.length buf)%nat then
            if Ascii.eqb ch zero then Some (<[d := ch]> buf, S d)
            else sxlcpyn_loop n' (<[d := ch]> buf) (S d) src (S s)
          else None
      end
  end.

(** The answer is the memory and the offset of the pointer returned, where
    the terminating NUL was written. *)
Definition sxlcpyn (buf : list ascii) (d : nat) (src : list ascii) (s : nat) (n : Z)
    : option (list ascii * nat) :=
  if 0 <? n then
    match sxlcpyn_loop (Z.to_nat n) buf d src s with
    | Some (buf', d') => Some (<[Nat.pred d' := zero]> buf', Nat.pred d')
    | None => None
    end
  else Some (buf, d).

Fixpoint sxWalkTrace (func : SxTraceEntry -> state -> state)
    (l : list SxTraceEntry) (st : state) : state :=
  match l with
  | [] => st
  | e :: l' => sxWalkTrace func l' (func e st)
  end.

Definition sxPrintEntryToStdErr (e : SxTraceEntry) (st : state) : state :=
  emit (EvEntry e) st.

Definition sxPrintTrace (st : state) : state :=
  sxWalkTrace sxPrintEntryToStdErr (trace st) st.

Definition sxCurrentException (st : state) : SxTraceEntry :=
  match trace st with
  | e :: _ => e
  | [] => mkEntry (-1) false EmptyString 0 EmptyString 0
  end.

(** The guard (entry.file || entry.message || entry.extra) tests two char
    arrays, which are never null: only the bound on nextTrace is left. *)
Definition sxAddTraceEntry (entry : SxTraceEntry) (st : state) : state :=
  if nextTrace st <? MAX_TRACE then
    set_trace (trace st ++
      [mkEntry (code entry) (uncatchable entry) (sxlcpy (file entry)) (line entry)
               (sxlcpy (message entry)) (extra entry)]) st
  else st.

(** _throw.  [Uncaught] carries the argument of exit().  The sum
    EXIT_UNCAUGHT + code is an int: it is the sum written here for codes up
    to INT_MAX - EXIT_UNCAUGHT, and the status that the parent process sees
    is the argument itself from 0 to 255. *)
Definition _throw (entry : SxTraceEntry) (st : state) : outcome :=
  let st1 := sxAddTraceEntry entry st in
  let st2 := set_hasUncatchable (hasUncatchable st1 || uncatchable entry) st1 in
  let code := code entry in
  if nextContext st2 <? 1 then
    let st3 := sxPrintTrace (emit (EvUncaught code) st2) in
    let exitCode := EXIT_UNCAUGHT + code in
    Uncaught (if 254 <? exitCode then 254 else exitCode) st3
  else
    Jump (nextContext st2 - 1) (if 0 <? code then code else 1) st2.

(** Returns the jmp_buf of the new frame. *)
Definition _sxEnterTry (st : state) : res Z :=
  if nextContext st <? MAX_TRY_CATCH then
    let i := nextContext st in
    Ok i (set_nextContext (i + 1) (set_caught i 0 st))
  else sxAssert_fail EXIT_MAX_TRIES st.

Definition _sxEnterTry2 (code : Z) (st : state) : res bool :=
  if caught_at (nextContext st - 1) st <? 1000 then
    Ok (code =? 0) (set_sxLastJumpCode code st)
  else sxAssert_fail EXIT_TOO_NESTED st.

Definition _sxLeaveTry (file : string) (line : Z) (st : state) : outcome :=
  let st1 := set_nextContext (nextContext st - 1) st in
  if 0 <=? nextContext st1 then
    if hasUncatchable st1 || negb (_sxLastJumpCode st1 =? 0) then
      _throw (mkEntry (_sxLastJumpCode st1) false (sxlcpy file) line
                (sxlcpy ((if hasUncatchable st1 then "UNCATCHABLE " else "")
                           ++ "rethrown by ENDTRY"))
                0) st1
    else Normal st1
  else Fatal EXIT_NO_TRY_ON_LEAVE (emit (EvAssert EXIT_NO_TRY_ON_LEAVE) st1).

Definition _sxSetCaught (isFinally : bool) (st : state) : res bool :=
  if 0 <? nextContext st then
    let cx := nextContext st - 1 in
    let caught := caught_at cx st + 1 in
    let st1 := set_caught cx caught st in
    if negb isFinally then
      if caught =? 1 then Ok true (set_sxLastJumpCode 0 st1)
      else Ok false st1
    else
      if caught <? FINALLY_THRESHOLD then Ok true (set_caught cx FINALLY_THRESHOLD st1)
      else Ok false st1
  else sxAssert_fail EXIT_OUTSIDE_CAUGHT st.

(** free(extra) for every live entry, last entry first. *)
Fixpoint free_extras (l : list SxTraceEntry) (st : state) : state :=
  match l with
  | [] => st
  | e :: l' => if extra e =? 0 then free_extras l' st
               else free_extras l' (emit (EvFree (extra e)) st)
  end.

Definition clearTrace (st : state) : state :=
  let st1 := set_hasUncatchable false st in
  set_trace [] (free_extras (rev (trace st1)) st1).

Definition sxThrow (entry : SxTraceEntry) (st : state) : outcome :=
  _throw entry (clearTrace st).

Definition sxRethrow (entry : SxTraceEntry) (st : state) : outcome :=
  if (0 <? nextContext st) && (_sxLastJumpCode st =? 0)
     && (caught_at (nextContext st - 1) st <? FINALLY_THRESHOLD) then
    let entryCopy :=
      if code entry <? 1 then
        mkEntry (_sxLastJumpCode st) (uncatchable entry) (file entry) (line entry)
                (message entry) (extra entry)
      else entry in
    _throw entryCopy st
  else Fatal EXIT_OUTSIDE_RETHROW (emit (EvAssert EXIT_OUTSIDE_RETHROW) st).

(** ** The control-flow surface of saneex.h *)

(** Code between try and endtry: PASS and free as events, a write to an
    instance, throw, rethrow and nested regions.  A clause is catch(n)
    ([Some n]) or catchall ([None]) with its block. *)
#[warnings="-register-all"]
Inductive stmt :=
| Skip
| Seq (s1 s2 : stmt)
| Emit (e : event)
| Store (o : Z) (v : Object)
| Throw (e : SxTraceEntry)
| Rethrow (e : SxTraceEntry)
| Try (body : stmt) (clauses : list (option Z * stmt)) (fin : option stmt)
      (file : string) (line : Z).

Definition Pass (c : ascii) : stmt := Emit (EvPass c).
Definition Free (p : Z) : stmt := Emit (EvFree p).

(** The condition of one clause before its call of _sxSetCaught:
    catch(n) is [_sxLastJumpCode == (n) && ...], catchall has no test. *)
Definition clause_test (guard : option Z) (st : state) : bool :=
  match guard with
  | Some n => _sxLastJumpCode st =? n
  | None => true
  end.

(** The else-if chain of the clauses, in source order.  The answer is the
    position and block of the clause whose condition held. *)
Fixpoint arbitrate (cs : list (option Z * stmt)) (i : nat) (st : state)
    : res (option (nat * stmt)) :=
  match cs with
  | [] => Ok None st
  | (guard, block) :: rest =>
      if clause_test guard st then
        match _sxSetCaught false st with
        | Ok true st' => Ok (Some (i, block)) st'
        | Ok false st' => arbitrate rest (S i) st'
        | Abort c st' => Abort c st'
        end
      else arbitrate rest (S i) st
  end.

(** The if / else-if chain that follows setjmp: the body when
    _sxEnterTry2 answered non-zero, else the clauses; [run] executes a
    block. *)
Definition dispatch (run : stmt -> state -> outcome) (entering : bool) (body : stmt)
    (cs : list (option Z * stmt)) (st : state) : outcome :=
  if entering then run body st
  else match arbitrate cs 0 st with
       | Abort c st' => Fatal c st'
       | Ok (Some (_, block)) st' => run block st'
       | Ok None st' => Normal st'
       end.

(** [finally { fb }] when present, then endtry. *)
Definition finally_endtry (run : stmt -> state -> outcome) (fin : option stmt)
    (file : string) (line : Z) (st : state) : outcome :=
  match fin with
  | Some fb =>
      match _sxSetCaught true st with
      | Abort c st' => Fatal c st'
      | Ok true st' =>
          match run fb st' with
          | Normal st'' => _sxLeaveTry file line st''
          | o => o
          end
      | Ok false st' => _sxLeaveTry file line st'
      end
  | None => _sxLeaveTry file line st
  end.

(** One pass over the region after setjmp returned [code]. *)
Definition region_pass (run : stmt -> state -> outcome) (body : stmt)
    (cs : list (option Z * stmt)) (fin : option stmt) (file : string) (line : Z)
    (code : Z) (st : state) : outcome :=
  match _sxEnterTry2 code st with
  | Abort c st' => Fatal c st'
  | Ok entering st1 =>
      match dispatch run entering body cs st1 with
      | Normal st2 => finally_endtry run fin file line st2
      | o => o
      end
  end.

(** [exec] runs a statement; [resume] is the code after setjmp has
    returned [code] in the frame whose jmp_buf is [buf]: 0 the first time,
    the longjmp value afterwards.  A longjmp to [buf] out of the pass
    makes setjmp return again. *)
Fixpoint exec (n : nat) (s : stmt) (st : state) {struct n} : outcome :=
  match n with
  | O => OutOfFuel
  | S n' =>
    match s with
    | Skip => Normal st
    | Seq a b =>
        match exec n' a st with
        | Normal st' => exec n' b st'
        | o => o
        end
    | Emit e => Normal (emit e st)
    | Store o v => Normal (set_objects (<[o := v]> (objects st)) st)
    | Throw e => sxThrow e st
    | Rethrow e => sxRethrow e st
    | Try body cs fin file line =>
        match _sxEnterTry st with
        | Abort c st' => Fatal c st'
        | Ok buf st1 => resume n' buf body cs fin file line 0 st1
        end
    end
  end
with resume (n : nat) (buf : Z) (body : stmt) (cs : list (option Z * stmt))
    (fin : option stmt) (file : string) (line : Z) (code : Z) (st : state)
    {struct n} : outcome :=
  match n with
  | O => OutOfFuel
  | S n' =>
    match region_pass (exec n') body cs fin file line code st with
    | Jump t c st' =>
        if t =? buf then resume n' buf body cs fin file line c st'
        else Jump t c st'
    | o => o
    end
  end.

(** The fuel that [exec] needs at most (see [exec_terminates]). *)
Fixpoint cost (s : stmt) : nat :=
  match s with
  | Seq a b => S (Nat.max (cost a) (cost b))
  | Try body cs fin _ _ =>
      5 + Nat.max (cost body)
            (Nat.max (fold_right (fun cl m => Nat.max (cost (snd cl)) m) O cs)
                     (match fin with Some fb => cost fb | None => O end))
  | _ => 1
  end%nat.

(** Running a whole statement. *)
Definition run (s : stmt) (st : state) : outcome := exec (cost s) s st.

Definition state_of (o : outcome) : state :=
  match o with
  | Normal st | Jump _ _ st | Fatal _ st | Uncaught _ st => st
  | OutOfFuel => initial
  end.

(** How often PASS(c) was executed. *)
Definition is_pass (c : ascii) (e : event) : bool :=
  match e with
  | EvPass c' => Ascii.eqb c c'
  | _ => false
  end.

Definition npass (c : ascii) (st : state) : nat :=
  List.length (List.filter (is_pass c) (events st)).

(** [dead_only c s]: every PASS(c) of [s] sits in the block of a catch
    whose declared code is 0 or negative. *)
Fixpoint dead_only (c : ascii) (s : stmt) : bool :=
  match s with
  | Seq a b => dead_only c a && dead_only c b
  | Emit e => negb (is_pass c e)
  | Try body cs fin _ _ =>
      dead_only c body
      && forallb (fun cl =>
                    match cl with
                    | (Some n, block) => (n <=? 0) || dead_only c block
                    | (None, block) => dead_only c block
                    end) cs
      && match fin with Some fb => dead_only c fb | None => true end
  | _ => true
  end.

(** [quiet c s]: [s] has no PASS(c) at all. *)
Fixpoint quiet (c : ascii) (s : stmt) : bool :=
  match s with
  | Seq a b => quiet c a && quiet c b
  | Emit e => negb (is_pass c e)
  | Try body cs fin _ _ =>
      quiet c body
      && forallb (fun cl => quiet c (snd cl)) cs
      && match fin with Some fb => quiet c fb | None => true end
  | _ => true
  end.

End Saneex.

Import Saneex.

(** * saneobj.c *)

Module Saneobj.
Import Saneex.

(** sizeof(void * ) and sizeof(size_t) on the LP64 targets of gcc and clang. *)
Definition ptrSize : Z := 8.
Definition SIZE_MOD : Z := 2 ^ 64.

(** An Object_vt in memory: the parent pointer, the fields of Object_vt_,
    then the method pointers that the classes of the chain declared, in
    declaration order.  Pointers are addresses, 0 is NULL. *)
Record Object_vt := mkVt {
  parent : Z;
  size : Z;
  objectSize : Z;
  className : string;
  new : Z;
  del : Z;
  methods : list Z
}.

(** The static descriptors of the program, by address. *)
Abbreviation registry := (gmap Z Object_vt).

(** What a library function that may throw hands back. *)
Inductive ret (A : Type) :=
| Ret (a : A)
| Throws (e : SxTraceEntry)
| Undefined.
Arguments Ret {A} a.
Arguments Throws {A} e.
Arguments Undefined {A}.

(** struct SjInheritedMethod: [inh_method] is the address of a slot. *)
Record SjInheritedMethod := mkInh { inh_vt : Z; inh_method : Z }.

(** The pointer stored [off] bytes into a descriptor.  The words of the
    header that hold no pointer to code (size, objectSize, className) are
    not method entries; neither is anything past the last slot. *)
Definition slot_at (v : Object_vt) (off : Z) : option Z :=
  if (off mod ptrSize =? 0) && (0 <=? off) then
    match off / ptrSize with
    | 0 => Some (parent v)
    | 4 => Some (new v)
    | 5 => Some (del v)
    | k => if 6 <=? k then methods v !! Z.to_nat (k - 6) else None
    end
  else None.

(** Object's descriptor: the initialiser of vtObject() gives NULL as the
    parent.  [Object_new], [Object_del] are the addresses of the code. *)
Definition vtObject_addr : Z := 4096.
Definition Object_new_addr : Z := 65536.
Definition Object_del_addr : Z := 65544.

Definition vtObject : Object_vt :=
  mkVt 0 (6 * ptrSize) (2 * ptrSize) "Object" Object_new_addr Object_del_addr [].

(** A class as its vtCLASS() gives it: the static it fills, what
    vtPARENT() returns, the sizes and name, the constructor, and the
    assignments of the block that follows linkvt (slot number, value);
    [c_del] is the assignment to vt.del when the block has one. *)
Record ClassDef := mkClass {
  c_vt : Z;
  c_parent : Z;
  c_name : string;
  c_size : Z;
  c_objectSize : Z;
  c_new : Z;
  c_del : option Z;
  c_block : list (nat * Z)
}.

Fixpoint assign_slots (block : list (nat * Z)) (ms : list Z) : list Z :=
  match block with
  | [] => ms
  | (i, f) :: rest => assign_slots rest (<[i := f]> ms)
  end.

(** The slots a static descriptor of [sz] bytes has after the header. *)
Definition slot_count (sz : Z) : nat := Z.to_nat (sz / ptrSize - 6).

(** linkvt(CLASS, PARENT) { block }: nothing when vt.parent is already
    set; else the parent's fragment is copied over the zeroed static, the
    header is filled in and the block runs.  A static that was never
    written is absent from the registry. *)
Definition link_fresh (c : ClassDef) (pv : Object_vt) : Object_vt :=
  let inherited := methods pv in
  let own := (slot_count (c_size c) - List.length inherited)%nat in
  mkVt (c_parent c) (c_size c) (c_objectSize c) (c_name c) (c_new c)
       (match c_del c with Some d => d | None => del pv end)
       (assign_slots (c_block c) (inherited ++ repeat 0 own)).

Definition linkvt (c : ClassDef) (reg : registry) : registry :=
  let linked :=
    match reg !! c_vt c with
    | Some v => negb (parent v =? 0)
    | None => false
    end in
  if linked then reg
  else match reg !! c_parent c with
       | Some pv => <[c_vt c := link_fresh c pv]> reg
       | None => reg
       end.

(** Every vtCLASS() of the program called once, parents first. *)
Definition link_all (classes : list ClassDef) : registry :=
  fold_left (fun reg c => linkvt c reg) classes {[ vtObject_addr := vtObject ]}.

(** vt->size - ptrSize in size_t. *)
Definition last_slot (v : Object_vt) : Z := (size v - ptrSize) mod SIZE_MOD.

Definition sxprintf (entry : SxTraceEntry) (msg : string) : SxTraceEntry :=
  mkEntry (code entry) (uncatchable entry) (file entry) (line entry)
          (sxlcpy msg) (extra entry).

(** newex(): the entry {errno, 0, __FILE__, __LINE__, "", NULL}; [errno] is
    the value of errno where the macro is expanded. *)
Definition newex (errno : Z) (file : string) (line : Z) : SxTraceEntry :=
  mkEntry errno false file line "" 0.

(** makeEx of saneobj.c: {.line = line} and the file copied, the code and
    the other fields zero. *)
Definition makeEx (file : string) (line : Z) : SxTraceEntry :=
  mkEntry 0 false (sxlcpy file) line "" 0.

(** The do-while of sjInheritedMethod, [vt] being in the registry as [v];
    [errno] is the value of errno when the function is called, which
    nothing changes before newex() reads it. *)
Fixpoint inherited_walk (errno : Z) (fuel : nat) (reg : registry) (vt : Z)
    (v : Object_vt) (vtOffset methodBody : Z) (foundMethod : bool) (className : string)
    : ret SjInheritedMethod :=
  match slot_at v vtOffset with
  | None => Undefined
  | Some p =>
      if foundMethod && (p =? 0) then Ret (mkInh vt 0)
      else if foundMethod && negb (p =? methodBody) then Ret (mkInh vt (vt + vtOffset))
      else
        let foundMethod' := foundMethod || (p =? methodBody) in
        let stop :=
          if foundMethod' then Ret (mkInh 0 0)
          else Throws (sxprintf (newex errno "saneobj.c" 232)
                 ("sjInheritedMethod(" ++ className ++
                  "): methodBody doesn't belong to any vt in the chain.")) in
        if parent v =? 0 then stop
        else match reg !! parent v with
             | None => Undefined
             | Some pv =>
                 if vtOffset <=? last_slot pv then
                   match fuel with
                   | O => Undefined
                   | S fuel' =>
                       inherited_walk errno fuel' reg (parent v) pv vtOffset methodBody
                                      foundMethod' className
                   end
                 else stop
             end
  end.

Definition sjInheritedMethod (errno : Z) (fuel : nat) (reg : registry)
    (vt vtMethod methodBody : Z)
    : ret SjInheritedMethod :=
  match reg !! vt with
  | None => Undefined
  | Some v =>
      let vtOffset := (vtMethod - vt) mod SIZE_MOD in
      if (vtMethod <? vt) || (last_slot v <? vtOffset) || (methodBody =? 0) then
        Throws (sxprintf (newex errno "saneobj.c" 188)
                  ("sjInheritedMethod(" ++ className v ++
                   "): vtMethod doesn't belong to vt."))
      else inherited_walk errno fuel reg vt v vtOffset methodBody false (className v)
  end.

(** The while (1) of sjBaseMethod. *)
Fixpoint base_walk (errno : Z) (rounds fuel : nat) (reg : registry) (vt vtMethod : Z)
    (lastInh : SjInheritedMethod) : ret SjInheritedMethod :=
  match rounds with
  | O => Undefined
  | S rounds' =>
      match sjInheritedMethod errno fuel reg vt vtMethod (inh_method lastInh) with
      | Ret inh =>
          if inh_method inh =? 0 then
            if inh_vt inh =? 0 then Ret lastInh else Ret inh
          else base_walk errno rounds' fuel reg vt vtMethod inh
      | Throws e => Throws e
      | Undefined => Undefined
      end
  end.

Definition sjBaseMethod (errno : Z) (fuel : nat) (reg : registry) (vt vtMethod : Z)
    : ret SjInheritedMethod :=
  match reg !! vt with
  | None => Undefined
  | Some v =>
      match slot_at v (vtMethod - vt) with
      | None => Undefined
      | Some methodBody => base_walk errno fuel fuel reg vt vtMethod (mkInh vt methodBody)
      end
  end.

(** The do-while of sjHasClass from descriptor [ovt]. *)
Fixpoint has_class_walk (fuel : nat) (reg : registry) (ovt vt : Z) : option bool :=
  if ovt =? vt then Some true
  else match reg !! ovt with
       | None => None
       | Some v =>
           if parent v =? 0 then Some false
           else match fuel with
                | O => None
                | S fuel' => has_class_walk fuel' reg (parent v) vt
                end
       end.

Definition sjHasClass (fuel : nat) (reg : registry) (st : state) (obj vt : Z)
    : option bool :=
  match objects st !! obj with
  | None => None
  | Some o => has_class_walk fuel reg (Saneex.vt o) vt
  end.

Definition sjClassCast (errno : Z) (fuel : nat) (reg : registry) (st : state) (obj vt : Z)
    : ret Z :=
  match sjHasClass fuel reg st obj vt, objects st !! obj, reg !! vt with
  | Some true, _, _ => Ret obj
  | Some false, Some o, Some v =>
      match reg !! Saneex.vt o with
      | Some ov =>
          Throws (sxprintf (newex errno "saneobj.c" 278)
                    ("Object of class " ++ className ov ++ " cannot be cast to "
                     ++ className v ++ "."))
      | None => Undefined
      end
  | _, _, _ => Undefined
  end.

(** sjClassList: the names from [vt] up, at most [maxList] of them. *)
Fixpoint sjClassList (maxList : nat) (reg : registry) (vt : Z) : list string :=
  match maxList with
  | O => []
  | S m =>
      if vt =? 0 then []
      else match reg !! vt with
           | None => []
           | Some v => className v :: sjClassList m reg (parent v)
           end
  end.

(** The do-while of sjCountParents: [res] counts the descriptors seen. *)
Fixpoint count_walk (fuel : nat) (reg : registry) (vt res : Z) : option Z :=
  match reg !! vt with
  | None => None
  | Some v =>
      if parent v =? 0 then Some (res + 1)
      else match fuel with
           | O => None
           | S fuel' => count_walk fuel' reg (parent v) (res + 1)
           end
  end.

Definition sjCountParents (fuel : nat) (reg : registry) (vt : Z) : option Z :=
  count_walk fuel reg vt (-1).

Fixpoint nth_walk (n : nat) (reg : registry) (vt : Z) : option Z :=
  match n with
  | O => Some vt
  | S n' => match reg !! vt with
            | None => None
            | Some v => nth_walk n' reg (parent v)
            end
  end.

Definition sjNthParent (fuel : nat) (reg : registry) (vt n : Z) : option Z :=
  match sjCountParents fuel reg vt with
  | None => None
  | Some cnt =>
      let n' := cnt - n in
      if n' <? 0 then Some 0 else nth_walk (Z.to_nat n') reg vt
  end.

(** The descriptors from [vt] up to the one whose parent is NULL: the
    walk that sjHasClass, sjCountParents and sjClassList make. *)
Fixpoint chain_of (fuel : nat) (reg : registry) (vt : Z) : option (list Z) :=
  match reg !! vt with
  | None => None
  | Some v =>
      if parent v =? 0 then Some [vt]
      else match fuel with
           | O => None
           | S fuel' => option_map (cons vt) (chain_of fuel' reg (parent v))
           end
  end.

(** The classes of a program: each has a static of its own (not NULL, not
    that of Object or of a class before it) and names as parent Object or
    a class declared before it, as the struct inclusions of classdef
    require.  [known] are the statics linked so far. *)
Fixpoint classes_ok (known : list Z) (classes : list ClassDef) : bool :=
  match classes with
  | [] => true
  | c :: rest =>
      negb (c_vt c =? 0) && negb (existsb (Z.eqb (c_vt c)) known)
      && existsb (Z.eqb (c_parent c)) known
      && classes_ok (c_vt c :: known) rest
  end.

(** *** Autoref *)

Definition vtAutoref_addr : Z := 4160.
Definition Autoref_new_addr : Z := 65552.
Definition Autoref_take_addr : Z := 65560.
Definition Autoref_release_addr : Z := 65568.

(** vtAutoref(): linkvt(Autoref, Object) { vt.take = ...; vt.release = ...; } *)
Definition Autoref_class : ClassDef :=
  mkClass vtAutoref_addr vtObject_addr "Autoref" (8 * ptrSize) (3 * ptrSize)
          Autoref_new_addr None
          [(0%nat, Autoref_take_addr); (1%nat, Autoref_release_addr)].

(** atomic_fetch_add / atomic_fetch_sub on o->refs, an _Atomic int: the
    old value is returned and the new one wraps around. *)
Definition Autoref_take (o : Z) (st : state) : Z * state :=
  let ob := objects st !!! o in
  (refs ob,
   set_objects (<[o := mkObject (Saneex.vt ob) (int_wrap (refs ob + 1))]> (objects st)) st).

Definition Autoref_release (o : Z) (st : state) : Z * state :=
  let ob := objects st !!! o in
  (refs ob,
   set_objects (<[o := mkObject (Saneex.vt ob) (int_wrap (refs ob - 1))]> (objects st)) st).

(** offsetof(Autoref_vt, release): the second slot after the header. *)
Definition release_offset : Z := 7 * ptrSize.

(** A call through a pointer of type int ( * )(Autoref * ), as
    ar->vt->release(ar) is: Autoref's own functions at their addresses, and
    at any other address what the program has there, [code]. *)
Definition call_counter (code : Z -> Z -> state -> Z * state) (p o : Z) (st : state)
    : Z * state :=
  if p =? Autoref_take_addr then Autoref_take o st
  else if p =? Autoref_release_addr then Autoref_release o st
  else code p o st.

(** *** Life of an instance *)

(** What a call of the object API does: it returns a value, or control
    leaves it as in [outcome], or it reads through a wild pointer. *)
Inductive call (A : Type) :=
| Returns (a : A) (st : state)
| Escapes (o : outcome)
| Crashes.
Arguments Returns {A} a st.
Arguments Escapes {A} o.
Arguments Crashes {A}.

(** sjNew.  [allocated] is what sjAlloc(size) gave (0 on failure); the
    constructor is its code for a given block and the pointer it returns
    when it returns.  Lines are those of the source. *)
Definition sjNew (n fuel : nat) (reg : registry) (ctor : Z -> stmt) (ctor_ret : Z -> Z)
    (allocated size : Z) (file : string) (line : Z) (st : state) : call Z :=
  if allocated =? 0 then
    Escapes (sxThrow (sxprintf (makeEx file line) "sjAlloc(%d) error.") st)
  else
    match exec n
            (Try (ctor allocated)
                 [(None, Seq (Free allocated)
                             (Rethrow (sxprintf (makeEx file line) "ctor(%p) error.")))]
                 None "saneobj.c" 127) st with
    | Normal st1 =>
        let o := ctor_ret allocated in
        if o =? allocated then Returns o st1
        else
          let st2 := emit (EvFree allocated) st1 in
          if o =? 0 then
            Escapes (sxThrow (sxprintf (makeEx file line) "ctor(%p) returned NULL.") st2)
          else
            match sjHasClass fuel reg st2 o vtAutoref_addr with
            | Some true => Returns o st2
            | Some false =>
                Escapes (sxThrow (sxprintf (makeEx file line)
                  "ctor(%p) returned a non-input object (%s at %p) that doesn't extend Autoref.")
                  st2)
            | None => Crashes
            end
    | o => Escapes o
    end.

(** sjRelease: for an instance of a class that extends Autoref, the call
    ar->vt->release(ar) goes through the release slot of the descriptor of
    the instance; a NULL there, like a wild pointer, has no defined
    behaviour ([None]). *)
Definition sjRelease (fuel : nat) (reg : registry) (code : Z -> Z -> state -> Z * state)
    (obj : Z) (st : state) : option (bool * state) :=
  match sjHasClass fuel reg st obj vtAutoref_addr with
  | None => None
  | Some false => Some (true, st)
  | Some true =>
      match objects st !! obj with
      | None => None
      | Some o =>
          match reg !! Saneex.vt o with
          | None => None
          | Some v =>
              match slot_at v release_offset with
              | None => None
              | Some p =>
                  if p =? 0 then None
                  else let (old, st') := call_counter code p obj st in
                       Some (old =? 1, st')
              end
          end
      end
  end.

(** sjDel.  [dtor] is the code behind o->vt->del, [code] what the program
    has at the addresses of counter functions of its own. *)
Definition sjDel (n fuel : nat) (reg : registry) (code : Z -> Z -> state -> Z * state)
    (dtor : Z -> stmt) (obj : Z) (file : string) (line : Z) (st : state) : call bool :=
  match sjRelease fuel reg code obj st with
  | None => Crashes
  | Some (false, st') => Returns false st'
  | Some (true, st') =>
      match exec n
              (Try (Seq (Emit (EvDel obj)) (dtor obj)) [] (Some (Free obj))
                   "saneobj.c" 172) st' with
      | Normal st'' => Returns true st''
      | o => Escapes o
      end
  end.

(** *** sjJoinClassList *)

Definition maxList : nat := 64.
Definition maxString : Z := 1000.

(** The for loop of sjJoinClassList.  [res] is the buffer as a C string
    would read it and [numString] the offset of the next write: strcpy and
    strncpy at res + numString replace what the buffer had from there.
    [i] runs down from numList - 1 when parentFirst is set, else up from
    0. *)
Fixpoint join_loop (fuel : nat) (names : list string) (numList : Z) (joiner : string)
    (parentFirst : bool) (i : Z) (res : string) (numString joinerLen : Z)
    : string * Z :=
  match fuel with
  | O => (res, numString)
  | S fuel' =>
      if (0 <=? i) && (i <? numList) then
        match names !! Z.to_nat i with
        | None => (res, numString)
        | Some name =>
            let len := Z.of_nat (String.length name) in
            if maxString <=? joinerLen + numString + len then
              ((substring 0 (Z.to_nat numString) res ++ "...")%string, numString + 3)
            else
              let res1 := (substring 0 (Z.to_nat numString) res
                           ++ substring 0 (Z.to_nat joinerLen) joiner)%string in
              let numString1 := numString + joinerLen in
              let res2 := (substring 0 (Z.to_nat numString1) res1 ++ name)%string in
              join_loop fuel' names numList joiner parentFirst
                        (i + (if parentFirst then -1 else 1)) res2 (numString1 + len)
                        (Z.of_nat (String.length joiner))
        end
      else (res, numString)
  end.

(** What the try block of sjJoinClassList leaves in the buffer. *)
Definition join_class_list (reg : registry) (vt : Z) (joiner : string) (parentFirst : bool)
    : string :=
  let names := sjClassList maxList reg vt in
  let numList := Z.of_nat (List.length names) in
  let (res, numString) :=
    join_loop (List.length names) names numList joiner parentFirst
              (if parentFirst then numList - 1 else 0) EmptyString 0 0 in
  substring 0 (Z.to_nat numString) res.

(** sjJoinClassList.  [res] is what malloc gave, which the function does
    not test: once the try block is entered it writes through res, be it
    only the final NUL, so a NULL has no defined behaviour.  Nothing in the
    try block touches the engine; [errno] is the value of errno when the
    catchall makes its entry. *)
Definition sjJoinClassList (errno : Z) (n : nat) (reg : registry) (vt : Z)
    (joiner : string) (parentFirst : bool) (res : Z) (st : state) : call string :=
  match _sxEnterTry st with
  | Abort c st' => Escapes (Fatal c st')
  | Ok _ _ =>
      if res =? 0 then Crashes
      else
        match exec n (Try Skip
                          [(None, Seq (Free res) (Rethrow (newex errno "saneobj.c" 329)))]
                          None "saneobj.c" 330) st with
        | Normal st' => Returns (join_class_list reg vt joiner parentFirst) st'
        | o => Escapes o
        end
  end.

End Saneobj.

(** * The programs of saneex-test.c and of saneobj-demo.c *)

Module Tests.
Import Saneex Saneobj.

(** newex() with errno = 0, as in the tests. *)
Definition ex : SxTraceEntry := newex 0 "saneex-test.c" 0.

(** The characters PASSed so far: the array the tests compare. *)
Fixpoint passed_of (l : list event) : string :=
  match l with
  | [] => EmptyString
  | EvPass c :: l' => String c (passed_of l')
  | _ :: l' => passed_of l'
  end.

Definition passed (o : outcome) : string := passed_of (events (state_of o)).

Definition try_ (body : stmt) (cs : list (option Z * stmt)) (fin : option stmt) : stmt :=
  Try body cs fin "saneex-test.c" 0.

Definition catchall_bang : list (option Z * stmt) := [(None, Pass "!")].

Definition test_case000 := try_ (Pass "t") [] None.
Definition test_case000f := try_ (Pass "t") [] (Some (Pass "f")).
Definition test_case000F :=
  try_ (try_ (Pass "t") [] (Some (Seq (Pass "f") (Throw ex)))) catchall_bang None.
Definition test_case010 := try_ (Pass "t") [(None, Pass "X")] None.
Definition test_case010f := try_ (Pass "t") [(None, Pass "X")] (Some (Pass "f")).
Definition test_case010F :=
  try_ (try_ (Pass "t") [(None, Pass "X")] (Some (Seq (Pass "f") (Throw ex))))
       catchall_bang None.
Definition test_case100 :=
  try_ (try_ (Seq (Pass "t") (Throw ex)) [] None) catchall_bang None.
Definition test_case100f :=
  try_ (try_ (Seq (Pass "t") (Throw ex)) [] (Some (Pass "f"))) catchall_bang None.
Definition test_case100F :=
  try_ (try_ (Seq (Pass "t") (Throw ex)) [] (Some (Seq (Pass "f") (Throw ex))))
       catchall_bang None.
Definition test_case110 := try_ (Seq (Pass "t") (Throw ex)) [(None, Pass "c")] None.
Definition test_case110f :=
  try_ (Seq (Pass "t") (Throw ex)) [(None, Pass "c")] (Some (Pass "f")).
Definition test_case110F :=
  try_ (try_ (Seq (Pass "t") (Throw ex)) [(None, Pass "c")]
             (Some (Seq (Pass "f") (Throw ex))))
       catchall_bang None.
Definition test_case111 :=
  try_ (try_ (Seq (Pass "t") (Throw ex)) [(None, Seq (Pass "c") (Throw ex))] None)
       catchall_bang None.
Definition test_case111f :=
  try_ (try_ (Seq (Pass "t") (Throw ex)) [(None, Seq (Pass "c") (Throw ex))]
             (Some (Pass "f")))
       catchall_bang None.
Definition test_case111F :=
  try_ (try_ (Seq (Pass "t") (Throw ex)) [(None, Seq (Pass "c") (Throw ex))]
             (Some (Seq (Pass "f") (Throw ex))))
       catchall_bang None.

Definition all_tests : list (stmt * string) :=
  [(test_case000, "t"); (test_case000f, "tf"); (test_case000F, "tf!");
   (test_case010, "t"); (test_case010f, "tf"); (test_case010F, "tf!");
   (test_case100, "t!"); (test_case100f, "tf!"); (test_case100F, "tf!");
   (test_case110, "tc"); (test_case110f, "tcf"); (test_case110F, "tcf!");
   (test_case111, "tc!"); (test_case111f, "tcf!"); (test_case111F, "tcf!")]%string.

Definition run_test (t : stmt * string) : bool :=
  match exec 20 (fst t) initial with
  | Normal st => String.eqb (passed_of (events st)) (snd t)
  | _ => false
  end.

(** The classes of saneobj-demo.c.  Fruit declares eat (abstract) and
    caloriesPerQuantity; Orange overrides both and adds cut. *)
Definition vtFruit : Z := 4224.
Definition vtWallnut : Z := 4288.
Definition vtOrange : Z := 4352.
Definition Fruit_new : Z := 66000.
Definition Fruit_caloriesPerQuantity : Z := 66008.
Definition Wallnut_new : Z := 66016.
Definition Orange_new : Z := 66024.
Definition Orange_eat : Z := 66032.
Definition Orange_cut : Z := 66040.
Definition Orange_caloriesPerQuantity : Z := 66048.

Definition Fruit_class : ClassDef :=
  mkClass vtFruit vtObject_addr "Fruit" (8 * ptrSize) (3 * ptrSize) Fruit_new None
          [(1%nat, Fruit_caloriesPerQuantity)].
Definition Wallnut_class : ClassDef :=
  mkClass vtWallnut vtFruit "Wallnut" (8 * ptrSize) (3 * ptrSize) Wallnut_new None [].
Definition Orange_class : ClassDef :=
  mkClass vtOrange vtFruit "Orange" (9 * ptrSize) (4 * ptrSize) Orange_new None
          [(1%nat, Orange_caloriesPerQuantity); (0%nat, Orange_eat); (2%nat, Orange_cut)].

Definition demo : registry :=
  link_all [Autoref_class; Fruit_class; Wallnut_class; Orange_class].

(** The demo has no take or release of its own: no other address is
    called as one. *)
Definition no_counters : Z -> Z -> state -> Z * state := fun _ _ st => (0, st).

(** &vt->eat, &vt->caloriesPerQuantity, &vt->cut of a descriptor. *)
Definition eat_of (v : Z) : Z := v + 6 * ptrSize.
Definition caloriesPerQuantity_of (v : Z) : Z := v + 7 * ptrSize.
Definition cut_of (v : Z) : Z := v + 8 * ptrSize.

(** Exceptions with codes 1 and 2. *)
Definition ex1 : SxTraceEntry := mkEntry 1 false "saneex-test.c" 0 "" 0.
Definition ex2 : SxTraceEntry := mkEntry 2 false "saneex-test.c" 0 "" 0.

(** try { throw(2) } catch (2) { rethrow(newex()) } endtry, alone and
    inside a region that tells code 2 from the rest. *)
Definition rethrow_in_catch : stmt := try_ (Throw ex2) [(Some 2, Rethrow ex)] None.
Definition rethrow_observed : stmt :=
  try_ rethrow_in_catch [(Some 2, Pass "a"); (None, Pass "b")] None.

(** try { rethrow(newex()) } endtry: a rethrow that is in no catch. *)
Definition rethrow_in_body : stmt := try_ (Rethrow ex) [] None.
Definition rethrow_in_body_observed : stmt := try_ rethrow_in_body catchall_bang None.

(** A region with [k] clauses catch (1), the first of which throws 1
    again, and a finally. *)
Definition crowded (k : nat) : stmt :=
  try_ (try_ (Throw ex1) (repeat (Some 1, Throw ex1) k) (Some (Pass "f")))
       catchall_bang None.

(** Root declares the slot m and leaves it abstract; Mid and Leaf add
    nothing.  In [three_levels_leaf] Leaf overrides m. *)
Definition vtRoot : Z := 8192.
Definition vtMid : Z := 8256.
Definition vtLeaf : Z := 8320.
Definition Leaf_m : Z := 70000.
Definition m_of (v : Z) : Z := v + 6 * ptrSize.

Definition Root_class : ClassDef :=
  mkClass vtRoot vtObject_addr "Root" (7 * ptrSize) (2 * ptrSize) 70008 None [].
Definition Mid_class : ClassDef :=
  mkClass vtMid vtRoot "Mid" (7 * ptrSize) (2 * ptrSize) 70016 None [].
Definition Leaf_class (block : list (nat * Z)) : ClassDef :=
  mkClass vtLeaf vtMid "Leaf" (7 * ptrSize) (2 * ptrSize) 70024 None block.

Definition three_levels : registry := link_all [Root_class; Mid_class; Leaf_class []].
Definition three_levels_leaf : registry :=
  link_all [Root_class; Mid_class; Leaf_class [(0%nat, Leaf_m)]].

End Tests.

Import Saneex Saneobj.

(** * Vocabulary of the statements *)

(** The frames below the top of the stack are as they were. *)
Definition same_frames (st st' : state) : Prop :=
  nextContext st' = nextContext st /\
  forall i, i < nextContext st -> caught_at i st' = caught_at i st.

(** Only the top frame and the pending code may differ; the counter of the
    top frame did not go down. *)
Definition top_touched (st st' : state) : Prop :=
  nextContext st' = nextContext st /\
  (forall i, i <> nextContext st - 1 -> caught_at i st' = caught_at i st) /\
  caught_at (nextContext st - 1) st <= caught_at (nextContext st - 1) st' /\
  trace st' = trace st /\ hasUncatchable st' = hasUncatchable st /\
  objects st' = objects st /\ events st' = events st.

(** The state a throw leaves behind: the entry is logged and the sticky
    flag is raised. *)
Definition thrown (e : SxTraceEntry) (st : state) : state :=
  set_hasUncatchable (hasUncatchable (sxAddTraceEntry e st) || uncatchable e)
                     (sxAddTraceEntry e st).

(** Where a statement leaves the frames: a normal end and a longjmp both
    find the stack at the height of the start; a longjmp names the top
    frame and carries a code of at least 1. *)
Definition frame_ok (st : state) (o : outcome) : Prop :=
  match o with
  | Normal st' => same_frames st st'
  | Jump t c st' => same_frames st st' /\ t = nextContext st - 1 /\ 0 <= t /\ 1 <= c
  | Uncaught _ _ => nextContext st <= 0
  | _ => True
  end.

Definition below (buf : Z) (st st' : state) : Prop :=
  forall i, i < buf -> caught_at i st' = caught_at i st.

(** The first clause, in source order, that is catch([c]) or catchall:
    the clause that the spec says claims a pending code [c]. *)
Fixpoint first_match (c : Z) (cs : list (option Z * stmt)) (i : nat)
    : option (nat * stmt) :=
  match cs with
  | [] => None
  | (Some n, block) :: rest =>
      if c =? n then Some (i, block) else first_match c rest (S i)
  | (None, block) :: _ => Some (i, block)
  end.

(** How many clauses are catch([c]) or catchall. *)
Definition matching (c : Z) (cs : list (option Z * stmt)) : nat :=
  List.length (List.filter (fun cl : option Z * stmt =>
                              match fst cl with Some n => c =? n | None => true end) cs).

(** The state of a frame just claimed: counter 1, pending code cleared. *)
Definition claimed (st : state) : state :=
  set_sxLastJumpCode 0 (set_caught (nextContext st - 1) 1 st).

(** The entry that endtry throws for a pending code. *)
Definition endtry_entry (file : string) (line : Z) (st : state) : SxTraceEntry :=
  mkEntry (_sxLastJumpCode st) false (sxlcpy file) line
          (sxlcpy ((if hasUncatchable st then "UNCATCHABLE " else "")
                     ++ "rethrown by ENDTRY")) 0.

(** What one pass over a region, and what the whole region, leave behind
    for the frames below [buf]. *)
Definition pass_ok (buf : Z) (st : state) (o : outcome) : Prop :=
  match o with
  | Normal st' => nextContext st' = buf /\ below buf st st'
  | Jump t c st' =>
      1 <= c /\ below buf st st' /\
      ((t = buf /\ nextContext st' = buf + 1) \/
       (t = buf - 1 /\ 0 <= t /\ nextContext st' = buf))
  | Uncaught _ _ => buf <= 0
  | _ => True
  end.

Definition resume_ok (buf : Z) (st : state) (o : outcome) : Prop :=
  match o with
  | Normal st' => nextContext st' = buf /\ below buf st st'
  | Jump t c st' =>
      1 <= c /\ below buf st st' /\ t = buf - 1 /\ 0 <= t /\ nextContext st' = buf
  | Uncaught _ _ => buf <= 0
  | _ => True
  end.

(** [st'] has the PASSes of [st] and nothing else of that kind. *)
Definition same_passes (st st' : state) : Prop := forall c, npass c st' = npass c st.

(** The state an outcome carries has the PASSes of [st]. *)
Definition passes_kept (st : state) (o : outcome) : Prop :=
  match o with
  | OutOfFuel => True
  | Normal st' | Jump _ _ st' | Fatal _ st' | Uncaught _ st' => same_passes st st'
  end.

(** The outcome carries as many PASS([c]) as [st]. *)
Definition silent (c : ascii) (st : state) (o : outcome) : Prop :=
  match o with
  | OutOfFuel => True
  | Normal st' | Jump _ _ st' | Fatal _ st' | Uncaught _ st' => npass c st' = npass c st
  end.

Definition clauses_dead (c : ascii) (cs : list (option Z * stmt)) : bool :=
  forallb (fun cl =>
             match cl with
             | (Some n, block) => (n <=? 0) || dead_only c block
             | (None, block) => dead_only c block
             end) cs.

Definition fin_dead (c : ascii) (fin : option stmt) : bool :=
  match fin with Some fb => dead_only c fb | None => true end.

(** How many more passes a frame can make: the body, then one pass that
    may claim, one that may still run finally, and the last one. *)
Definition rank (code caught : Z) : nat :=
  if code =? 0 then 3
  else if caught <=? 0 then 2
  else if caught <? FINALLY_THRESHOLD - 1 then 1
  else 0.

Definition subcost (body : stmt) (cs : list (option Z * stmt)) (fin : option stmt) : nat :=
  Nat.max (cost body)
    (Nat.max (fold_right (fun cl m => Nat.max (cost (snd cl)) m) O cs)
             (match fin with Some fb => cost fb | None => O end)).

(** The frame just entered by try, as the body finds it. *)
Definition try_entered (st : state) : state :=
  set_sxLastJumpCode 0
    (set_nextContext (nextContext st + 1) (set_caught (nextContext st) 0 st)).

(** The entry as the trace keeps it. *)
Definition clipped (e : SxTraceEntry) : SxTraceEntry :=
  mkEntry (code e) (uncatchable e) (sxlcpy (file e)) (line e) (sxlcpy (message e)) (extra e).

(** What holds of the registry while the classes are linked. *)
Definition reg_inv (known : list Z) (k : nat) (reg : registry) : Prop :=
  reg !! vtObject_addr = Some vtObject /\
  (forall a, is_Some (reg !! a) <-> In a known) /\
  ~ In 0 known /\
  (forall a v, reg !! a = Some v -> a <> vtObject_addr ->
               parent v <> 0 /\ In (parent v) known) /\
  (forall a, In a known ->
     exists ch, chain_of k reg a = Some ch /\ List.NoDup ch /\
                List.hd_error ch = Some a /\ List.last ch 0 = vtObject_addr /\
                (forall x, In x ch -> In x known) /\ (List.length ch <= S k)%nat).

(** The outcome carries [k] more PASS(f) than [st], unless a check of the
    engine has ended the process. *)
Definition counted (f : ascii) (k : nat) (st : state) (o : outcome) : Prop :=
  match o with
  | OutOfFuel | Fatal _ _ => True
  | Normal st' | Jump _ _ st' | Uncaught _ st' => npass f st' = (k + npass f st)%nat
  end.

(** The lines that the engine writes to stderr. *)
Definition is_stderr (e : event) : bool :=
  match e with
  | EvUncaught _ | EvEntry _ | EvAssert _ => true
  | _ => false
  end.

(** [every p s]: [p] holds of every statement of [s] that is not a
    sequence or a region. *)
Fixpoint every (p : stmt -> bool) (s : stmt) : bool :=
  match s with
  | Seq a b => every p a && every p b
  | Try body cs fin _ _ =>
      every p body && forallb (fun cl => every p (snd cl)) cs
      && match fin with Some fb => every p fb | None => true end
  | _ => p s
  end.

Definition is_throw (s : stmt) : bool :=
  match s with Throw _ => true | _ => false end.

Definition is_rethrow (s : stmt) : bool :=
  match s with Rethrow _ => true | _ => false end.

(** No throw(...) in [s]: only rethrow and endtry pass exceptions on. *)
Definition throw_free (s : stmt) : bool := every (fun a => negb (is_throw a)) s.

Definition rethrow_free (s : stmt) : bool := every (fun a => negb (is_rethrow a)) s.

(** The state that an outcome carries is related to the state at the start. *)
Definition carried (R : state -> state -> Prop) (st : state) (o : outcome) : Prop :=
  match o with
  | OutOfFuel => True
  | Normal st' | Jump _ _ st' | Fatal _ st' | Uncaught _ st' => R st st'
  end.

Definition carried_res {A} (R : state -> state -> Prop) (st : state) (r : res A) : Prop :=
  match r with
  | Ok _ st' | Abort _ st' => R st st'
  end.

(** The strings of an entry fit their char[SX_MAX_TRACE_STRING] with the
    terminating NUL. *)
Definition entry_ok (e : SxTraceEntry) : Prop :=
  Z.of_nat (String.length (file e)) < SX_MAX_TRACE_STRING /\
  Z.of_nat (String.length (message e)) < SX_MAX_TRACE_STRING.

(** The trace fits its array and every entry its buffers. *)
Definition trace_ok (st : state) : Prop :=
  nextTrace st <= MAX_TRACE /\ Forall entry_ok (trace st).

(** What a program without throw(...) does to the exception in flight:
    the sticky flag stays up and the trace only grows at its end. *)
Definition in_flight (st st' : state) : Prop :=
  (hasUncatchable st = true -> hasUncatchable st' = true) /\
  exists l, trace st' = trace st ++ l.

(** Nothing is pending: no code for endtry to pass on, no sticky flag. *)
Definition settled (st : state) : Prop :=
  _sxLastJumpCode st = 0 /\ hasUncatchable st = false.

(** How deep the regions of a statement nest. *)
Fixpoint depth (s : stmt) : nat :=
  match s with
  | Seq a b => Nat.max (depth a) (depth b)
  | Try body cs fin _ _ =>
      S (Nat.max (depth body)
           (Nat.max (fold_right (fun cl m => Nat.max (depth (snd cl)) m) O cs)
                    (match fin with Some fb => depth fb | None => O end)))
  | _ => O
  end.

Definition subdepth (body : stmt) (cs : list (option Z * stmt)) (fin : option stmt) : nat :=
  Nat.max (depth body)
    (Nat.max (fold_right (fun cl m => Nat.max (depth (snd cl)) m) O cs)
             (match fin with Some fb => depth fb | None => O end)).

(** The only checks of the engine that can end the process: too many
    nested regions, where the frames would reach [d] of them, and a
    rethrow out of place, where the code has a rethrow at all. *)
Definition checks_ok (d : Z) (rf : bool) (o : outcome) : Prop :=
  match o with
  | Fatal c _ =>
      (c = EXIT_MAX_TRIES /\ MAX_TRY_CATCH < d) \/
      (c = EXIT_OUTSIDE_RETHROW /\ rf = false)
  | _ => True
  end.

(** What an exit on an uncaught exception leaves on stderr: the line with
    the code, then the whole trace, oldest entry first; exit() is called
    with EXIT_UNCAUGHT plus that code as [_throw] computes it, at most
    254. *)
Definition reported (o : outcome) : Prop :=
  match o with
  | Uncaught status st' =>
      exists code l,
        status = (if 254 <? EXIT_UNCAUGHT + code then 254 else EXIT_UNCAUGHT + code) /\
        events st' = l ++ EvUncaught code :: map EvEntry (trace st')
  | _ => True
  end.

(** vt->className of the descriptor at [a]. *)
Definition class_name (reg : registry) (a : Z) : string :=
  match reg !! a with
  | Some v => className v
  | None => EmptyString
  end.

(** A registry as the vtCLASS() functions of a program leave it: Object's
    descriptor is in place, nothing sits at NULL, and the parent pointers
    lead every descriptor to Object's along a chain without repetition. *)
Definition linked (k : nat) (reg : registry) : Prop :=
  reg !! vtObject_addr = Some vtObject /\
  reg !! 0 = None /\
  forall a, is_Some (reg !! a) ->
    exists ch, chain_of k reg a = Some ch /\ List.NoDup ch /\
               List.last ch 0 = vtObject_addr /\
               (forall x, In x ch -> is_Some (reg !! x)) /\
               (List.length ch <= S k)%nat.

(** The names still to be written, in the order of writing, joined onto
    [acc]; [first] tells that no name was written yet. *)
Fixpoint join_names (todo : list string) (joiner acc : string) (first : bool) : string :=
  match todo with
  | [] => acc
  | name :: rest =>
      let sep := if first then EmptyString else joiner in
      if maxString <=? Z.of_nat (String.length sep) + Z.of_nat (String.length acc)
                       + Z.of_nat (String.length name)
      then (acc ++ "...")%string
      else join_names rest joiner ((acc ++ sep) ++ name)%string false
  end.

(** The todo list of the loop at index [i]. *)
Definition todo_at (names : list string) (parentFirst : bool) (i : Z) : list string :=
  if parentFirst then rev (take (Z.to_nat (i + 1)) names) else drop (Z.to_nat i) names.

(** The text that joining [todo] onto [acc] gives when nothing is cut. *)
Definition joined (joiner acc : string) (first : bool) (todo : list string) : string :=
  match todo with
  | [] => acc
  | _ => (acc ++ (if first then EmptyString else joiner) ++ String.concat joiner todo)%string
  end.

(** What sjInheritedMethod may answer for the slot [off] bytes into the
    descriptors, asked with [body]: nothing at all, or the descriptor [i]
    parent links above [vt] together with either a NULL method, where that
    descriptor has NULL in the slot, or the address of its slot, where the
    slot holds a pointer that is neither NULL nor [body]. *)
Definition found_above (reg : registry) (vt off body : Z) (i : nat)
    (inh : SjInheritedMethod) : Prop :=
  nth_walk i reg vt = Some (inh_vt inh) /\
  exists v' p, reg !! inh_vt inh = Some v' /\ slot_at v' off = Some p /\
    ((p = 0 /\ inh_method inh = 0) \/
     (p <> 0 /\ p <> body /\ inh_method inh = inh_vt inh + off)).

(** What the struct inclusions of classdef give for the sizes: the
    descriptor of a class is at least as large as that of its parent, which
    it starts with.  [reg] holds the classes linked so far. *)
Fixpoint sizes_ok (reg : registry) (classes : list ClassDef) : bool :=
  match classes with
  | [] => true
  | c :: rest =>
      match reg !! c_parent c with
      | Some pv => (size pv <=? c_size c) && (c_size c <? SIZE_MOD)
      | None => false
      end && sizes_ok (linkvt c reg) rest
  end.

(** Every descriptor has the method slots that its size says. *)
Definition well_sized (reg : registry) : Prop :=
  forall a v, reg !! a = Some v ->
    6 * ptrSize <= size v < SIZE_MOD /\ List.length (methods v) = slot_count (size v).

(** No descriptor keeps the address of a method slot in the slot at
    [off]: the slots hold addresses of code, or NULL. *)
Definition code_in_slots (reg : registry) (off : Z) : bool :=
  forallb (fun av : Z * Object_vt =>
             forallb (fun av' : Z * Object_vt =>
                        match slot_at (snd av) off with
                        | Some p => negb (p =? fst av' + off)
                        | None => true
                        end) (map_to_list reg)) (map_to_list reg).

(** The free() calls of clearTrace: the non-null extras, last entry first. *)
Definition freed_extras (st : state) : list event :=
  map EvFree (List.filter (fun p => negb (p =? 0)) (map extra (rev (trace st)))).

(** Code that neither throws nor opens a region: PASS, free and writes to
    instances, in sequence. *)
Fixpoint straight (s : stmt) : bool :=
  match s with
  | Skip | Emit _ | Store _ _ => true
  | Seq a b => straight a && straight b
  | _ => false
  end.

(** The events of straight code, in order. *)
Fixpoint emitted (s : stmt) : list event :=
  match s with
  | Emit e => [e]
  | Seq a b => emitted a ++ emitted b
  | _ => []
  end.

Definition straight_opt (fin : option stmt) : bool :=
  match fin with Some fb => straight fb | None => true end.

Definition emitted_opt (fin : option stmt) : list event :=
  match fin with Some fb => emitted fb | None => [] end.

(** * The tests of saneex-test.c and the output that saneobj-demo.c expects *)

(** The fifteen cases of saneex-test.c end normally with the PASSes that
    their END(...) expects. *)
Example saneex_tests_pass : forallb Tests.run_test Tests.all_tests = true.
Proof. vm_compute. reflexivity. Qed.

(** What main() of saneobj-demo.c expects of the utility functions on an
    Orange: eat() introduced in Fruit as abstract, cut() in Orange as
    concrete; compatible with Orange and Object, not with Wallnut; the chain
    Orange, Fruit, Object; 2 parents, and the parents by index. *)
Example demo_introspection (errno : Z) :
  sjBaseMethod errno 8 Tests.demo Tests.vtOrange (Tests.eat_of Tests.vtOrange)
    = Ret (mkInh Tests.vtFruit 0) /\
  sjBaseMethod errno 8 Tests.demo Tests.vtOrange (Tests.cut_of Tests.vtOrange)
    = Ret (mkInh Tests.vtOrange Tests.Orange_cut) /\
  has_class_walk 8 Tests.demo Tests.vtOrange Tests.vtOrange = Some true /\
  has_class_walk 8 Tests.demo Tests.vtOrange vtObject_addr = Some true /\
  has_class_walk 8 Tests.demo Tests.vtOrange Tests.vtWallnut = Some false /\
  sjClassList 64 Tests.demo Tests.vtOrange = ["Orange"; "Fruit"; "Object"]%string /\
  sjCountParents 8 Tests.demo Tests.vtOrange = Some 2 /\
  sjNthParent 8 Tests.demo Tests.vtOrange 0 = Some vtObject_addr /\
  sjNthParent 8 Tests.demo Tests.vtOrange 1 = Some Tests.vtFruit /\
  sjNthParent 8 Tests.demo Tests.vtOrange 2 = Some Tests.vtOrange /\
  sjNthParent 8 Tests.demo Tests.vtOrange 3 = Some 0.
Proof. vm_compute. repeat split; reflexivity. Qed.

(** inherited(Orange, caloriesPerQuantity) finds the slot of Fruit. *)
Example demo_inherited (errno : Z) :
  sjInheritedMethod errno 8 Tests.demo Tests.vtOrange
    (Tests.caloriesPerQuantity_of Tests.vtOrange) Tests.Orange_caloriesPerQuantity
  = Ret (mkInh Tests.vtFruit (Tests.caloriesPerQuantity_of Tests.vtFruit)).
Proof. vm_compute. reflexivity. Qed.

(** newobj(Orange) returns the block; delobj on it calls the destructor
    and frees the block. *)
Example demo_new_delete :
  exists st,
    sjNew 6 8 Tests.demo (fun o => Store o (mkObject Tests.vtOrange 0)) (fun o => o)
          9000 32 "saneobj-demo.c" 209 initial = Returns 9000 st /\
    exists st',
      sjDel 6 8 Tests.demo Tests.no_counters (fun _ => Skip) 9000 "saneobj-demo.c" 355 st
        = Returns true st' /\
      events st' = [EvDel 9000; EvFree 9000].
Proof.
  eexists. split; [vm_compute; reflexivity|].
  eexists. split; [vm_compute; reflexivity|reflexivity].
Qed.

(** The example of the README: sub() throws inside try / finally, main()
    rethrows from its catchall.  The block is freed, then the process
    reports "Uncaught exception (code 1)" and the four entries of the
    README, with codes 0, 1, 0, 1, and ends with status 201. *)
Example readme_example :
  match run (Try (Try (Throw (mkEntry 0 false "saneex-demo.c" 7 "Feeling blue today..." 0))
                      [] (Some (Free 77)) "saneex-demo.c" 11)
                 [(None, Rethrow (mkEntry 0 false "saneex-demo.c" 18
                                          "Bye-bye my little pony" 0))]
                 None "saneex-demo.c" 19) initial with
  | Uncaught status st =>
      status = 201 /\
      events st =
        [EvFree 77; EvUncaught 1;
         EvEntry (mkEntry 0 false "saneex-demo.c" 7 "Feeling blue today..." 0);
         EvEntry (mkEntry 1 false "saneex-demo.c" 11 "rethrown by ENDTRY" 0);
         EvEntry (mkEntry 0 false "saneex-demo.c" 18 "Bye-bye my little pony" 0);
         EvEntry (mkEntry 1 false "saneex-demo.c" 19 "rethrown by ENDTRY" 0)]
  | _ => False
  end.
Proof. vm_compute. split; reflexivity. Qed.

(** Two more calls of sjBaseMethod on the classes of saneobj-demo.c, which
    main() does not make: for caloriesPerQuantity of Orange, which Fruit
    defines and Orange overrides, it throws; for caloriesPerQuantity of
    Wallnut, which Wallnut takes from Fruit, it answers Wallnut. *)
Example demo_base_method (errno : Z) :
  (exists e, sjBaseMethod errno 8 Tests.demo Tests.vtOrange
               (Tests.caloriesPerQuantity_of Tests.vtOrange) = Throws e) /\
  sjBaseMethod errno 8 Tests.demo Tests.vtWallnut (Tests.caloriesPerQuantity_of Tests.vtWallnut)
    = Ret (mkInh Tests.vtWallnut Tests.Fruit_caloriesPerQuantity).
Proof. split; [eexists|]; vm_compute; reflexivity. Qed.

(** * The exception engine: frames *)

Lemma same_frames_refl st : same_frames st st.
Proof. split; auto. Qed.

Lemma same_frames_trans a b c :
  same_frames a b -> same_frames b c -> same_frames a c.
Proof.
  intros [N1 C1] [N2 C2]. split; [congruence|].
  intros i Hi. rewrite C2 by lia. auto.
Qed.

Lemma top_touched_refl st : top_touched st st.
Proof. unfold top_touched. repeat split; auto; lia. Qed.

Lemma top_touched_trans a b c :
  top_touched a b -> top_touched b c -> top_touched a c.
Proof.
  intros (N1 & C1 & M1 & T1 & U1 & O1 & E1) (N2 & C2 & M2 & T2 & U2 & O2 & E2).
  rewrite N1 in *.
  repeat split; try congruence.
  - intros i Hi. rewrite C2, C1; auto.
  - lia.
Qed.

Lemma caught_at_set_caught i j v st :
  caught_at i (set_caught j v st) = if decide (j = i) then v else caught_at i st.
Proof.
  unfold caught_at, set_caught. simpl. rewrite lookup_total_insert.
  destruct (decide (j = i)); reflexivity.
Qed.

Lemma caught_at_set_caught_eq i v st : caught_at i (set_caught i v st) = v.
Proof. rewrite caught_at_set_caught. destruct (decide (i = i)); congruence. Qed.

Lemma caught_at_set_caught_ne i j v st :
  j <> i -> caught_at i (set_caught j v st) = caught_at i st.
Proof. intros H. rewrite caught_at_set_caught. destruct (decide (j = i)); congruence. Qed.

Lemma sxAddTraceEntry_fields e st :
  nextContext (sxAddTraceEntry e st) = nextContext st /\
  contexts (sxAddTraceEntry e st) = contexts st /\
  _sxLastJumpCode (sxAddTraceEntry e st) = _sxLastJumpCode st /\
  hasUncatchable (sxAddTraceEntry e st) = hasUncatchable st /\
  objects (sxAddTraceEntry e st) = objects st /\
  events (sxAddTraceEntry e st) = events st.
Proof.
  unfold sxAddTraceEntry. destruct (nextTrace st <? MAX_TRACE); simpl; auto 10.
Qed.

Lemma thrown_fields e st :
  nextContext (thrown e st) = nextContext st /\
  contexts (thrown e st) = contexts st /\
  _sxLastJumpCode (thrown e st) = _sxLastJumpCode st /\
  objects (thrown e st) = objects st /\
  events (thrown e st) = events st.
Proof.
  unfold thrown. simpl.
  destruct (sxAddTraceEntry_fields e st) as (A & B & C & D & E & F). auto 10.
Qed.

Lemma throw_unfold e st :
  _throw e st =
  if nextContext st <? 1 then
    Uncaught (if 254 <? EXIT_UNCAUGHT + code e then 254 else EXIT_UNCAUGHT + code e)
             (sxPrintTrace (emit (EvUncaught (code e)) (thrown e st)))
  else Jump (nextContext st - 1) (if 0 <? code e then code e else 1) (thrown e st).
Proof.
  unfold _throw, thrown. simpl.
  destruct (sxAddTraceEntry_fields e st) as (A & _). rewrite A. reflexivity.
Qed.

Lemma throw_frame e st :
  match _throw e st with
  | Jump t c st' =>
      t = nextContext st - 1 /\ 0 <= t /\ 1 <= c /\ st' = thrown e st
  | Uncaught _ _ => nextContext st < 1
  | _ => False
  end.
Proof.
  rewrite throw_unfold. destruct (Z.ltb_spec (nextContext st) 1); [lia|].
  repeat split; try lia. destruct (Z.ltb_spec 0 (code e)); lia.
Qed.

Lemma caught_at_thrown i e st : caught_at i (thrown e st) = caught_at i st.
Proof.
  unfold caught_at. destruct (thrown_fields e st) as (_ & C & _). rewrite C. reflexivity.
Qed.

Lemma same_frames_thrown e st : same_frames st (thrown e st).
Proof.
  split; [apply thrown_fields|]. intros. apply caught_at_thrown.
Qed.

Lemma free_extras_fields l : forall st,
  nextContext (free_extras l st) = nextContext st /\
  contexts (free_extras l st) = contexts st /\
  _sxLastJumpCode (free_extras l st) = _sxLastJumpCode st /\
  trace (free_extras l st) = trace st /\
  hasUncatchable (free_extras l st) = hasUncatchable st /\
  objects (free_extras l st) = objects st.
Proof.
  induction l as [|e l IH]; intros st; simpl; [auto 10|].
  destruct (extra e =? 0); [apply IH|].
  destruct (IH (emit (EvFree (extra e)) st)) as (A & B & C & D & E & F).
  simpl in *. auto 10.
Qed.

Lemma clearTrace_fields st :
  nextContext (clearTrace st) = nextContext st /\
  contexts (clearTrace st) = contexts st /\
  _sxLastJumpCode (clearTrace st) = _sxLastJumpCode st /\
  objects (clearTrace st) = objects st.
Proof.
  unfold clearTrace. simpl.
  destruct (free_extras_fields (rev (trace st)) (set_hasUncatchable false st))
    as (A & B & C & D & E & F).
  simpl in *. auto.
Qed.

Lemma same_frames_clearTrace st : same_frames st (clearTrace st).
Proof.
  destruct (clearTrace_fields st) as (A & B & _).
  split; [assumption|]. intros. unfold caught_at. rewrite B. reflexivity.
Qed.

Lemma sxThrow_frame e st : frame_ok st (sxThrow e st).
Proof.
  unfold sxThrow. pose proof (throw_frame e (clearTrace st)) as H.
  pose proof (same_frames_clearTrace st) as Hc.
  destruct Hc as [N C].
  destruct (_throw e (clearTrace st)); simpl; try tauto; [|lia].
  destruct H as (-> & H0 & H1 & ->).
  split; [|split; [congruence|split; assumption]].
  split.
  - destruct (thrown_fields e (clearTrace st)) as (A & _). congruence.
  - intros i Hi. rewrite caught_at_thrown. auto.
Qed.

Lemma sxRethrow_frame e st : frame_ok st (sxRethrow e st).
Proof.
  unfold sxRethrow.
  destruct ((0 <? nextContext st) && (_sxLastJumpCode st =? 0)
            && (caught_at (nextContext st - 1) st <? FINALLY_THRESHOLD)); simpl; auto.
  match goal with |- context [_throw ?x st] => pose proof (throw_frame x st) as H;
    destruct (_throw x st) end; simpl; try tauto; [|lia].
  destruct H as (-> & H0 & H1 & ->).
  split; [apply same_frames_thrown|]. auto.
Qed.

(** ** The calls of the macros *)

Lemma below_refl buf st : below buf st st.
Proof. intros i _. reflexivity. Qed.

Lemma below_trans buf a b c : below buf a b -> below buf b c -> below buf a c.
Proof. intros H1 H2 i Hi. rewrite H2, H1; auto. Qed.

Lemma same_frames_below buf st st' :
  buf <= nextContext st -> same_frames st st' -> below buf st st'.
Proof. intros Hb [_ C] i Hi. apply C. lia. Qed.

Lemma top_touched_below buf st st' :
  buf < nextContext st -> top_touched st st' -> below buf st st'.
Proof. intros Hb (_ & C & _) i Hi. apply C. lia. Qed.

Lemma enterTry_spec st :
  (nextContext st < MAX_TRY_CATCH /\
   _sxEnterTry st =
     Ok (nextContext st)
        (set_nextContext (nextContext st + 1) (set_caught (nextContext st) 0 st))) \/
  (MAX_TRY_CATCH <= nextContext st /\
   _sxEnterTry st = Abort EXIT_MAX_TRIES (emit (EvAssert EXIT_MAX_TRIES) st)).
Proof.
  unfold _sxEnterTry, sxAssert_fail.
  destruct (Z.ltb_spec (nextContext st) MAX_TRY_CATCH); [left|right]; auto.
Qed.

Lemma enterTry2_spec code st :
  (caught_at (nextContext st - 1) st < 1000 /\
   _sxEnterTry2 code st = Ok (code =? 0) (set_sxLastJumpCode code st)) \/
  (1000 <= caught_at (nextContext st - 1) st /\
   _sxEnterTry2 code st = Abort EXIT_TOO_NESTED (emit (EvAssert EXIT_TOO_NESTED) st)).
Proof.
  unfold _sxEnterTry2, sxAssert_fail.
  destruct (Z.ltb_spec (caught_at (nextContext st - 1) st) 1000); [left|right]; auto.
Qed.

(** A catch or catchall on a frame: it claims the frame when the counter
    was 0, and only counts otherwise. *)
Lemma setCaught_catch st :
  0 < nextContext st ->
  _sxSetCaught false st =
  if caught_at (nextContext st - 1) st =? 0 then
    Ok true (set_sxLastJumpCode 0 (set_caught (nextContext st - 1) 1 st))
  else
    Ok false (set_caught (nextContext st - 1) (caught_at (nextContext st - 1) st + 1) st).
Proof.
  intros Hn. unfold _sxSetCaught.
  destruct (Z.ltb_spec 0 (nextContext st)); [|lia]. simpl.
  destruct (Z.eqb_spec (caught_at (nextContext st - 1) st + 1) 1) as [E|E];
    destruct (Z.eqb_spec (caught_at (nextContext st - 1) st) 0) as [E'|E']; try lia.
  - rewrite E'. reflexivity.
  - reflexivity.
Qed.

(** A finally on a frame: it runs when the counter, once incremented, is
    below the threshold, and then puts the threshold in the counter. *)
Lemma setCaught_finally st :
  0 < nextContext st ->
  _sxSetCaught true st =
  if caught_at (nextContext st - 1) st + 1 <? FINALLY_THRESHOLD then
    Ok true (set_caught (nextContext st - 1) FINALLY_THRESHOLD
               (set_caught (nextContext st - 1) (caught_at (nextContext st - 1) st + 1) st))
  else
    Ok false (set_caught (nextContext st - 1) (caught_at (nextContext st - 1) st + 1) st).
Proof.
  intros Hn. unfold _sxSetCaught.
  destruct (Z.ltb_spec 0 (nextContext st)); [|lia]. reflexivity.
Qed.

Lemma top_touched_set_caught v st :
  caught_at (nextContext st - 1) st <= v ->
  top_touched st (set_caught (nextContext st - 1) v st).
Proof.
  intros Hv. unfold top_touched. simpl. repeat split; auto.
  - intros i Hi. apply caught_at_set_caught_ne. auto.
  - rewrite caught_at_set_caught_eq. assumption.
Qed.

Lemma top_touched_set_code v st : top_touched st (set_sxLastJumpCode v st).
Proof. unfold top_touched. simpl. repeat split; auto. unfold caught_at. simpl. lia. Qed.

Lemma arbitrate_unclaimed cs : forall i st,
  0 < nextContext st ->
  caught_at (nextContext st - 1) st = 0 ->
  arbitrate cs i st =
  match first_match (_sxLastJumpCode st) cs i with
  | Some x => Ok (Some x) (claimed st)
  | None => Ok None st
  end.
Proof.
  induction cs as [|[g block] cs IH]; intros i st Hn Hc; simpl; [reflexivity|].
  destruct g as [n|]; simpl.
  - destruct (Z.eqb_spec (_sxLastJumpCode st) n) as [E|E].
    + rewrite setCaught_catch by assumption. rewrite Hc. reflexivity.
    + apply IH; assumption.
  - rewrite setCaught_catch by assumption. rewrite Hc. reflexivity.
Qed.

Lemma arbitrate_claimed cs : forall i st,
  0 < nextContext st ->
  1 <= caught_at (nextContext st - 1) st ->
  exists st',
    arbitrate cs i st = Ok None st' /\ top_touched st st' /\
    _sxLastJumpCode st' = _sxLastJumpCode st /\
    caught_at (nextContext st - 1) st'
      <= caught_at (nextContext st - 1) st + Z.of_nat (List.length cs).
Proof.
  induction cs as [|[g block] cs IH]; intros i st Hn Hc.
  - exists st. simpl.
    split; [reflexivity|split; [apply top_touched_refl|split; [reflexivity|lia]]].
  - assert (Hstep : exists st1,
      (_sxSetCaught false st = Ok false st1) /\ top_touched st st1 /\
      _sxLastJumpCode st1 = _sxLastJumpCode st /\
      caught_at (nextContext st - 1) st1 = caught_at (nextContext st - 1) st + 1).
    { rewrite setCaught_catch by assumption.
      destruct (Z.eqb_spec (caught_at (nextContext st - 1) st) 0); [lia|].
      eexists. split; [reflexivity|]. split; [apply top_touched_set_caught; lia|].
      split; [reflexivity|]. apply caught_at_set_caught_eq. }
    destruct Hstep as (st1 & E1 & T1 & L1 & C1).
    assert (N1 : nextContext st1 = nextContext st) by apply T1.
    destruct (IH (S i) st) as (st' & A' & T' & L' & C'); try assumption.
    destruct (IH (S i) st1) as (st2 & A2 & T2 & L2 & C2); try (rewrite N1; lia).
    rewrite N1 in *.
    cbn [arbitrate]. destruct (clause_test g st).
    + rewrite E1. exists st2. split; [assumption|].
      split; [apply top_touched_trans with st1; assumption|].
      split; [congruence|]. cbn [List.length]. lia.
    + exists st'. split; [assumption|]. split; [assumption|].
      split; [assumption|]. cbn [List.length]. lia.
Qed.

(** On a claimed frame every clause that is catch(code) or catchall adds
    one to the counter, and no other does. *)
Lemma arbitrate_claimed_count cs : forall i st,
  0 < nextContext st ->
  1 <= caught_at (nextContext st - 1) st ->
  exists st',
    arbitrate cs i st = Ok None st' /\ top_touched st st' /\
    _sxLastJumpCode st' = _sxLastJumpCode st /\
    caught_at (nextContext st - 1) st'
      = caught_at (nextContext st - 1) st + Z.of_nat (matching (_sxLastJumpCode st) cs).
Proof.
  induction cs as [|[g block] cs IH]; intros i st Hn Hc.
  - exists st. simpl.
    split; [reflexivity|split; [apply top_touched_refl|split; [reflexivity|]]].
    unfold matching. simpl. lia.
  - assert (Hstep : exists st1,
      (_sxSetCaught false st = Ok false st1) /\ top_touched st st1 /\
      _sxLastJumpCode st1 = _sxLastJumpCode st /\
      caught_at (nextContext st - 1) st1 = caught_at (nextContext st - 1) st + 1).
    { rewrite setCaught_catch by assumption.
      destruct (Z.eqb_spec (caught_at (nextContext st - 1) st) 0); [lia|].
      eexists. split; [reflexivity|]. split; [apply top_touched_set_caught; lia|].
      split; [reflexivity|]. apply caught_at_set_caught_eq. }
    destruct Hstep as (st1 & E1 & T1 & L1 & C1).
    assert (N1 : nextContext st1 = nextContext st) by apply T1.
    destruct (IH (S i) st) as (st' & A' & T' & L' & C'); try assumption.
    destruct (IH (S i) st1) as (st2 & A2 & T2 & L2 & C2); try (rewrite N1; lia).
    rewrite N1, L1 in *.
    cbn [arbitrate]. unfold matching. cbn [List.filter fst]. unfold clause_test.
    fold (matching (_sxLastJumpCode st) cs) in *.
    destruct g as [n|].
    + destruct (_sxLastJumpCode st =? n).
      * rewrite E1. exists st2. split; [assumption|].
        split; [apply top_touched_trans with st1; assumption|].
        split; [congruence|]. cbn [List.length]. fold (matching (_sxLastJumpCode st) cs).
        lia.
      * exists st'. split; [assumption|]. split; [assumption|].
        split; [assumption|]. fold (matching (_sxLastJumpCode st) cs). lia.
    + rewrite E1. exists st2. split; [assumption|].
      split; [apply top_touched_trans with st1; assumption|].
      split; [congruence|]. cbn [List.length]. fold (matching (_sxLastJumpCode st) cs).
      lia.
Qed.

Lemma matching_le_length c cs : (matching c cs <= List.length cs)%nat.
Proof. unfold matching. apply List.filter_length_le. Qed.

Lemma setCaught_touch f st :
  match _sxSetCaught f st with
  | Ok _ st' => 0 < nextContext st /\ top_touched st st'
  | Abort _ _ => nextContext st <= 0
  end.
Proof.
  destruct (Z.ltb_spec 0 (nextContext st)) as [Hn|Hn].
  - destruct f.
    + rewrite setCaught_finally by assumption.
      destruct (_ <? FINALLY_THRESHOLD) eqn:E; (split; [assumption|]).
      * apply Z.ltb_lt in E. unfold FINALLY_THRESHOLD in *.
        set (st1 := set_caught (nextContext st - 1)
                      (caught_at (nextContext st - 1) st + 1) st).
        apply top_touched_trans with st1.
        -- apply top_touched_set_caught; lia.
        -- change (nextContext st - 1) with (nextContext st1 - 1).
           apply top_touched_set_caught. subst st1. simpl.
           rewrite caught_at_set_caught_eq. lia.
      * apply top_touched_set_caught; lia.
    + rewrite setCaught_catch by assumption.
      destruct (_ =? 0) eqn:E; (split; [assumption|]).
      * apply Z.eqb_eq in E.
        apply top_touched_trans with (set_caught (nextContext st - 1) 1 st);
          [apply top_touched_set_caught; lia | apply top_touched_set_code].
      * apply top_touched_set_caught; lia.
  - unfold _sxSetCaught. destruct (Z.ltb_spec 0 (nextContext st)); [lia|].
    simpl. assumption.
Qed.

(** In any state the chain leaves the frames below the top alone. *)
Lemma arbitrate_touch cs : forall i st,
  match arbitrate cs i st with
  | Ok _ st' => top_touched st st'
  | Abort _ _ => nextContext st <= 0
  end.
Proof.
  induction cs as [|[g block] cs IH]; intros i st; simpl.
  - apply top_touched_refl.
  - destruct (clause_test g st); [|apply IH].
    pose proof (setCaught_touch false st) as H.
    destruct (_sxSetCaught false st) as [[|] st1|]; try tauto.
    destruct H as [Hn T1]. specialize (IH (S i) st1).
    destruct (arbitrate cs (S i) st1).
    + eapply top_touched_trans; eassumption.
    + destruct T1 as (N1 & _). lia.
Qed.

Lemma leaveTry_unfold file line st :
  _sxLeaveTry file line st =
  let st1 := set_nextContext (nextContext st - 1) st in
  if 0 <=? nextContext st - 1 then
    if hasUncatchable st || negb (_sxLastJumpCode st =? 0) then
      _throw (endtry_entry file line st) st1
    else Normal st1
  else Fatal EXIT_NO_TRY_ON_LEAVE (emit (EvAssert EXIT_NO_TRY_ON_LEAVE) st1).
Proof. reflexivity. Qed.

Lemma leaveTry_spec file line st :
  match _sxLeaveTry file line st with
  | Normal st' =>
      st' = set_nextContext (nextContext st - 1) st /\ 1 <= nextContext st /\
      hasUncatchable st = false /\ _sxLastJumpCode st = 0
  | Jump t c st' =>
      t = nextContext st - 2 /\ 0 <= t /\ 1 <= c /\
      st' = thrown (endtry_entry file line st) (set_nextContext (nextContext st - 1) st)
  | Uncaught _ _ => nextContext st = 1
  | Fatal s _ => nextContext st < 1 /\ s = EXIT_NO_TRY_ON_LEAVE
  | OutOfFuel => False
  end.
Proof.
  rewrite leaveTry_unfold. cbv zeta.
  destruct (Z.leb_spec 0 (nextContext st - 1)) as [H|H].
  - destruct (hasUncatchable st) eqn:U; simpl.
    + pose proof (throw_frame (endtry_entry file line st)
                    (set_nextContext (nextContext st - 1) st)) as T.
      destruct (_throw _ _); simpl in *; try tauto; try lia.
      destruct T as (-> & ? & ? & ->). repeat split; auto; lia.
    + destruct (Z.eqb_spec (_sxLastJumpCode st) 0) as [E|E]; simpl.
      * repeat split; auto; lia.
      * pose proof (throw_frame (endtry_entry file line st)
                      (set_nextContext (nextContext st - 1) st)) as T.
        destruct (_throw _ _); simpl in *; try tauto; try lia.
        destruct T as (-> & ? & ? & ->). repeat split; auto; lia.
  - split; [lia|reflexivity].
Qed.

Lemma below_set_nextContext buf v st st' :
  below buf st st' -> below buf st (set_nextContext v st').
Proof. intros H i Hi. unfold caught_at. simpl. apply H. assumption. Qed.

Lemma below_thrown buf e st st' :
  below buf st st' -> below buf st (thrown e st').
Proof. intros H i Hi. rewrite caught_at_thrown. apply H. assumption. Qed.

Lemma leaveTry_pass_ok buf file line st0 st :
  nextContext st = buf + 1 -> below buf st0 st ->
  pass_ok buf st0 (_sxLeaveTry file line st).
Proof.
  intros Hn Hb. pose proof (leaveTry_spec file line st) as L.
  destruct (_sxLeaveTry file line st); simpl; auto.
  - destruct L as (-> & _). simpl. split; [lia|].
    apply below_set_nextContext. assumption.
  - destruct L as (-> & H0 & H1 & ->).
    split; [assumption|]. split.
    + apply below_thrown, below_set_nextContext. assumption.
    + right. split; [lia|]. split; [lia|].
      destruct (thrown_fields (endtry_entry file line st)
                  (set_nextContext (nextContext st - 1) st)) as (A & _).
      rewrite A. simpl. lia.
  - lia.
Qed.

Section Pass.

Variable run : stmt -> state -> outcome.
Hypothesis run_frame : forall s st, frame_ok st (run s st).

Lemma run_pass_ok buf st0 s st :
  nextContext st = buf + 1 -> below buf st0 st ->
  match run s st with
  | Normal st' => nextContext st' = buf + 1 /\ below buf st0 st' /\
                  caught_at buf st' = caught_at buf st
  | Jump t c st' => 1 <= c /\ t = buf /\ nextContext st' = buf + 1 /\
                    below buf st0 st' /\ caught_at buf st' = caught_at buf st
  | Uncaught _ _ => buf < 0
  | _ => True
  end.
Proof.
  intros Hn Hb. pose proof (run_frame s st) as F.
  destruct (run s st); simpl in *; auto.
  - destruct F as [N C]. split; [lia|]. split.
    + eapply below_trans; [eassumption|]. intros i Hi. apply C. lia.
    + apply C. lia.
  - destruct F as ([N C] & -> & H0 & H1).
    split; [assumption|]. split; [lia|]. split; [lia|]. split.
    + eapply below_trans; [eassumption|]. intros i Hi. apply C. lia.
    + apply C. lia.
  - lia.
Qed.

Lemma finally_endtry_pass_ok buf fin file line st0 st :
  nextContext st = buf + 1 -> below buf st0 st ->
  pass_ok buf st0 (finally_endtry run fin file line st).
Proof.
  intros Hn Hb. unfold finally_endtry.
  destruct fin as [fb|]; [|apply leaveTry_pass_ok; assumption].
  pose proof (setCaught_touch true st) as T.
  destruct (_sxSetCaught true st) as [b st1|]; [|exact I].
  destruct T as [_ T].
  assert (N1 : nextContext st1 = buf + 1) by (destruct T as (N & _); lia).
  assert (B1 : below buf st0 st1).
  { eapply below_trans; [eassumption|]. apply top_touched_below; [lia|assumption]. }
  destruct b; [|apply leaveTry_pass_ok; assumption].
  pose proof (run_pass_ok buf st0 fb st1 N1 B1) as R.
  destruct (run fb st1); simpl; auto.
  - destruct R as (N2 & B2 & _). apply leaveTry_pass_ok; assumption.
  - destruct R as (H1 & -> & N2 & B2 & _). auto.
  - lia.
Qed.

Lemma dispatch_pass_ok buf entering body cs st0 st :
  nextContext st = buf + 1 -> below buf st0 st ->
  match dispatch run entering body cs st with
  | Normal st' => nextContext st' = buf + 1 /\ below buf st0 st'
  | Jump t c st' => 1 <= c /\ t = buf /\ nextContext st' = buf + 1 /\ below buf st0 st'
  | Uncaught _ _ => buf < 0
  | _ => True
  end.
Proof.
  intros Hn Hb. unfold dispatch. destruct entering.
  - pose proof (run_pass_ok buf st0 body st Hn Hb) as R.
    destruct (run body st); simpl; auto; tauto.
  - pose proof (arbitrate_touch cs 0 st) as T.
    destruct (arbitrate cs 0 st) as [x st1|]; [|exact I].
    assert (N1 : nextContext st1 = buf + 1) by (destruct T as (N & _); lia).
    assert (B1 : below buf st0 st1).
    { eapply below_trans; [eassumption|]. apply top_touched_below; [lia|assumption]. }
    destruct x as [[i block]|]; [|auto].
    pose proof (run_pass_ok buf st0 block st1 N1 B1) as R.
    destruct (run block st1); simpl; auto; tauto.
Qed.

Lemma region_pass_ok buf body cs fin file line code st :
  nextContext st = buf + 1 ->
  pass_ok buf st (region_pass run body cs fin file line code st).
Proof.
  intros Hn. unfold region_pass.
  destruct (enterTry2_spec code st) as [[_ E]|[_ E]]; rewrite E; [|exact I].
  pose proof (dispatch_pass_ok buf (code =? 0) body cs st (set_sxLastJumpCode code st)
                Hn (below_refl _ _)) as D.
  destruct (dispatch run (code =? 0) body cs (set_sxLastJumpCode code st)); simpl; auto.
  - destruct D as [N B]. apply finally_endtry_pass_ok; assumption.
  - destruct D as (H1 & -> & N & B). auto.
  - lia.
Qed.

End Pass.

Lemma exec_resume_frame n :
  (forall s st, frame_ok st (exec n s st)) /\
  (forall buf body cs fin file line code st,
     nextContext st = buf + 1 ->
     resume_ok buf st (resume n buf body cs fin file line code st)).
Proof.
  induction n as [|n [IHe IHr]]; [split; intros; exact I|].
  assert (He : forall s st, frame_ok st (exec (S n) s st)).
  { intros s st. destruct s as [|s1 s2|e|o v|e|e|body clauses fin file line]; cbn [exec].
    - apply same_frames_refl.
    - pose proof (IHe s1 st) as F1. destruct (exec n s1 st) as [st1| | | |]; auto.
      pose proof (IHe s2 st1) as F2. simpl in F1. destruct F1 as [N1 C1].
      destruct (exec n s2 st1); simpl in *; auto.
      + eapply same_frames_trans; [split|]; eassumption.
      + destruct F2 as (F2 & -> & H0 & H1).
        split; [eapply same_frames_trans; [split|]; eassumption|].
        rewrite N1 in *. auto.
      + lia.
    - split; auto.
    - split; auto.
    - apply sxThrow_frame.
    - apply sxRethrow_frame.
    - destruct (enterTry_spec st) as [[Hlt E]|[_ E]]; rewrite E; [|exact I].
      set (st1 := set_nextContext _ _).
      assert (N1 : nextContext st1 = nextContext st + 1) by reflexivity.
      pose proof (IHr (nextContext st) body clauses fin file line 0 st1 N1) as R.
      assert (B : below (nextContext st) st st1).
      { intros i Hi. subst st1. unfold caught_at at 1. simpl.
        fold (caught_at i (set_caught (nextContext st) 0 st)).
        apply caught_at_set_caught_ne. lia. }
      destruct (resume n _ _ _ _ _ _ _ st1); simpl in *; auto.
      + destruct R as [N2 B2]. split; [assumption|].
        intros i Hi. rewrite B2, B; auto.
      + destruct R as (H1 & B2 & -> & H0 & N2).
        split; [|auto]. split; [assumption|].
        intros i Hi. rewrite B2, B; auto. }
  split; [exact He|].
  intros buf body cs fin file line code st Hn. cbn [resume].
  pose proof (region_pass_ok (exec n) IHe buf body cs fin file line code st Hn) as P.
  destruct (region_pass (exec n) body cs fin file line code st) as [|t c st'| | |];
    simpl in *; auto.
  destruct P as (H1 & B & [[-> N]|(-> & H0 & N)]).
  - rewrite Z.eqb_refl. pose proof (IHr buf body cs fin file line c st' N) as R.
    destruct (resume n buf body cs fin file line c st'); simpl in *; auto.
    + destruct R as [N2 B2]. split; [assumption|]. eapply below_trans; eassumption.
    + destruct R as (H1' & B2 & -> & H0 & N2).
      split; [assumption|]. split; [eapply below_trans; eassumption|]. auto.
  - destruct (Z.eqb_spec (buf - 1) buf); [lia|]. simpl. auto.
Qed.

Lemma exec_frame n s st : frame_ok st (exec n s st).
Proof. apply exec_resume_frame. Qed.

Lemma resume_frame n buf body cs fin file line code st :
  nextContext st = buf + 1 ->
  resume_ok buf st (resume n buf body cs fin file line code st).
Proof. apply exec_resume_frame. Qed.

(** * The exception engine: what is PASSed *)

Lemma npass_emit c e st :
  npass c (emit e st) = (npass c st + (if is_pass c e then 1 else 0))%nat.
Proof.
  unfold npass. simpl. rewrite List.filter_app, List.length_app. simpl.
  destruct (is_pass c e); simpl; lia.
Qed.

Lemma same_passes_refl st : same_passes st st.
Proof. intros c. reflexivity. Qed.

Lemma same_passes_trans a b c :
  same_passes a b -> same_passes b c -> same_passes a c.
Proof. intros H1 H2 x. rewrite H2, H1. reflexivity. Qed.

Lemma same_passes_events st st' : events st' = events st -> same_passes st st'.
Proof. intros E c. unfold npass. rewrite E. reflexivity. Qed.

Lemma same_passes_emit e st :
  (forall c, is_pass c e = false) -> same_passes st (emit e st).
Proof. intros H c. rewrite npass_emit, H. lia. Qed.

Lemma same_passes_walk l : forall st,
  same_passes st (sxWalkTrace sxPrintEntryToStdErr l st).
Proof.
  induction l as [|e l IH]; intros st; simpl; [apply same_passes_refl|].
  eapply same_passes_trans; [|apply IH].
  apply same_passes_emit. reflexivity.
Qed.

Lemma same_passes_free_extras l : forall st, same_passes st (free_extras l st).
Proof.
  induction l as [|e l IH]; intros st; simpl; [apply same_passes_refl|].
  destruct (extra e =? 0); [apply IH|].
  eapply same_passes_trans; [|apply IH]. apply same_passes_emit. reflexivity.
Qed.

Lemma same_passes_clearTrace st : same_passes st (clearTrace st).
Proof.
  unfold clearTrace.
  apply same_passes_trans with (free_extras (rev (trace (set_hasUncatchable false st)))
                                           (set_hasUncatchable false st)).
  - eapply same_passes_trans; [|apply same_passes_free_extras].
    apply same_passes_events. reflexivity.
  - apply same_passes_events. reflexivity.
Qed.

Lemma same_passes_thrown e st : same_passes st (thrown e st).
Proof. apply same_passes_events. apply thrown_fields. Qed.

Lemma passes_kept_trans st st1 o :
  same_passes st st1 -> passes_kept st1 o -> passes_kept st o.
Proof.
  intros H. destruct o; simpl; auto; intros H'; eapply same_passes_trans; eassumption.
Qed.

Lemma throw_passes e st : passes_kept st (_throw e st).
Proof.
  rewrite throw_unfold. destruct (nextContext st <? 1); simpl.
  - unfold sxPrintTrace.
    eapply same_passes_trans; [apply same_passes_thrown|].
    eapply same_passes_trans; [|apply same_passes_walk].
    apply same_passes_emit. reflexivity.
  - apply same_passes_thrown.
Qed.

Lemma sxThrow_passes e st : passes_kept st (sxThrow e st).
Proof.
  unfold sxThrow. eapply passes_kept_trans;
    [apply same_passes_clearTrace | apply throw_passes].
Qed.

Lemma sxRethrow_passes e st : passes_kept st (sxRethrow e st).
Proof.
  unfold sxRethrow. destruct (_ && _).
  - apply throw_passes.
  - simpl. apply same_passes_emit. reflexivity.
Qed.

Lemma leaveTry_passes file line st : passes_kept st (_sxLeaveTry file line st).
Proof.
  rewrite leaveTry_unfold. cbv zeta. destruct (0 <=? nextContext st - 1).
  - destruct (_ || _).
    + eapply passes_kept_trans; [|apply throw_passes].
      apply same_passes_events. reflexivity.
    + simpl. apply same_passes_events. reflexivity.
  - simpl. eapply same_passes_trans; [|apply same_passes_emit; reflexivity].
    apply same_passes_events. reflexivity.
Qed.

Lemma setCaught_passes f st :
  match _sxSetCaught f st with
  | Ok _ st' | Abort _ st' => same_passes st st'
  end.
Proof.
  pose proof (setCaught_touch f st) as T.
  destruct (_sxSetCaught f st) eqn:E.
  - apply same_passes_events. apply T.
  - unfold _sxSetCaught in E. destruct (0 <? nextContext st).
    + repeat match type of E with context [if ?b then _ else _] => destruct b end;
        discriminate.
    + unfold sxAssert_fail in E. inversion E. apply same_passes_emit. reflexivity.
Qed.

Lemma arbitrate_passes cs : forall i st,
  match arbitrate cs i st with
  | Ok _ st' | Abort _ st' => same_passes st st'
  end.
Proof.
  induction cs as [|[g block] cs IH]; intros i st; simpl.
  - apply same_passes_refl.
  - destruct (clause_test g st); [|apply IH].
    pose proof (setCaught_passes false st) as HS.
    destruct (_sxSetCaught false st) as [[|] st1|]; auto.
    specialize (IH (S i) st1).
    destruct (arbitrate cs (S i) st1); eapply same_passes_trans; eassumption.
Qed.

(** The clause that the chain answers is a clause of the region whose
    test held for the pending code. *)
Lemma arbitrate_selected cs : forall i st j block st',
  arbitrate cs i st = Ok (Some (j, block)) st' ->
  exists g, In (g, block) cs /\ clause_test g st = true /\
            nth_error cs (j - i) = Some (g, block) /\ (i <= j)%nat.
Proof.
  induction cs as [|[g b] cs IH]; intros i st j block st' H; simpl in H; [discriminate|].
  destruct (clause_test g st) eqn:G.
  - destruct (Z.ltb_spec 0 (nextContext st)) as [Hn|Hn].
    + rewrite setCaught_catch in H by assumption.
      destruct (_ =? 0).
      * inversion H; subst. exists g. rewrite Nat.sub_diag. simpl. auto.
      * apply IH in H. destruct H as (g' & I & T & N & L).
        exists g'. split; [right; assumption|]. split.
        -- destruct g'; simpl in *; auto.
        -- split; [|lia]. replace (j - i)%nat with (S (j - S i)) by lia. assumption.
    + unfold _sxSetCaught in H. destruct (Z.ltb_spec 0 (nextContext st)); [lia|].
      discriminate.
  - apply IH in H. destruct H as (g' & I & T & N & L).
    exists g'. split; [right; assumption|]. split; [assumption|].
    split; [|lia]. replace (j - i)%nat with (S (j - S i)) by lia. assumption.
Qed.

Section Silent.

Variable c : ascii.
Variable run : stmt -> state -> outcome.
Hypothesis run_frame : forall s st, frame_ok st (run s st).
Hypothesis run_silent : forall s st, dead_only c s = true -> silent c st (run s st).

Lemma silent_of_kept st o : passes_kept st o -> silent c st o.
Proof. destruct o; simpl; auto. Qed.

Lemma silent_trans st st1 o :
  npass c st1 = npass c st -> silent c st1 o -> silent c st o.
Proof. intros H. destruct o; simpl; auto; congruence. Qed.

Lemma finally_endtry_silent fin file line st :
  fin_dead c fin = true -> silent c st (finally_endtry run fin file line st).
Proof.
  intros Hf. unfold finally_endtry.
  destruct fin as [fb|]; [|apply silent_of_kept, leaveTry_passes].
  pose proof (setCaught_passes true st) as HS.
  destruct (_sxSetCaught true st) as [[|] st1|]; simpl; auto.
  - pose proof (run_silent fb st1 Hf) as R.
    destruct (run fb st1) as [st2| | | |]; simpl in *; try congruence; auto.
    apply silent_trans with st2; [rewrite R; apply HS|].
    apply silent_of_kept, leaveTry_passes.
  - apply silent_trans with st1; [apply HS|].
    apply silent_of_kept, leaveTry_passes.
Qed.

Lemma dispatch_silent entering body cs st :
  dead_only c body = true -> clauses_dead c cs = true ->
  (entering = false -> 1 <= _sxLastJumpCode st) ->
  silent c st (dispatch run entering body cs st).
Proof.
  intros Hb Hc Hcode. unfold dispatch. destruct entering.
  - apply run_silent. assumption.
  - pose proof (arbitrate_passes cs 0 st) as A.
    destruct (arbitrate cs 0 st) as [[[j block]|] st1|] eqn:E; simpl; auto.
    apply arbitrate_selected in E. destruct E as (g & I & T & _).
    assert (Hd : dead_only c block = true).
    { unfold clauses_dead in Hc. rewrite forallb_forall in Hc.
      specialize (Hc _ I). destruct g as [n|]; [|assumption].
      simpl in T. apply Z.eqb_eq in T. specialize (Hcode eq_refl).
      destruct (Z.leb_spec n 0); [lia|]. simpl in Hc. assumption. }
    apply silent_trans with st1; [apply A|]. apply run_silent. assumption.
Qed.

Lemma region_pass_silent body cs fin file line code st :
  dead_only c body = true -> clauses_dead c cs = true -> fin_dead c fin = true ->
  code = 0 \/ 1 <= code ->
  silent c st (region_pass run body cs fin file line code st).
Proof.
  intros Hb Hc Hf Hcode. unfold region_pass.
  destruct (enterTry2_spec code st) as [[_ E]|[_ E]]; rewrite E.
  - pose proof (dispatch_silent (code =? 0) body cs (set_sxLastJumpCode code st) Hb Hc) as D.
    assert (Hl : (code =? 0) = false -> 1 <= _sxLastJumpCode (set_sxLastJumpCode code st)).
    { intros H0. apply Z.eqb_neq in H0. simpl. lia. }
    specialize (D Hl).
    destruct (dispatch run (code =? 0) body cs (set_sxLastJumpCode code st)) as [st2| | | |];
      simpl in *; auto.
    apply silent_trans with st2; [exact D|]. apply finally_endtry_silent. assumption.
  - simpl. rewrite npass_emit. simpl. lia.
Qed.

End Silent.

Lemma exec_resume_silent c n :
  (forall s st, dead_only c s = true -> silent c st (exec n s st)) /\
  (forall buf body cs fin file line code st,
     dead_only c body = true -> clauses_dead c cs = true -> fin_dead c fin = true ->
     code = 0 \/ 1 <= code -> nextContext st = buf + 1 ->
     silent c st (resume n buf body cs fin file line code st)).
Proof.
  induction n as [|n [IHe IHr]]; [split; intros; exact I|].
  split.
  - intros s st Hd.
    destruct s as [|s1 s2|e|o v|e|e|body clauses fin file line]; cbn [exec]; simpl in Hd.
    + reflexivity.
    + apply andb_prop in Hd. destruct Hd as [H1 H2].
      pose proof (IHe s1 st H1) as S1.
      destruct (exec n s1 st) as [st1| | | |]; auto.
      eapply silent_trans; [exact S1|]. apply IHe. assumption.
    + simpl. rewrite npass_emit. destruct (is_pass c e); [discriminate|lia].
    + reflexivity.
    + apply silent_of_kept, sxThrow_passes.
    + apply silent_of_kept, sxRethrow_passes.
    + apply andb_prop in Hd. destruct Hd as [Hd Hf].
      apply andb_prop in Hd. destruct Hd as [Hb Hc].
      destruct (enterTry_spec st) as [[_ E]|[_ E]]; rewrite E.
      * eapply silent_trans; [|apply IHr; auto]. reflexivity.
      * simpl. rewrite npass_emit. simpl. lia.
  - intros buf body cs fin file line code st Hb Hc Hf Hcode Hn. cbn [resume].
    pose proof (region_pass_silent c (exec n) IHe body cs fin file line code st
                  Hb Hc Hf Hcode) as HS.
    pose proof (region_pass_ok (exec n) (exec_frame n) buf body cs fin file line code st Hn)
      as P.
    destruct (region_pass (exec n) body cs fin file line code st) as [|t k st'| | |];
      simpl in *; auto.
    destruct P as (H1 & B & [[-> N]|(-> & H0 & N)]).
    + rewrite Z.eqb_refl. eapply silent_trans; [exact HS|]. apply IHr; auto.
    + destruct (Z.eqb_spec (buf - 1) buf); [lia|]. simpl. assumption.
Qed.

Lemma exec_silent c n s st :
  dead_only c s = true -> silent c st (exec n s st).
Proof. apply exec_resume_silent. Qed.

Lemma quiet_dead_only c s : quiet c s = true -> dead_only c s = true.
Proof.
  revert s. fix IH 1. intros s.
  destruct s as [|s1 s2|e|o v|e|e|body clauses fin file line]; simpl; auto.
  - intros H. apply andb_prop in H. destruct H as [H1 H2].
    rewrite (IH _ H1), (IH _ H2). reflexivity.
  - intros H. apply andb_prop in H. destruct H as [H Hf].
    apply andb_prop in H. destruct H as [Hb Hc].
    rewrite (IH _ Hb). simpl.
    assert (Hc' : forallb (fun cl => match cl with
                                     | (Some n, block) => (n <=? 0) || dead_only c block
                                     | (None, block) => dead_only c block
                                     end) clauses = true).
    { clear - IH Hc. induction clauses as [|[g b] cs IHcs]; simpl in *; auto.
      apply andb_prop in Hc. destruct Hc as [H1 H2].
      rewrite (IHcs H2), (IH _ H1). destruct g; rewrite ?orb_true_r; reflexivity. }
    rewrite Hc'. simpl. destruct fin; auto.
Qed.

(** * The exception engine: every region is left after at most four passes *)

Lemma cost_clause (g : option Z) (b : stmt) (cs : list (option Z * stmt)) :
  In (g, b) cs -> (cost b <= fold_right (fun cl m => Nat.max (cost (snd cl)) m) O cs)%nat.
Proof.
  induction cs as [|[g' b'] cs IH]; simpl; [tauto|].
  intros [E|I]; [inversion E; subst; lia|]. specialize (IH I). lia.
Qed.

Lemma arbitrate_some cs : forall i st x st',
  arbitrate cs i st = Ok (Some x) st' ->
  caught_at (nextContext st - 1) st <= 0 /\
  caught_at (nextContext st - 1) st' = 1 /\ _sxLastJumpCode st' = 0.
Proof.
  induction cs as [|[g b] cs IH]; intros i st x st' H; simpl in H; [discriminate|].
  destruct (clause_test g st); [|eapply IH; eassumption].
  destruct (Z.ltb_spec 0 (nextContext st)) as [Hn|Hn].
  - rewrite setCaught_catch in H by assumption.
    destruct (Z.eqb_spec (caught_at (nextContext st - 1) st) 0) as [E|E].
    + inversion H; subst. unfold claimed. split; [lia|]. split; [|reflexivity].
      unfold caught_at. simpl. fold (caught_at (nextContext st - 1)
        (set_caught (nextContext st - 1) 1 st)). apply caught_at_set_caught_eq.
    + apply IH in H. simpl in H. rewrite caught_at_set_caught_eq in H.
      destruct H as (H1 & H2 & H3). split; [lia|]. auto.
  - unfold _sxSetCaught in H. destruct (Z.ltb_spec 0 (nextContext st)); [lia|].
    discriminate.
Qed.

Section Passes.

Variable run : stmt -> state -> outcome.
Hypothesis run_frame : forall s st, frame_ok st (run s st).

(** A longjmp out of the finally block finds the threshold in the
    counter, and the counter was below it before. *)
Lemma finally_endtry_jump buf fin file line st c st' :
  nextContext st = buf + 1 ->
  finally_endtry run fin file line st = Jump buf c st' ->
  caught_at buf st' = FINALLY_THRESHOLD /\ caught_at buf st + 1 < FINALLY_THRESHOLD.
Proof.
  intros Hn H. unfold finally_endtry in H.
  assert (Hleave : forall s, _sxLeaveTry file line s = Jump buf c st' ->
                             nextContext s = buf + 1 -> False).
  { intros s E N. pose proof (leaveTry_spec file line s) as L. rewrite E in L. lia. }
  destruct fin as [fb|]; [|exfalso; eapply Hleave; eassumption].
  assert (Hp : 0 < nextContext st).
  { pose proof (setCaught_touch true st) as T.
    destruct (_sxSetCaught true st); [tauto|discriminate]. }
  rewrite setCaught_finally in H by assumption.
  replace (nextContext st - 1) with buf in H by lia.
  destruct (Z.ltb_spec (caught_at buf st + 1) FINALLY_THRESHOLD) as [Hlt|Hge].
  - split; [|assumption].
    set (st1 := set_caught buf FINALLY_THRESHOLD _) in H.
    assert (N1 : nextContext st1 = buf + 1) by (subst st1; simpl; lia).
    pose proof (run_pass_ok run run_frame buf st1 fb st1 N1 (below_refl _ _)) as R.
    destruct (run fb st1) as [st2| | | |]; try discriminate.
    + exfalso. eapply Hleave; [eassumption|tauto].
    + inversion H; subst. destruct R as (_ & _ & _ & _ & R). rewrite R.
      apply caught_at_set_caught_eq.
  - exfalso. eapply Hleave; [eassumption|]. simpl. assumption.
Qed.

Lemma dispatch_claimed_jump buf body cs st c st' :
  nextContext st = buf + 1 ->
  dispatch run false body cs st = Jump buf c st' ->
  caught_at buf st' = 1 /\ caught_at buf st <= 0.
Proof.
  intros Hn H. unfold dispatch in H.
  destruct (arbitrate cs 0 st) as [[[j block]|] st1|] eqn:A; try discriminate.
  pose proof (arbitrate_touch cs 0 st) as T. rewrite A in T.
  apply arbitrate_some in A. replace (nextContext st - 1) with buf in A by lia.
  destruct A as (A1 & A2 & _).
  assert (N1 : nextContext st1 = buf + 1) by (destruct T as (N & _); lia).
  pose proof (run_pass_ok run run_frame buf st1 block st1 N1 (below_refl _ _)) as R.
  rewrite H in R. destruct R as (_ & _ & _ & _ & R). split; [congruence|assumption].
Qed.

Lemma dispatch_counter buf entering body cs st st' :
  nextContext st = buf + 1 ->
  dispatch run entering body cs st = Normal st' ->
  caught_at buf st <= caught_at buf st' /\ nextContext st' = buf + 1.
Proof.
  intros Hn H. unfold dispatch in H. destruct entering.
  - pose proof (run_pass_ok run run_frame buf st body st Hn (below_refl _ _)) as R.
    rewrite H in R. destruct R as (N & _ & R). split; [lia|assumption].
  - pose proof (arbitrate_touch cs 0 st) as T.
    destruct (arbitrate cs 0 st) as [x st1|]; [|discriminate].
    assert (N1 : nextContext st1 = buf + 1) by (destruct T as (N & _); lia).
    assert (C1 : caught_at buf st <= caught_at buf st1).
    { destruct T as (_ & _ & M & _). replace (nextContext st - 1) with buf in M by lia.
      assumption. }
    destruct x as [[j block]|].
    + pose proof (run_pass_ok run run_frame buf st1 block st1 N1 (below_refl _ _)) as R.
      rewrite H in R. destruct R as (N & _ & R). split; [lia|assumption].
    + inversion H; subst. auto.
Qed.

(** Each longjmp back into the frame lowers the rank. *)
Lemma region_pass_rank buf body cs fin file line code st c st' :
  nextContext st = buf + 1 ->
  region_pass run body cs fin file line code st = Jump buf c st' ->
  (rank c (caught_at buf st') < rank code (caught_at buf st))%nat.
Proof.
  intros Hn H.
  pose proof (region_pass_ok run run_frame buf body cs fin file line code st Hn) as P.
  rewrite H in P. destruct P as (Hc & _).
  unfold region_pass in H.
  destruct (enterTry2_spec code st) as [[_ E]|[_ E]]; rewrite E in H; [|discriminate].
  set (st1 := set_sxLastJumpCode code st) in H.
  assert (N1 : nextContext st1 = buf + 1) by assumption.
  assert (C1 : caught_at buf st1 = caught_at buf st) by reflexivity.
  unfold rank at 2. destruct (Z.eqb_spec code 0) as [Z0|Z0].
  - unfold rank. destruct (Z.eqb_spec c 0); [lia|].
    repeat match goal with |- context [if ?b then _ else _] => destruct b end; lia.
  - destruct (dispatch run false body cs st1) as [st2| | | |] eqn:D; try discriminate.
    + apply dispatch_counter with (buf := buf) in D; [|assumption].
      destruct D as [D N2].
      apply finally_endtry_jump in H; [|assumption]. destruct H as [H1 H2].
      unfold rank. destruct (Z.eqb_spec c 0); [lia|]. rewrite H1.
      unfold FINALLY_THRESHOLD in *. simpl.
      destruct (Z.leb_spec (caught_at buf st) 0); [lia|].
      destruct (Z.ltb_spec (caught_at buf st) (50 - 1)); lia.
    + inversion H; subst. apply dispatch_claimed_jump in D; [|assumption].
      destruct D as [D1 D2]. unfold rank. destruct (Z.eqb_spec c 0); [lia|].
      rewrite D1. simpl. destruct (Z.leb_spec (caught_at buf st) 0); lia.
Qed.

(** With fuel for its blocks a pass does not run out. *)
Lemma region_pass_fuel m body cs fin file line code st :
  (forall s st, (cost s <= m)%nat -> run s st <> OutOfFuel) ->
  (subcost body cs fin <= m)%nat ->
  region_pass run body cs fin file line code st <> OutOfFuel.
Proof.
  intros Hrun Hm. unfold subcost in Hm. unfold region_pass.
  destruct (_sxEnterTry2 code st) as [entering st1|]; [|discriminate].
  assert (Hd : dispatch run entering body cs st1 <> OutOfFuel).
  { unfold dispatch. destruct entering; [apply Hrun; lia|].
    destruct (arbitrate cs 0 st1) as [[[j block]|] st2|] eqn:A; try discriminate.
    apply arbitrate_selected in A. destruct A as (g & I & _).
    apply cost_clause in I. apply Hrun. lia. }
  destruct (dispatch run entering body cs st1) as [st2| | | |]; try discriminate;
    [|congruence].
  unfold finally_endtry. destruct fin as [fb|].
  - destruct (_sxSetCaught true st2) as [[|] st3|]; try discriminate.
    + assert (Hf : run fb st3 <> OutOfFuel) by (apply Hrun; lia).
      destruct (run fb st3); try discriminate; [|congruence].
      pose proof (leaveTry_spec file line st0) as L. intros E. rewrite E in L. exact L.
    + pose proof (leaveTry_spec file line st3) as L. intros E. rewrite E in L. exact L.
  - pose proof (leaveTry_spec file line st2) as L. intros E. rewrite E in L. exact L.
Qed.

End Passes.

Lemma exec_resume_terminates n :
  (forall s st, (cost s <= n)%nat -> exec n s st <> OutOfFuel) /\
  (forall buf body cs fin file line code st,
     nextContext st = buf + 1 ->
     (subcost body cs fin + rank code (caught_at buf st) + 1 <= n)%nat ->
     resume n buf body cs fin file line code st <> OutOfFuel).
Proof.
  induction n as [|n [IHe IHr]].
  - split; intros; [destruct s; simpl in *; lia | lia].
  - split.
    + intros s st Hc.
      destruct s as [|s1 s2|e|o v|e|e|body clauses fin file line];
        cbn [exec]; cbn [cost] in Hc; try discriminate.
      * assert (H1 : exec n s1 st <> OutOfFuel) by (apply IHe; lia).
        destruct (exec n s1 st); try discriminate; [|congruence]. apply IHe. lia.
      * unfold sxThrow. pose proof (throw_frame e (clearTrace st)) as T.
        intros E. rewrite E in T. exact T.
      * unfold sxRethrow. destruct (_ && _); [|discriminate].
        match goal with |- _throw ?x st <> _ => pose proof (throw_frame x st) as T end.
        intros E. rewrite E in T. exact T.
      * destruct (enterTry_spec st) as [[_ E]|[_ E]]; rewrite E; [|discriminate].
        apply IHr; [reflexivity|]. fold (subcost body clauses fin) in Hc.
        unfold rank. simpl. lia.
    + intros buf body cs fin file line code st Hn Hf. cbn [resume].
      assert (Hp : region_pass (exec n) body cs fin file line code st <> OutOfFuel).
      { apply region_pass_fuel with (m := n); [|lia]. intros s st0 Hs. apply IHe. lia. }
      destruct (region_pass (exec n) body cs fin file line code st) as [|t c st'| | |] eqn:P;
        try discriminate; [|congruence].
      pose proof (region_pass_ok (exec n) (exec_frame n) buf body cs fin file line code st Hn)
        as K.
      rewrite P in K. destruct K as (_ & _ & [[-> N]|(-> & _ & N)]).
      * rewrite Z.eqb_refl.
        apply region_pass_rank with (buf := buf) in P; [|apply exec_frame|assumption].
        apply IHr; [assumption|lia].
      * destruct (Z.eqb_spec (buf - 1) buf); [lia|discriminate].
Qed.

Lemma exec_terminates n s st : (cost s <= n)%nat -> exec n s st <> OutOfFuel.
Proof. apply exec_resume_terminates. Qed.

Lemma run_terminates s st : run s st <> OutOfFuel.
Proof. apply exec_terminates. lia. Qed.

(** * Claims about the exception engine *)



(** C3.  The code at the input try { throw(2) } catch (2) {
    rethrow(newex()) } endtry: the entry of the rethrow gets code 0 (the
    pending code, which the catch has cleared), the longjmp carries 1, and
    the enclosing region sees code 1: its catch (2) does not run, its
    catchall does; with no enclosing region the exit status is 201. *)
Theorem rethrow_loses_code :
  Tests.passed (run Tests.rethrow_observed initial) = "b"%string /\
  map code (trace (state_of (run Tests.rethrow_observed initial))) = [2; 0; 1] /\
  match run Tests.rethrow_in_catch initial with
  | Uncaught status _ => status = 201
  | _ => False
  end.
Proof. vm_compute. auto. Qed.

(** C4.  The code at the input try { rethrow(newex()) } endtry, a rethrow
    that is in no catch: the check of sxRethrow passes (a frame exists, the
    pending code is 0, the counter is 0), the rethrow throws, and an
    enclosing catchall catches it; with no enclosing region the process
    ends with status 201, not EXIT_OUTSIDE_RETHROW. *)
Theorem rethrow_in_body_not_fatal :
  Tests.passed (run Tests.rethrow_in_body_observed initial) = "!"%string /\
  (exists st, run Tests.rethrow_in_body_observed initial = Normal st) /\
  match run Tests.rethrow_in_body initial with
  | Uncaught status _ => status = 201
  | _ => False
  end.
Proof. vm_compute. eauto. Qed.

(** C5.  The code at the input throw(newex()) with errno = 0 and no
    enclosing region: the exit status is 200 + 0 = 200; with code -3 it is
    197. *)
Theorem uncaught_status_not_normalized :
  match sxThrow (Saneobj.newex 0 "main.c" 1) initial with
  | Uncaught status _ => status = 200
  | _ => False
  end /\
  match sxThrow (mkEntry (-3) false "main.c" 1 "" 0) initial with
  | Uncaught status _ => status = 197
  | _ => False
  end.
Proof. vm_compute. auto. Qed.

(** C8.  The code on Root -> Mid -> Leaf with m declared abstract in Root:
    when nobody overrides m, sjBaseMethod throws (sjInheritedMethod refuses
    a null methodBody); when only Leaf overrides m, it reports Mid, the
    nearest ancestor whose slot is null, not Root. *)
Theorem base_method_three_levels (errno : Z) :
  (exists e, sjBaseMethod errno 8 Tests.three_levels Tests.vtLeaf (Tests.m_of Tests.vtLeaf)
             = Throws e) /\
  sjBaseMethod errno 8 Tests.three_levels_leaf Tests.vtLeaf (Tests.m_of Tests.vtLeaf)
    = Ret (mkInh Tests.vtMid 0) /\
  Tests.vtMid <> Tests.vtRoot.
Proof. vm_compute. split; [eauto|]. split; [reflexivity|discriminate]. Qed.

Lemma free_extras_events l : forall st,
  events (free_extras l st) =
  events st ++ map EvFree (List.filter (fun p => negb (p =? 0)) (map extra l)).
Proof.
  induction l as [|e l IH]; intros st; simpl.
  - rewrite app_nil_r. reflexivity.
  - destruct (extra e =? 0); simpl; [apply IH|].
    rewrite IH. simpl. rewrite <- app_assoc. reflexivity.
Qed.

(** A new throw starts by clearing the trace:
    the length is 0, the sticky flag is down and every non-null extra of
    the old entries has been freed, last entry first; the trace of the new
    exception then holds its entry alone.  A silent endtry, the one that
    follows a completing catch, leaves the trace and the events as they
    are. *)
Theorem trace_cleared_by_new_throw (e : SxTraceEntry) (st : state)
    (file : string) (line : Z) :
  nextTrace (clearTrace st) = 0 /\
  hasUncatchable (clearTrace st) = false /\
  events (clearTrace st) =
    events st ++ map EvFree (List.filter (fun p => negb (p =? 0))
                                         (map extra (rev (trace st)))) /\
  sxThrow e st = _throw e (clearTrace st) /\
  trace (state_of (sxThrow e st)) = [clipped e] /\
  match _sxLeaveTry file line st with
  | Normal st' => trace st' = trace st /\ events st' = events st
  | _ => True
  end.
Proof.
  split; [reflexivity|]. split.
  { unfold clearTrace. simpl.
    destruct (free_extras_fields (rev (trace st)) (set_hasUncatchable false st))
      as (_ & _ & _ & _ & U & _). exact U. }
  split.
  { unfold clearTrace. simpl. rewrite free_extras_events. reflexivity. }
  split; [reflexivity|]. split.
  { unfold sxThrow. rewrite throw_unfold.
    assert (T : trace (thrown e (clearTrace st)) = [clipped e]).
    { unfold thrown, sxAddTraceEntry, clearTrace, nextTrace. simpl. reflexivity. }
    destruct (nextContext (clearTrace st) <? 1); simpl; [reflexivity|exact T]. }
  pose proof (leaveTry_spec file line st) as L.
  destruct (_sxLeaveTry file line st); auto.
  destruct L as (-> & _). split; reflexivity.
Qed.

(** C6.  The code at the input try { PASS(t); throw(newex()); } catchall
    { PASS(c); } endtry, and at the same region with a throw of code 5 that
    owns the block 777: the catch completes and the region is left
    normally, yet the trace still has its entry, curex() still returns
    that entry (code 5, not -1) and the block has not been freed. *)
Theorem trace_survives_completing_catch :
  (exists st, run Tests.test_case110 initial = Normal st /\ nextTrace st = 1) /\
  (exists st,
     run (Try (Throw (mkEntry 5 false "main.c" 3 "" 777)) [(None, Pass "c")] None
              "main.c" 5) initial = Normal st /\
     nextTrace st = 1 /\ code (sxCurrentException st) = 5 /\
     extra (sxCurrentException st) = 777 /\ events st = [EvPass "c"]).
Proof.
  split; eexists; (split; [vm_compute; reflexivity|]); [reflexivity|].
  repeat split.
Qed.

(** C2.  The code at the input try { throw(1) } catch (1) { throw(1) }
    catch (1) { ... } (48 clauses catch (1) in all) finally { PASS(f) }
    endtry, inside a region with a catchall: after the first block has
    thrown, each of the 48 clauses adds one to the counter of the frame,
    which is 49 when finally is tested; the finally block does not run,
    and the program goes on normally. *)
Theorem finally_skipped_after_48_catches :
  exists st, run (Tests.crowded 48) initial = Normal st /\ npass "f" st = 0%nat.
Proof. eexists. split; [vm_compute; reflexivity|reflexivity]. Qed.

(** C7, the claim as stated fails: the parent of Object's descriptor is
    null, not the descriptor itself. *)
Lemma root_parent_is_null :
  parent vtObject = 0 /\ parent vtObject <> vtObject_addr /\
  link_all [] !! vtObject_addr = Some vtObject.
Proof. split; [reflexivity|]. split; [discriminate|reflexivity]. Qed.

(** * The descriptors *)

Lemma chain_of_more_fuel (reg : registry) k : forall a ch,
  chain_of k reg a = Some ch -> chain_of (S k) reg a = Some ch.
Proof.
  induction k as [|k IH]; intros a ch H; simpl in *.
  - destruct (reg !! a) as [v|]; [|discriminate].
    destruct (parent v =? 0); [assumption|discriminate].
  - destruct (reg !! a) as [v|]; [|discriminate].
    destruct (parent v =? 0); [assumption|].
    destruct (chain_of k reg (parent v)) as [ch'|] eqn:E; [|discriminate].
    apply IH in E. simpl in E. rewrite E. assumption.
Qed.

Lemma chain_of_insert_fresh (reg : registry) a' v' k : forall a ch,
  reg !! a' = None ->
  chain_of k reg a = Some ch -> chain_of k (<[a' := v']> reg) a = Some ch.
Proof.
  induction k as [|k IH]; intros a ch Hfresh H; simpl in *.
  - destruct (reg !! a) as [v|] eqn:L; [|discriminate].
    rewrite lookup_insert_ne by congruence. rewrite L. assumption.
  - destruct (reg !! a) as [v|] eqn:L; [|discriminate].
    rewrite lookup_insert_ne by congruence. rewrite L.
    destruct (parent v =? 0); [assumption|].
    destruct (chain_of k reg (parent v)) as [ch'|] eqn:E; [|discriminate].
    rewrite (IH _ _ Hfresh E). assumption.
Qed.

Lemma count_walk_chain (reg : registry) k : forall a ch r,
  chain_of k reg a = Some ch ->
  count_walk k reg a r = Some (r + Z.of_nat (List.length ch)).
Proof.
  induction k as [|k IH]; intros a ch r H; simpl in *.
  - destruct (reg !! a) as [v|]; [|discriminate].
    destruct (parent v =? 0); [|discriminate]. inversion H. reflexivity.
  - destruct (reg !! a) as [v|]; [|discriminate].
    destruct (parent v =? 0); [inversion H; reflexivity|].
    destruct (chain_of k reg (parent v)) as [ch'|] eqn:E; [|discriminate].
    inversion H; subst. rewrite (IH _ _ (r + 1) E). f_equal.
    cbn [List.length]. lia.
Qed.

Lemma has_class_walk_chain (reg : registry) k : forall a ch x,
  chain_of k reg a = Some ch ->
  has_class_walk k reg a x = Some (existsb (Z.eqb x) ch).
Proof.
  induction k as [|k IH]; intros a ch x H; simpl in *.
  - destruct (reg !! a) as [v|]; [|discriminate].
    destruct (parent v =? 0); [|discriminate]. inversion H; subst. simpl.
    rewrite (Z.eqb_sym x a). destruct (a =? x); reflexivity.
  - destruct (reg !! a) as [v|]; [|discriminate].
    destruct (parent v =? 0).
    + inversion H; subst. simpl. rewrite (Z.eqb_sym x a). destruct (a =? x); reflexivity.
    + destruct (chain_of k reg (parent v)) as [ch'|] eqn:E; [|discriminate].
      inversion H; subst. simpl. rewrite (Z.eqb_sym x a).
      destruct (a =? x); [reflexivity|]. simpl. apply IH. assumption.
Qed.

Lemma existsb_eqb_In x l : existsb (Z.eqb x) l = true <-> In x l.
Proof.
  rewrite existsb_exists. split.
  - intros (y & I & E). apply Z.eqb_eq in E. subst. assumption.
  - intros I. exists x. split; [assumption|apply Z.eqb_refl].
Qed.

Lemma reg_inv_root : reg_inv [vtObject_addr] 0 {[ vtObject_addr := vtObject ]}.
Proof.
  unfold reg_inv. split; [apply lookup_singleton_eq|]. split.
  { intros a. split.
    - intros [v H]. destruct (decide (a = vtObject_addr)) as [->|N]; [left; reflexivity|].
      rewrite lookup_singleton_ne in H by congruence. discriminate.
    - intros [<-|[]]. rewrite lookup_singleton_eq. eauto. }
  split; [intros [H|[]]; discriminate|]. split.
  { intros a v H N. rewrite lookup_singleton_ne in H by congruence. discriminate. }
  intros a [<-|[]]. exists [vtObject_addr]. simpl. rewrite lookup_singleton_eq. simpl.
  split; [reflexivity|]. split; [constructor; [intros []|constructor]|].
  split; [reflexivity|]. split; [reflexivity|]. split; [intros x [<-|[]]; left; reflexivity|lia].
Qed.

Lemma reg_inv_link known k reg c :
  reg_inv known k reg ->
  c_vt c <> 0 -> ~ In (c_vt c) known -> In (c_parent c) known ->
  reg_inv (c_vt c :: known) (S k) (linkvt c reg).
Proof.
  intros (Hroot & Hdom & Hnull & Hpar & Hch) Hnz Hfresh Hp.
  assert (Lc : reg !! c_vt c = None).
  { destruct (reg !! c_vt c) eqn:E; [|reflexivity].
    exfalso. apply Hfresh. apply Hdom. eauto. }
  assert (Lp : exists pv, reg !! c_parent c = Some pv).
  { apply Hdom in Hp. destruct Hp as [pv E]. eauto. }
  destruct Lp as [pv Lp].
  assert (E : linkvt c reg = <[c_vt c := link_fresh c pv]> reg).
  { unfold linkvt. rewrite Lc, Lp. reflexivity. }
  rewrite E. clear E.
  assert (Hpz : c_parent c <> 0) by (intros Z0; apply Hnull; rewrite <- Z0; assumption).
  assert (Hcr : c_vt c <> vtObject_addr).
  { intros Z0. apply Hfresh. apply Hdom. rewrite Z0, Hroot. eauto. }
  unfold reg_inv. split; [rewrite lookup_insert_ne by assumption; assumption|]. split.
  { intros a. destruct (decide (c_vt c = a)) as [<-|N].
    - rewrite lookup_insert_eq. split; [left; reflexivity|eauto].
    - rewrite lookup_insert_ne by assumption. rewrite Hdom. simpl. tauto. }
  split; [simpl; intros [H|H]; [congruence|tauto]|]. split.
  { intros a v H N. destruct (decide (c_vt c = a)) as [<-|Na].
    - rewrite lookup_insert_eq in H. inversion H; subst. simpl. split; [assumption|].
      right. assumption.
    - rewrite lookup_insert_ne in H by assumption.
      destruct (Hpar a v H N) as [P1 P2]. split; [assumption|right; assumption]. }
  intros a [<-|Ia].
  - destruct (Hch _ Hp) as (ch & C1 & C2 & C3 & C4 & C5 & C6).
    exists (c_vt c :: ch). split.
    { cbn [chain_of]. rewrite lookup_insert_eq. simpl.
      destruct (Z.eqb_spec (c_parent c) 0); [contradiction|].
      rewrite (chain_of_insert_fresh _ _ _ _ _ _ Lc C1). reflexivity. }
    split; [constructor; [intros I; apply Hfresh, C5; assumption|assumption]|].
    split; [reflexivity|]. split.
    { destruct ch as [|y ch]; [discriminate|]. simpl in *. assumption. }
    split; [intros x [<-|I]; [left; reflexivity|right; apply C5; assumption]|].
    cbn [List.length]. lia.
  - destruct (Hch _ Ia) as (ch & C1 & C2 & C3 & C4 & C5 & C6).
    exists ch. split.
    { apply chain_of_more_fuel. apply chain_of_insert_fresh; assumption. }
    split; [assumption|]. split; [assumption|]. split; [assumption|].
    split; [intros x I; right; apply C5; assumption|lia].
Qed.

Lemma reg_inv_fold classes : forall known k reg,
  reg_inv known k reg -> classes_ok known classes = true ->
  exists known', reg_inv known' (k + List.length classes)
                         (fold_left (fun r c => linkvt c r) classes reg).
Proof.
  induction classes as [|c classes IH]; intros known k reg Hinv Hok; simpl.
  - exists known. rewrite Nat.add_0_r. assumption.
  - simpl in Hok. apply andb_prop in Hok. destruct Hok as [Hok Hrest].
    apply andb_prop in Hok. destruct Hok as [Hok H3].
    apply andb_prop in Hok. destruct Hok as [H1 H2].
    apply negb_true_iff in H1. apply Z.eqb_neq in H1.
    apply negb_true_iff in H2.
    assert (Hfresh : ~ In (c_vt c) known).
    { intros I. apply existsb_eqb_In in I. congruence. }
    apply existsb_eqb_In in H3.
    destruct (IH (c_vt c :: known) (S k) (linkvt c reg)) as [known' Hinv'].
    + apply reg_inv_link; assumption.
    + assumption.
    + exists known'. replace (k + S (List.length classes))%nat
        with (S k + List.length classes)%nat by lia. assumption.
Qed.

(** * Finally runs once *)

Lemma exec_Seq n a b st :
  exec (S n) (Seq a b) st =
  match exec n a st with
  | Normal st' => exec n b st'
  | o => o
  end.
Proof. reflexivity. Qed.

Lemma exec_Emit n e st : exec (S n) (Emit e) st = Normal (emit e st).
Proof. reflexivity. Qed.

Lemma exec_Try n body cs fin file line st :
  exec (S n) (Try body cs fin file line) st =
  match _sxEnterTry st with
  | Abort c st' => Fatal c st'
  | Ok buf st1 => resume n buf body cs fin file line 0 st1
  end.
Proof. reflexivity. Qed.

Lemma resume_S n buf body cs fin file line code st :
  resume (S n) buf body cs fin file line code st =
  match region_pass (exec n) body cs fin file line code st with
  | Jump t c st' =>
      if t =? buf then resume n buf body cs fin file line c st' else Jump t c st'
  | o => o
  end.
Proof. reflexivity. Qed.

(** Once the counter of a frame holds the threshold, a longjmp into the
    frame runs neither a clause nor finally: what is left is endtry, on a
    state that differs in the counter and the pending code only. *)
Lemma resume_after_finally n buf body cs fin file line c st :
  0 <= buf ->
  nextContext st = buf + 1 -> caught_at buf st = FINALLY_THRESHOLD -> 1 <= c ->
  exists st', resume (S n) buf body cs fin file line c st = _sxLeaveTry file line st' /\
              events st' = events st /\ trace st' = trace st /\
              hasUncatchable st' = hasUncatchable st /\
              _sxLastJumpCode st' = c /\ nextContext st' = buf + 1.
Proof.
  intros Hb Hn Hc H1. unfold FINALLY_THRESHOLD in Hc. cbn [resume]. unfold region_pass.
  destruct (enterTry2_spec c st) as [[_ E]|[Hge _]];
    [|replace (nextContext st - 1) with buf in Hge by lia; lia].
  rewrite E. destruct (Z.eqb_spec c 0); [lia|].
  set (st1 := set_sxLastJumpCode c st).
  assert (N1 : nextContext st1 = buf + 1) by assumption.
  destruct (arbitrate_claimed cs 0 st1) as (st2 & A & T & L & _).
  { lia. }
  { rewrite N1. replace (buf + 1 - 1) with buf by lia.
    change (caught_at buf st1) with (caught_at buf st). lia. }
  unfold dispatch. rewrite A.
  destruct T as (N2 & _ & M2 & T2 & U2 & _ & E2).
  rewrite N1 in *. replace (buf + 1 - 1) with buf in M2 by lia.
  change (caught_at buf st1) with (caught_at buf st) in M2.
  assert (Hfin : exists st3,
    finally_endtry (exec n) fin file line st2 = _sxLeaveTry file line st3 /\
    events st3 = events st2 /\ trace st3 = trace st2 /\
    hasUncatchable st3 = hasUncatchable st2 /\
    _sxLastJumpCode st3 = _sxLastJumpCode st2 /\ nextContext st3 = buf + 1).
  { unfold finally_endtry. destruct fin as [fb|]; [|exists st2; auto 10].
    rewrite setCaught_finally by lia. rewrite N2.
    replace (buf + 1 - 1) with buf by lia.
    destruct (Z.ltb_spec (caught_at buf st2 + 1) FINALLY_THRESHOLD) as [Hlt|Hge];
      [unfold FINALLY_THRESHOLD in Hlt; lia|].
    eexists. split; [reflexivity|]. simpl. auto 10. }
  destruct Hfin as (st3 & Ef & E3 & T3 & U3 & L3 & N3).
  exists st3. rewrite Ef.
  split.
  { pose proof (leaveTry_spec file line st3) as Ls.
    destruct (_sxLeaveTry file line st3) as [|t k st4| | |]; try reflexivity.
    destruct Ls as (-> & _). rewrite N3.
    destruct (Z.eqb_spec (buf + 1 - 2) buf); [lia|reflexivity]. }
  subst st1. simpl in *.
  split; [congruence|]. split; [congruence|]. split; [congruence|].
  split; [|assumption]. rewrite L3, L. reflexivity.
Qed.

Section Finally.

Variable f : ascii.
Variable body : stmt.
Variable cs : list (option Z * stmt).
Variable F : stmt.
Variable file : string.
Variable line : Z.
Hypothesis Hbody : dead_only f body = true.
Hypothesis Hcs : clauses_dead f cs = true.
Hypothesis HF : dead_only f F = true.
Hypothesis Hlen : forall c, (matching c cs <= 47)%nat.

Lemma counted_kept k st st1 o :
  npass f st1 = (k + npass f st)%nat -> passes_kept st1 o -> counted f k st o.
Proof.
  intros H. destruct o; simpl; auto; intros K; rewrite K; assumption.
Qed.

Lemma counted_shift k st st1 o :
  npass f st1 = npass f st -> counted f k st1 o -> counted f k st o.
Proof. intros H. destruct o; simpl; auto; congruence. Qed.

Lemma finally_block_counted n st :
  match exec n (Seq (Pass f) F) st with
  | OutOfFuel => True
  | Normal st' | Jump _ _ st' | Fatal _ st' | Uncaught _ st' =>
      npass f st' = S (npass f st)
  end.
Proof.
  destruct n as [|n]; [exact I|]. rewrite exec_Seq.
  destruct n as [|n]; [exact I|]. unfold Pass. rewrite exec_Emit.
  pose proof (exec_silent f (S n) F (emit (EvPass f) st) HF) as Hs.
  assert (E : npass f (emit (EvPass f) st) = S (npass f st)).
  { rewrite npass_emit. simpl. rewrite Ascii.eqb_refl. lia. }
  destruct (exec (S n) F (emit (EvPass f) st)); simpl in Hs; auto; congruence.
Qed.

(** With the counter at most 48 the finally block runs, once. *)
Lemma finally_endtry_counted n buf st :
  0 <= buf -> nextContext st = buf + 1 -> 0 <= caught_at buf st <= 48 ->
  match finally_endtry (exec n) (Some (Seq (Pass f) F)) file line st with
  | OutOfFuel | Fatal _ _ => True
  | Uncaught _ st' | Normal st' => npass f st' = S (npass f st)
  | Jump t c st' =>
      npass f st' = S (npass f st) /\
      (t = buf -> 1 <= c /\ nextContext st' = buf + 1 /\
                  caught_at buf st' = FINALLY_THRESHOLD)
  end.
Proof.
  intros Hb Hn Hc. unfold finally_endtry.
  rewrite setCaught_finally by lia.
  replace (nextContext st - 1) with buf by lia.
  destruct (Z.ltb_spec (caught_at buf st + 1) FINALLY_THRESHOLD) as [_|Hge];
    [|unfold FINALLY_THRESHOLD in Hge; lia].
  set (st1 := set_caught buf FINALLY_THRESHOLD _).
  assert (N1 : nextContext st1 = buf + 1) by assumption.
  assert (C1 : caught_at buf st1 = FINALLY_THRESHOLD)
    by (subst st1; apply caught_at_set_caught_eq).
  assert (E1 : npass f st1 = npass f st) by reflexivity.
  pose proof (finally_block_counted n st1) as K.
  pose proof (run_pass_ok (exec n) (exec_frame n) buf st1 (Seq (Pass f) F) st1 N1
                (below_refl _ _)) as R.
  destruct (exec n (Seq (Pass f) F) st1) as [st2|t c st2| | |]; auto.
  - pose proof (leaveTry_passes file line st2) as L.
    pose proof (leaveTry_spec file line st2) as Ls.
    destruct R as (N2 & _).
    destruct (_sxLeaveTry file line st2) as [|t c st3| | |]; simpl in L; auto.
    + rewrite L, K, E1. reflexivity.
    + split; [rewrite L, K, E1; reflexivity|]. intros ->.
      destruct Ls as (Ls & _). lia.
    + rewrite L, K, E1. reflexivity.
  - destruct R as (H1 & -> & N2 & _ & C2). split; [congruence|].
    intros _. split; [assumption|]. split; [assumption|]. congruence.
Qed.

(** Where the if / else-if chain leaves the counter of a frame that was
    unclaimed or just claimed. *)
Lemma dispatch_counted n buf entering st :
  0 <= buf -> nextContext st = buf + 1 -> 0 <= caught_at buf st <= 1 ->
  (entering = false -> 1 <= _sxLastJumpCode st) ->
  match dispatch (exec n) entering body cs st with
  | OutOfFuel | Fatal _ _ => True
  | Uncaught _ _ => False
  | Normal st' =>
      npass f st' = npass f st /\ nextContext st' = buf + 1 /\
      0 <= caught_at buf st' <= 48
  | Jump t c st' =>
      npass f st' = npass f st /\ t = buf /\ 1 <= c /\ nextContext st' = buf + 1 /\
      0 <= caught_at buf st' <= 1
  end.
Proof.
  intros Hb Hn Hc Hcode.
  pose proof (dispatch_silent f (exec n) (exec_silent f n) entering body cs st
                Hbody Hcs Hcode) as Hs.
  pose proof (dispatch_pass_ok (exec n) (exec_frame n) buf entering body cs st st Hn
                (below_refl _ _)) as Hp.
  assert (Hk : match dispatch (exec n) entering body cs st with
               | Normal st' => 0 <= caught_at buf st' <= 48
               | Jump _ _ st' => 0 <= caught_at buf st' <= 1
               | _ => True
               end).
  { unfold dispatch. destruct entering.
    - pose proof (run_pass_ok (exec n) (exec_frame n) buf st body st Hn (below_refl _ _)) as R.
      destruct (exec n body st); auto.
      + destruct R as (_ & _ & R). lia.
      + destruct R as (_ & _ & _ & _ & R). lia.
    - destruct (Z.eqb_spec (caught_at buf st) 0) as [C0|C0].
      + rewrite arbitrate_unclaimed;
          [|lia|replace (nextContext st - 1) with buf by lia; assumption].
        destruct (first_match (_sxLastJumpCode st) cs 0) as [[j block]|]; [|lia].
        assert (N1 : nextContext (claimed st) = buf + 1) by assumption.
        assert (C1 : caught_at buf (claimed st) = 1).
        { unfold claimed, caught_at. simpl. replace (nextContext st - 1) with buf by lia.
          fold (caught_at buf (set_caught buf 1 st)). apply caught_at_set_caught_eq. }
        pose proof (run_pass_ok (exec n) (exec_frame n) buf (claimed st) block (claimed st)
                      N1 (below_refl _ _)) as R.
        destruct (exec n block (claimed st)); auto.
        * destruct R as (_ & _ & R). lia.
        * destruct R as (_ & _ & _ & _ & R). lia.
      + destruct (arbitrate_claimed_count cs 0 st) as (st' & A & T & _ & M).
        { lia. }
        { replace (nextContext st - 1) with buf by lia. lia. }
        rewrite A. replace (nextContext st - 1) with buf in M by lia.
        pose proof (Hlen (_sxLastJumpCode st)). lia. }
  destruct (dispatch (exec n) entering body cs st); simpl in *; auto.
  - destruct Hp as [N _]. auto.
  - destruct Hp as (H1 & -> & N & _). auto 10.
  - lia.
Qed.

Lemma resume_counted n : forall buf code st,
  0 <= buf -> nextContext st = buf + 1 -> code = 0 \/ 1 <= code ->
  0 <= caught_at buf st <= 1 ->
  counted f 1 st (resume n buf body cs (Some (Seq (Pass f) F)) file line code st).
Proof.
  induction n as [|n IH]; intros buf code st Hb Hn Hcode Hc; [exact I|].
  cbn [resume]. unfold region_pass.
  destruct (enterTry2_spec code st) as [[_ E]|[Hge _]];
    [|replace (nextContext st - 1) with buf in Hge by lia; lia].
  rewrite E. set (st1 := set_sxLastJumpCode code st).
  assert (Hl : (code =? 0) = false -> 1 <= _sxLastJumpCode st1).
  { intros H0. apply Z.eqb_neq in H0. simpl. lia. }
  pose proof (dispatch_counted n buf (code =? 0) st1 Hb Hn Hc Hl) as D.
  destruct (dispatch (exec n) (code =? 0) body cs st1) as [st2|t c st2| | |];
    try exact I; try contradiction.
  - (* the chain ended normally: finally, then endtry *)
    destruct D as (P2 & N2 & C2).
    pose proof (finally_endtry_counted n buf st2 Hb N2 C2) as K.
    destruct (finally_endtry (exec n) (Some (Seq (Pass f) F)) file line st2)
      as [st3|t c st3| | |]; simpl; auto.
    + rewrite K, P2. reflexivity.
    + destruct K as [K1 K2]. destruct (Z.eqb_spec t buf) as [->|Ne].
      * destruct (K2 eq_refl) as (H1 & N3 & C3).
        destruct n as [|n']; [exact I|].
        destruct (resume_after_finally n' buf body cs (Some (Seq (Pass f) F)) file line
                    c st3 Hb N3 C3 H1) as (st4 & R & E4 & _).
        rewrite R. apply counted_kept with st4.
        -- unfold npass. rewrite E4. fold (npass f st3). rewrite K1, P2. reflexivity.
        -- apply leaveTry_passes.
      * simpl. rewrite K1, P2. reflexivity.
    + rewrite K, P2. reflexivity.
  - (* a block threw: setjmp returns again *)
    destruct D as (P2 & -> & H1 & N2 & C2). rewrite Z.eqb_refl.
    apply counted_shift with st2; [exact P2|].
    apply IH; auto.
Qed.

(** The region as a whole. *)
Lemma region_counted st :
  0 <= nextContext st ->
  match run (Try body cs (Some (Seq (Pass f) F)) file line) st with
  | OutOfFuel => False
  | Fatal _ _ => True
  | Normal st' | Jump _ _ st' | Uncaught _ st' => npass f st' = S (npass f st)
  end.
Proof.
  intros Hn.
  pose proof (run_terminates (Try body cs (Some (Seq (Pass f) F)) file line) st) as Ht.
  unfold run in *. remember (cost (Try body cs (Some (Seq (Pass f) F)) file line)) as k.
  destruct k as [|k]; [simpl in Heqk; discriminate|].
  cbn [exec] in *.
  destruct (enterTry_spec st) as [[_ E]|[_ E]]; rewrite E in *; [|exact I].
  set (st1 := set_nextContext _ _) in *.
  assert (K : counted f 1 st1
                (resume k (nextContext st) body cs (Some (Seq (Pass f) F)) file line 0 st1)).
  { apply resume_counted; auto.
    change (caught_at (nextContext st) st1)
      with (caught_at (nextContext st) (set_caught (nextContext st) 0 st)).
    rewrite caught_at_set_caught_eq. lia. }
  destruct (resume k (nextContext st) body cs (Some (Seq (Pass f) F)) file line 0 st1);
    simpl in K; auto.
Qed.

End Finally.

Lemma leaveTry_pending file line st :
  1 <= _sxLastJumpCode st -> 1 <= nextContext st ->
  match _sxLeaveTry file line st with
  | Jump t k _ => t = nextContext st - 2 /\ k = _sxLastJumpCode st
  | Uncaught _ _ => nextContext st = 1
  | _ => False
  end.
Proof.
  intros Hc Hn. rewrite leaveTry_unfold. cbv zeta.
  destruct (Z.leb_spec 0 (nextContext st - 1)); [|lia].
  destruct (Z.eqb_spec (_sxLastJumpCode st) 0); [lia|].
  rewrite orb_true_r. rewrite throw_unfold. simpl.
  destruct (Z.ltb_spec (nextContext st - 1) 1); [lia|].
  split; [lia|]. destruct (Z.ltb_spec 0 (_sxLastJumpCode st)); [reflexivity|lia].
Qed.

Lemma quiet_clauses_dead f (cs : list (option Z * stmt)) :
  forallb (fun cl => quiet f (snd cl)) cs = true -> clauses_dead f cs = true.
Proof.
  unfold clauses_dead. induction cs as [|[g b] cs IH]; simpl; [reflexivity|].
  intros H. apply andb_prop in H. destruct H as [H1 H2].
  rewrite (IH H2), (quiet_dead_only _ _ H1). destruct g; rewrite ?orb_true_r; reflexivity.
Qed.

(** X24.  finally runs exactly once in a region where, for every code, at
    most 47 of the clauses are catch of that code or catchall.  The
    finally block starts with a PASS(f) found nowhere else in the region:
    however the region is left (normally, by a longjmp to the enclosing
    frame, or by the exit of an uncaught exception), PASS(f) has been
    executed exactly once, unless a check of the engine ended the process.
    And when the finally block throws into its frame, the frame runs no
    clause and no finally any more: what follows is endtry alone, which
    sends the code to the enclosing frame or, without one, ends the
    process as uncaught. *)
Theorem finally_runs_once (f : ascii) (body : stmt) (cs : list (option Z * stmt))
    (F : stmt) (file : string) (line : Z) (st : state) :
  quiet f body = true ->
  forallb (fun cl => quiet f (snd cl)) cs = true ->
  quiet f F = true ->
  (forall c, (matching c cs <= 47)%nat) ->
  0 <= nextContext st ->
  match run (Try body cs (Some (Seq (Pass f) F)) file line) st with
  | OutOfFuel => False
  | Fatal _ _ => True
  | Normal st' | Jump _ _ st' | Uncaught _ st' => npass f st' = S (npass f st)
  end /\
  forall m n buf st2 c st',
    0 <= buf -> nextContext st2 = buf + 1 ->
    finally_endtry (exec m) (Some (Seq (Pass f) F)) file line st2 = Jump buf c st' ->
    exists st'',
      resume (S n) buf body cs (Some (Seq (Pass f) F)) file line c st'
        = _sxLeaveTry file line st'' /\
      events st'' = events st' /\ _sxLastJumpCode st'' = c /\
      match _sxLeaveTry file line st'' with
      | Jump t k _ => t = buf - 1 /\ k = c
      | Uncaught _ _ => buf = 0
      | _ => False
      end.
Proof.
  intros Hb Hc HF Hlen Hn. split.
  - apply region_counted; auto using quiet_dead_only, quiet_clauses_dead.
  - intros m n buf st2 c st' Hbuf N2 J.
    pose proof (finally_endtry_pass_ok (exec m) (exec_frame m) buf
                  (Some (Seq (Pass f) F)) file line st2 st2 N2 (below_refl _ _)) as P.
    rewrite J in P. simpl in P. destruct P as (H1 & _ & [[_ N']|[Hx _]]); [|lia].
    apply finally_endtry_jump with (buf := buf) in J; [|apply exec_frame|assumption].
    destruct J as [C' _].
    destruct (resume_after_finally n buf body cs (Some (Seq (Pass f) F)) file line c st'
                Hbuf N' C' H1) as (st'' & R & E & _ & _ & L & N'').
    exists st''. split; [exact R|]. split; [exact E|]. split; [exact L|].
    pose proof (leaveTry_pending file line st'') as Lp.
    rewrite L, N'' in Lp. specialize (Lp H1 ltac:(lia)).
    destruct (_sxLeaveTry file line st''); try contradiction.
    + destruct Lp as [-> ->]. split; [lia|reflexivity].
    + lia.
Qed.

Lemma finally_runs_once_witness :
  match run (Try (Seq (Pass "t") (Throw Tests.ex))
                 [(None, Seq (Pass "c") (Throw Tests.ex))]
                 (Some (Seq (Pass "f") (Throw Tests.ex))) "saneex-test.c" 0) initial with
  | OutOfFuel => False
  | Fatal _ _ => True
  | Normal st' | Jump _ _ st' | Uncaught _ st' => npass "f" st' = S (npass "f" initial)
  end.
Proof.
  apply (finally_runs_once "f" (Seq (Pass "t") (Throw Tests.ex))
           [(None, Seq (Pass "c") (Throw Tests.ex))] (Throw Tests.ex)
           "saneex-test.c" 0 initial); try reflexivity.
  intros c. etransitivity; [apply matching_le_length|]. simpl. lia.
Defined.

(** * A constructor that throws *)

Lemma walk_events l : forall st,
  events (sxWalkTrace sxPrintEntryToStdErr l st) = events st ++ map EvEntry l.
Proof.
  induction l as [|e l IH]; intros st; simpl; [rewrite app_nil_r; reflexivity|].
  rewrite IH. simpl. rewrite <- app_assoc. reflexivity.
Qed.

Lemma throw_events e st :
  match _throw e st with
  | Jump _ _ st' => events st' = events st
  | Uncaught _ st' =>
      exists l, events st' = events st ++ l /\ forallb is_stderr l = true
  | _ => False
  end.
Proof.
  rewrite throw_unfold. destruct (nextContext st <? 1).
  - unfold sxPrintTrace. rewrite walk_events. simpl.
    destruct (sxAddTraceEntry_fields e st) as (_ & _ & _ & _ & _ & E). rewrite E.
    rewrite <- app_assoc. eexists. split; [reflexivity|]. simpl.
    induction (trace (sxAddTraceEntry e st)); simpl; auto.
  - apply thrown_fields.
Qed.

(** A longjmp into a frame that is already claimed and has no finally
    left to run: no block runs, endtry follows. *)
Lemma resume_spent n buf body cs fin file line c st :
  0 <= buf -> nextContext st = buf + 1 -> 1 <= c ->
  1 <= caught_at buf st < 1000 ->
  fin = None \/ FINALLY_THRESHOLD - 1 <= caught_at buf st ->
  exists st', resume (S n) buf body cs fin file line c st = _sxLeaveTry file line st' /\
              events st' = events st /\ trace st' = trace st /\
              hasUncatchable st' = hasUncatchable st /\
              _sxLastJumpCode st' = c /\ nextContext st' = buf + 1.
Proof.
  intros Hb Hn H1 Hc Hfin. rewrite resume_S. unfold region_pass.
  destruct (enterTry2_spec c st) as [[_ E]|[Hge _]];
    [|replace (nextContext st - 1) with buf in Hge by lia; lia].
  rewrite E. destruct (Z.eqb_spec c 0); [lia|].
  set (st1 := set_sxLastJumpCode c st).
  assert (N1 : nextContext st1 = buf + 1) by assumption.
  destruct (arbitrate_claimed cs 0 st1) as (st2 & A & T & L & _).
  { lia. }
  { rewrite N1. replace (buf + 1 - 1) with buf by lia.
    change (caught_at buf st1) with (caught_at buf st). lia. }
  unfold dispatch. rewrite A.
  destruct T as (N2 & _ & M2 & T2 & U2 & _ & E2).
  rewrite N1 in *. replace (buf + 1 - 1) with buf in M2 by lia.
  change (caught_at buf st1) with (caught_at buf st) in M2.
  assert (Hf : exists st3,
    finally_endtry (exec n) fin file line st2 = _sxLeaveTry file line st3 /\
    events st3 = events st2 /\ trace st3 = trace st2 /\
    hasUncatchable st3 = hasUncatchable st2 /\
    _sxLastJumpCode st3 = _sxLastJumpCode st2 /\ nextContext st3 = buf + 1).
  { unfold finally_endtry. destruct fin as [fb|]; [|exists st2; auto 10].
    destruct Hfin as [?|Hfin]; [discriminate|]. unfold FINALLY_THRESHOLD in Hfin.
    rewrite setCaught_finally by lia. rewrite N2.
    replace (buf + 1 - 1) with buf by lia.
    destruct (Z.ltb_spec (caught_at buf st2 + 1) FINALLY_THRESHOLD) as [Hlt|Hge];
      [unfold FINALLY_THRESHOLD in Hlt; lia|].
    eexists. split; [reflexivity|]. simpl. auto 10. }
  destruct Hf as (st3 & Ef & E3 & T3 & U3 & L3 & N3).
  exists st3. rewrite Ef.
  split.
  { pose proof (leaveTry_spec file line st3) as Ls.
    destruct (_sxLeaveTry file line st3) as [|t k st4| | |]; try reflexivity.
    destruct Ls as (-> & _). rewrite N3.
    destruct (Z.eqb_spec (buf + 1 - 2) buf); [lia|reflexivity]. }
  subst st1. simpl in *.
  split; [congruence|]. split; [congruence|]. split; [congruence|].
  split; [|assumption]. rewrite L3, L. reflexivity.
Qed.

Lemma leaveTry_events file line st :
  1 <= _sxLastJumpCode st -> 1 <= nextContext st ->
  match _sxLeaveTry file line st with
  | Jump t _ st' => t = nextContext st - 2 /\ events st' = events st
  | Uncaught _ st' =>
      nextContext st = 1 /\
      exists l, events st' = events st ++ l /\ forallb is_stderr l = true
  | _ => False
  end.
Proof.
  intros Hc Hn. pose proof (leaveTry_pending file line st Hc Hn) as P.
  rewrite leaveTry_unfold in *. cbv zeta in *.
  destruct (Z.leb_spec 0 (nextContext st - 1)); [|lia].
  destruct (Z.eqb_spec (_sxLastJumpCode st) 0); [lia|].
  rewrite orb_true_r in *.
  pose proof (throw_events (endtry_entry file line st)
                (set_nextContext (nextContext st - 1) st)) as T.
  destruct (_throw _ _); try contradiction.
  - split; [apply P|exact T].
  - split; [exact P|exact T].
Qed.

Lemma sjNew_ctor_throws_fuel (n fuel : nat) (reg : registry) (ctor : Z -> stmt)
    (ctor_ret : Z -> Z) (allocated size : Z) (file : string) (line : Z)
    (st : state) (t c : Z) (st2 : state) :
  allocated <> 0 ->
  0 <= nextContext st < MAX_TRY_CATCH ->
  exec (S (S (S n))) (ctor allocated) (try_entered st) = Jump t c st2 ->
  match sjNew (S (S (S (S (S n))))) fuel reg ctor ctor_ret allocated size file line st with
  | Escapes (Jump t' _ st') =>
      t' = nextContext st - 1 /\ events st' = events st2 ++ [EvFree allocated]
  | Escapes (Uncaught _ st') =>
      nextContext st = 0 /\
      exists l, events st' = events st2 ++ EvFree allocated :: l /\
                forallb is_stderr l = true
  | _ => False
  end.
Proof.
  intros Ha [Hn0 Hn1] Hctor. unfold sjNew.
  destruct (Z.eqb_spec allocated 0); [contradiction|].
  set (buf := nextContext st).
  set (blk := Seq (Free allocated)
                  (Rethrow (sxprintf (makeEx file line) "ctor(%p) error."))).
  rewrite exec_Try.
  destruct (enterTry_spec st) as [[_ E]|[Hge _]]; [|lia]. rewrite E.
  (* first pass: the constructor runs and throws *)
  pose proof (exec_frame (S (S (S n))) (ctor allocated) (try_entered st)) as Fr.
  rewrite Hctor in Fr. simpl in Fr. destruct Fr as ([N2 C2] & Ht & _ & H1).
  change (nextContext (try_entered st)) with (buf + 1) in *.
  assert (Ht' : t = buf) by (subst buf; lia). clear Ht. subst t.
  assert (C2' : caught_at buf st2 = 0).
  { rewrite C2 by lia. unfold try_entered.
    change (caught_at buf (set_caught buf 0 st) = 0). apply caught_at_set_caught_eq. }
  rewrite resume_S. unfold region_pass at 1.
  assert (E2 : _sxEnterTry2 0 (set_nextContext (buf + 1) (set_caught buf 0 st))
               = Ok true (try_entered st)).
  { unfold _sxEnterTry2. simpl. replace (buf + 1 - 1) with buf by lia.
    change (caught_at buf (set_nextContext (buf + 1) (set_caught buf 0 st)))
      with (caught_at buf (set_caught buf 0 st)).
    rewrite caught_at_set_caught_eq. reflexivity. }
  fold buf. rewrite E2. unfold dispatch at 1. rewrite Hctor. rewrite Z.eqb_refl.
  (* second pass: catchall claims, frees and rethrows *)
  rewrite resume_S. unfold region_pass at 1.
  destruct (enterTry2_spec c st2) as [[_ E3]|[Hge _]];
    [|rewrite N2 in Hge; replace (buf + 1 - 1) with buf in Hge by lia; lia].
  rewrite E3. destruct (Z.eqb_spec c 0); [lia|].
  set (st3 := set_sxLastJumpCode c st2).
  assert (N3 : nextContext st3 = buf + 1) by exact N2.
  unfold dispatch at 1.
  rewrite arbitrate_unclaimed;
    [|lia|rewrite N3; replace (buf + 1 - 1) with buf by lia; exact C2'].
  change (first_match (_sxLastJumpCode st3) [(None, blk)] 0) with (Some (0%nat, blk)).
  cbv iota beta. subst blk. rewrite exec_Seq. unfold Free at 1. rewrite exec_Emit.
  set (st4 := emit (EvFree allocated) (claimed st3)).
  assert (N4 : nextContext st4 = buf + 1) by exact N2.
  assert (C4 : caught_at buf st4 = 1).
  { subst st4. unfold claimed. rewrite N3. replace (buf + 1 - 1) with buf by lia.
    change (caught_at buf (set_caught buf 1 st3) = 1). apply caught_at_set_caught_eq. }
  assert (E4 : events st4 = events st2 ++ [EvFree allocated]) by reflexivity.
  assert (R : exists st5, exec (S n) (Rethrow (sxprintf (makeEx file line) "ctor(%p) error."))
                            st4 = Jump buf 1 st5 /\
                          events st5 = events st4 /\ nextContext st5 = buf + 1 /\
                          caught_at buf st5 = 1).
  { cbn [exec]. unfold sxRethrow. rewrite N4. replace (buf + 1 - 1) with buf by lia.
    rewrite C4. destruct (Z.ltb_spec 0 (buf + 1)); [|lia]. simpl.
    rewrite throw_unfold. rewrite N4. destruct (Z.ltb_spec (buf + 1) 1); [lia|].
    replace (buf + 1 - 1) with buf by lia. eexists. split; [reflexivity|].
    split; [apply thrown_fields|]. split.
    - destruct (thrown_fields (mkEntry 0 false (sxlcpy file) line
                                 (sxlcpy "ctor(%p) error.") 0) st4) as (A & _).
      rewrite <- N4. exact A.
    - rewrite caught_at_thrown. exact C4. }
  destruct R as (st5 & R & E5 & N5 & C5). rewrite R. rewrite Z.eqb_refl.
  (* third pass: nothing is left but endtry *)
  destruct (resume_spent (S n) buf (ctor allocated)
              [(None, Seq (Free allocated)
                          (Rethrow (sxprintf (makeEx file line) "ctor(%p) error.")))]
              None "saneobj.c" 127 1 st5)
    as (st6 & R6 & E6 & _ & _ & L6 & N6); try lia; [left; reflexivity|].
  rewrite R6.
  pose proof (leaveTry_events "saneobj.c" 127 st6) as Le.
  rewrite L6, N6 in Le. specialize (Le ltac:(lia) ltac:(lia)).
  destruct (_sxLeaveTry "saneobj.c" 127 st6); try contradiction.
  - destruct Le as [-> Le]. split; [subst buf; lia|]. congruence.
  - destruct Le as (Hb & l & Le & Hl). split; [subst buf; lia|].
    exists l. split; [|exact Hl]. rewrite Le, E6, E5, E4.
    rewrite <- app_assoc. reflexivity.
Qed.

(** * More fuel changes nothing *)

Section Monotone.

Variables run1 run2 : stmt -> state -> outcome.
Hypothesis run_more : forall s st, run1 s st <> OutOfFuel -> run2 s st = run1 s st.

Lemma dispatch_more entering body cs st :
  dispatch run1 entering body cs st <> OutOfFuel ->
  dispatch run2 entering body cs st = dispatch run1 entering body cs st.
Proof.
  unfold dispatch. destruct entering; [apply run_more|].
  destruct (arbitrate cs 0 st) as [[[j block]|] st'|]; auto.
Qed.

Lemma finally_endtry_more fin file line st :
  finally_endtry run1 fin file line st <> OutOfFuel ->
  finally_endtry run2 fin file line st = finally_endtry run1 fin file line st.
Proof.
  unfold finally_endtry. destruct fin as [fb|]; [|reflexivity].
  destruct (_sxSetCaught true st) as [[|] st'|]; try reflexivity.
  intros H. rewrite run_more; [reflexivity|].
  intros E. rewrite E in H. apply H. reflexivity.
Qed.

Lemma region_pass_more body cs fin file line code st :
  region_pass run1 body cs fin file line code st <> OutOfFuel ->
  region_pass run2 body cs fin file line code st
    = region_pass run1 body cs fin file line code st.
Proof.
  unfold region_pass. destruct (_sxEnterTry2 code st) as [entering st1|]; [|reflexivity].
  intros H. rewrite dispatch_more.
  - destruct (dispatch run1 entering body cs st1); try reflexivity.
    apply finally_endtry_more. assumption.
  - intros E. rewrite E in H. apply H. reflexivity.
Qed.

End Monotone.

Lemma exec_resume_more n :
  (forall s st, exec n s st <> OutOfFuel -> exec (S n) s st = exec n s st) /\
  (forall buf body cs fin file line code st,
     resume n buf body cs fin file line code st <> OutOfFuel ->
     resume (S n) buf body cs fin file line code st
       = resume n buf body cs fin file line code st).
Proof.
  induction n as [|n [IHe IHr]]; [split; intros; simpl in *; congruence|].
  split.
  - intros s st H.
    destruct s as [|s1 s2|e|o v|e|e|body clauses fin file line]; try reflexivity.
    + rewrite (exec_Seq (S n)). rewrite exec_Seq in H |- *.
      assert (H1 : exec n s1 st <> OutOfFuel).
      { intros E. rewrite E in H. apply H. reflexivity. }
      rewrite (IHe s1 st H1).
      destruct (exec n s1 st) as [st1| | | |]; try reflexivity.
      apply IHe. assumption.
    + rewrite (exec_Try (S n)). rewrite exec_Try in H |- *.
      destruct (_sxEnterTry st); [|reflexivity]. apply IHr. assumption.
  - intros buf body cs fin file line code st H.
    rewrite (resume_S (S n)). rewrite resume_S in H |- *.
    assert (P : region_pass (exec n) body cs fin file line code st <> OutOfFuel).
    { intros E. rewrite E in H. apply H. reflexivity. }
    rewrite (region_pass_more (exec n) (exec (S n)) IHe) by assumption.
    destruct (region_pass (exec n) body cs fin file line code st) as [|t c st'| | |];
      try reflexivity.
    destruct (t =? buf); [|reflexivity]. apply IHr. assumption.
Qed.

Lemma exec_more_fuel n m s st :
  exec n s st <> OutOfFuel -> (n <= m)%nat -> exec m s st = exec n s st.
Proof.
  intros H L. induction L as [|m L IH]; [reflexivity|].
  rewrite <- IH. apply exec_resume_more. rewrite IH. assumption.
Qed.

(** With enough fuel [exec] is [run]. *)
Lemma exec_run n s st : (cost s <= n)%nat -> exec n s st = run s st.
Proof.
  intros H. unfold run. apply exec_more_fuel; [apply run_terminates|assumption].
Qed.

(** C9.  When the constructor throws inside sjNew, sjNew does not return:
    control leaves it by a longjmp to the frame of the caller or, without
    one, by the exit of an uncaught exception.  After the throw of the
    constructor sjNew frees the allocated block, once, and does nothing
    else that the outside sees before it hands the exception on: no second
    free, no destructor call. *)
Theorem sjNew_ctor_throws (k n fuel : nat) (reg : registry) (ctor : Z -> stmt)
    (ctor_ret : Z -> Z) (allocated size : Z) (file : string) (line : Z)
    (st : state) (t c : Z) (st2 : state) :
  allocated <> 0 ->
  0 <= nextContext st < MAX_TRY_CATCH ->
  exec k (ctor allocated) (try_entered st) = Jump t c st2 ->
  (k <= n)%nat -> (3 <= n)%nat ->
  match sjNew (S (S n)) fuel reg ctor ctor_ret allocated size file line st with
  | Escapes (Jump t' _ st') =>
      t' = nextContext st - 1 /\ events st' = events st2 ++ [EvFree allocated]
  | Escapes (Uncaught _ st') =>
      nextContext st = 0 /\
      exists l, events st' = events st2 ++ EvFree allocated :: l /\
                forallb is_stderr l = true
  | _ => False
  end.
Proof.
  intros Ha Hn Hctor Hk H3.
  destruct n as [|[|[|n]]]; try lia.
  apply sjNew_ctor_throws_fuel with (t := t) (c := c); try assumption.
  rewrite (exec_more_fuel k); [assumption|rewrite Hctor; discriminate|assumption].
Qed.

Lemma sjNew_ctor_throws_witness :
  exec 2 (Throw (mkEntry 0 false "saneobj-demo.c" 32 "Fruit is abstract!" 0))
         (try_entered initial)
    = Jump 0 1 (thrown (mkEntry 0 false "saneobj-demo.c" 32 "Fruit is abstract!" 0)
                       (clearTrace (try_entered initial))) /\
  match sjNew 5 8 Tests.demo
          (fun _ => Throw (mkEntry 0 false "saneobj-demo.c" 32 "Fruit is abstract!" 0))
          (fun o => o) 9000 24 "saneobj-demo.c" 326 initial with
  | Escapes (Uncaught _ st') =>
      exists l, events st' = [EvFree 9000] ++ l /\ forallb is_stderr l = true
  | _ => False
  end.
Proof.
  split; [reflexivity|].
  pose proof (sjNew_ctor_throws 2 3 8 Tests.demo
                (fun _ => Throw (mkEntry 0 false "saneobj-demo.c" 32 "Fruit is abstract!" 0))
                (fun o => o) 9000 24 "saneobj-demo.c" 326 initial 0 1
                (thrown (mkEntry 0 false "saneobj-demo.c" 32 "Fruit is abstract!" 0)
                        (clearTrace (try_entered initial)))) as H.
  assert (H1 : 9000 <> 0) by discriminate.
  assert (H2 : 0 <= nextContext initial < MAX_TRY_CATCH) by (split; reflexivity || discriminate).
  specialize (H H1 H2 eq_refl ltac:(lia) ltac:(lia)).
  remember (sjNew 5 8 Tests.demo
              (fun _ => Throw (mkEntry 0 false "saneobj-demo.c" 32 "Fruit is abstract!" 0))
              (fun o => o) 9000 24 "saneobj-demo.c" 326 initial) as r eqn:Er.
  vm_compute in Er. subst r.
  destruct H as (_ & l & E & Hl). exists l. split; [exact E|exact Hl].
Defined.

(** * What a program keeps: a way to carry a relation through every statement *)

Section Preserved.

Variable R : state -> state -> Prop.
Variable p : stmt -> bool.
Hypothesis R_refl : forall st, R st st.
Hypothesis R_trans : forall a b c, R a b -> R b c -> R a c.
Hypothesis R_control : forall st st',
  trace st' = trace st -> hasUncatchable st' = hasUncatchable st ->
  objects st' = objects st -> events st' = events st -> R st st'.
Hypothesis R_stderr : forall e st, is_stderr e = true -> R st (emit e st).
Hypothesis R_thrown : forall e st, R st (thrown e st).
Hypothesis R_emit : forall e st, p (Emit e) = true -> R st (emit e st).
Hypothesis R_store : forall o v st,
  p (Store o v) = true -> R st (set_objects (<[o := v]> (objects st)) st).
Hypothesis R_clear : forall e st, p (Throw e) = true -> R st (clearTrace st).

Lemma carried_trans st st1 o : R st st1 -> carried R st1 o -> carried R st o.
Proof. intros H. destruct o; simpl; auto; intros H'; eapply R_trans; eassumption. Qed.

Lemma walk_carried l : forall st, R st (sxWalkTrace sxPrintEntryToStdErr l st).
Proof.
  induction l as [|e l IH]; intros st; simpl; [apply R_refl|].
  eapply R_trans; [|apply IH]. apply R_stderr. reflexivity.
Qed.

Lemma throw_carried e st : carried R st (_throw e st).
Proof.
  rewrite throw_unfold. destruct (nextContext st <? 1); simpl; [|apply R_thrown].
  eapply R_trans; [apply R_thrown|]. unfold sxPrintTrace.
  eapply R_trans; [|apply walk_carried]. apply R_stderr. reflexivity.
Qed.

Lemma sxRethrow_carried e st : carried R st (sxRethrow e st).
Proof.
  unfold sxRethrow. destruct (_ && _); [apply throw_carried|].
  simpl. apply R_stderr. reflexivity.
Qed.

Lemma leaveTry_carried file line st : carried R st (_sxLeaveTry file line st).
Proof.
  rewrite leaveTry_unfold. cbv zeta.
  assert (H1 : R st (set_nextContext (nextContext st - 1) st))
    by (apply R_control; reflexivity).
  destruct (0 <=? nextContext st - 1).
  - destruct (_ || _); [|exact H1].
    eapply carried_trans; [exact H1|apply throw_carried].
  - simpl. eapply R_trans; [exact H1|]. apply R_stderr. reflexivity.
Qed.

Lemma enterTry_carried st : carried_res R st (_sxEnterTry st).
Proof.
  destruct (enterTry_spec st) as [[_ E]|[_ E]]; rewrite E; simpl.
  - apply R_control; reflexivity.
  - apply R_stderr. reflexivity.
Qed.

Lemma enterTry2_carried code st : carried_res R st (_sxEnterTry2 code st).
Proof.
  destruct (enterTry2_spec code st) as [[_ E]|[_ E]]; rewrite E; simpl.
  - apply R_control; reflexivity.
  - apply R_stderr. reflexivity.
Qed.

Lemma setCaught_carried f st : carried_res R st (_sxSetCaught f st).
Proof.
  pose proof (setCaught_touch f st) as T.
  destruct (_sxSetCaught f st) as [b st'|c st'] eqn:E; simpl.
  - destruct T as (_ & _ & _ & _ & T1 & T2 & T3 & T4). apply R_control; assumption.
  - unfold _sxSetCaught in E. destruct (0 <? nextContext st).
    + repeat match type of E with context [if ?b then _ else _] => destruct b end;
        discriminate.
    + unfold sxAssert_fail in E. inversion E. apply R_stderr. reflexivity.
Qed.

Lemma arbitrate_carried cs : forall i st, carried_res R st (arbitrate cs i st).
Proof.
  induction cs as [|[g block] cs IH]; intros i st; simpl; [apply R_refl|].
  destruct (clause_test g st); [|apply IH].
  pose proof (setCaught_carried false st) as HS.
  destruct (_sxSetCaught false st) as [[|] st1|]; simpl in *; auto.
  specialize (IH (S i) st1).
  destruct (arbitrate cs (S i) st1); simpl in *; eapply R_trans; eassumption.
Qed.

Section Blocks.

Variable run : stmt -> state -> outcome.
Hypothesis run_carried : forall s st, every p s = true -> carried R st (run s st).

Lemma finally_endtry_carried fin file line st :
  match fin with Some fb => every p fb | None => true end = true ->
  carried R st (finally_endtry run fin file line st).
Proof.
  intros Hf. unfold finally_endtry.
  destruct fin as [fb|]; [|apply leaveTry_carried].
  pose proof (setCaught_carried true st) as HS.
  destruct (_sxSetCaught true st) as [[|] st1|]; simpl in *; auto.
  - pose proof (run_carried fb st1 Hf) as Hr.
    destruct (run fb st1) as [st2| | | |]; simpl in *; auto;
      try (eapply R_trans; eassumption).
    eapply carried_trans; [eapply R_trans; eassumption|apply leaveTry_carried].
  - eapply carried_trans; [eassumption|apply leaveTry_carried].
Qed.

Lemma dispatch_carried entering body cs st :
  (entering = true -> every p body = true) ->
  forallb (fun cl => every p (snd cl)) cs = true ->
  carried R st (dispatch run entering body cs st).
Proof.
  intros Hb Hc. unfold dispatch. destruct entering; [apply run_carried; auto|].
  pose proof (arbitrate_carried cs 0 st) as A.
  destruct (arbitrate cs 0 st) as [[[j block]|] st1|] eqn:E; simpl in *; auto.
  apply arbitrate_selected in E. destruct E as (g & I & _).
  rewrite forallb_forall in Hc. specialize (Hc _ I). simpl in Hc.
  eapply carried_trans; [exact A|]. apply run_carried. assumption.
Qed.

Lemma region_pass_carried body cs fin file line code st :
  (code = 0 -> every p body = true) ->
  forallb (fun cl => every p (snd cl)) cs = true ->
  match fin with Some fb => every p fb | None => true end = true ->
  carried R st (region_pass run body cs fin file line code st).
Proof.
  intros Hb Hc Hf. unfold region_pass.
  pose proof (enterTry2_carried code st) as E.
  destruct (enterTry2_spec code st) as [[_ E2]|[_ E2]]; rewrite E2 in *; simpl in *;
    [|assumption].
  pose proof (dispatch_carried (code =? 0) body cs (set_sxLastJumpCode code st)) as D.
  assert (Hb' : (code =? 0) = true -> every p body = true).
  { intros H0. apply Z.eqb_eq in H0. auto. }
  specialize (D Hb' Hc).
  destruct (dispatch run (code =? 0) body cs (set_sxLastJumpCode code st)) as [st2| | | |];
    simpl in *; auto; try (eapply R_trans; eassumption).
  eapply carried_trans; [eapply R_trans; eassumption|].
  apply finally_endtry_carried. assumption.
Qed.

End Blocks.

Lemma exec_resume_carried n :
  (forall s st, every p s = true -> carried R st (exec n s st)) /\
  (forall buf body cs fin file line code st,
     (code = 0 -> every p body = true) ->
     forallb (fun cl => every p (snd cl)) cs = true ->
     match fin with Some fb => every p fb | None => true end = true ->
     nextContext st = buf + 1 ->
     carried R st (resume n buf body cs fin file line code st)).
Proof.
  induction n as [|n [IHe IHr]]; [split; intros; exact I|].
  split.
  - intros s st Hp.
    destruct s as [|s1 s2|e|o v|e|e|body clauses fin file line]; cbn [exec]; simpl in Hp.
    + apply R_refl.
    + apply andb_prop in Hp. destruct Hp as [H1 H2].
      pose proof (IHe s1 st H1) as S1.
      destruct (exec n s1 st) as [st1| | | |]; auto.
      eapply carried_trans; [exact S1|]. apply IHe. assumption.
    + simpl. apply R_emit. assumption.
    + simpl. apply R_store. assumption.
    + unfold sxThrow. eapply carried_trans; [apply (R_clear e); assumption|].
      apply throw_carried.
    + apply sxRethrow_carried.
    + apply andb_prop in Hp. destruct Hp as [Hp Hf].
      apply andb_prop in Hp. destruct Hp as [Hb Hc].
      pose proof (enterTry_carried st) as E.
      destruct (enterTry_spec st) as [[_ E1]|[_ E1]]; rewrite E1 in *; simpl in E;
        [|exact E].
      eapply carried_trans; [exact E|]. apply IHr; auto.
  - intros buf body cs fin file line code st Hb Hc Hf Hn. cbn [resume].
    pose proof (region_pass_carried (exec n) IHe body cs fin file line code st Hb Hc Hf) as HS.
    pose proof (region_pass_ok (exec n) (exec_frame n) buf body cs fin file line code st Hn)
      as P.
    destruct (region_pass (exec n) body cs fin file line code st) as [|t k st'| | |];
      simpl in *; auto.
    destruct P as (H1 & B & [[-> N]|(-> & H0 & N)]).
    + rewrite Z.eqb_refl. eapply carried_trans; [exact HS|].
      apply IHr; auto. intros ->. lia.
    + destruct (Z.eqb_spec (buf - 1) buf); [lia|]. simpl. assumption.
Qed.

End Preserved.

(** * The trace: bounds, and what rethrow and endtry keep of it *)

Lemma substring_length n : forall s, (String.length (substring 0 n s) <= n)%nat.
Proof.
  induction n as [|n IH]; intros s; destruct s as [|c s]; simpl; try lia.
  specialize (IH s). lia.
Qed.

Lemma substring_whole (s : string) : forall n,
  (String.length s <= n)%nat -> substring 0 n s = s.
Proof.
  induction s as [|c s IH]; intros [|n] H; simpl in *; try reflexivity; try lia.
  rewrite IH by lia. reflexivity.
Qed.

Lemma sxlcpy_fits s : Z.of_nat (String.length (sxlcpy s)) < SX_MAX_TRACE_STRING.
Proof.
  unfold sxlcpy. pose proof (substring_length (Z.to_nat (SX_MAX_TRACE_STRING - 1)) s) as H.
  unfold SX_MAX_TRACE_STRING in *. lia.
Qed.

Lemma trace_thrown e st :
  trace (thrown e st) =
  if nextTrace st <? MAX_TRACE then trace st ++ [clipped e] else trace st.
Proof.
  unfold thrown, sxAddTraceEntry. simpl.
  destruct (nextTrace st <? MAX_TRACE); reflexivity.
Qed.

Lemma hasUncatchable_thrown e st :
  hasUncatchable (thrown e st) = hasUncatchable st || uncatchable e.
Proof.
  unfold thrown. simpl.
  destruct (sxAddTraceEntry_fields e st) as (_ & _ & _ & U & _). rewrite U. reflexivity.
Qed.

Lemma trace_ok_thrown e st : trace_ok st -> trace_ok (thrown e st).
Proof.
  intros [L F]. unfold trace_ok, nextTrace in *. rewrite trace_thrown.
  unfold nextTrace. destruct (Z.ltb_spec (Z.of_nat (List.length (trace st))) MAX_TRACE).
  - rewrite List.length_app. simpl. split; [lia|].
    apply Forall_app. split; [assumption|]. constructor; [|constructor].
    split; simpl; apply sxlcpy_fits.
  - split; assumption.
Qed.

Lemma exec_trace_ok n s st :
  carried (fun st st' => trace_ok st -> trace_ok st') st (exec n s st).
Proof.
  apply (exec_resume_carried (fun st st' => trace_ok st -> trace_ok st') (fun _ => true)).
  - auto.
  - auto.
  - intros a b Ht Hh Ho He [L F]. unfold trace_ok, nextTrace in *. rewrite Ht. auto.
  - intros e a _ H. exact H.
  - intros e a. apply trace_ok_thrown.
  - intros e a _ H. exact H.
  - intros o v a _ H. exact H.
  - intros e a _ _. unfold trace_ok, clearTrace, nextTrace. simpl.
    split; [unfold MAX_TRACE; lia|constructor].
  - clear. revert s. fix IH 1. intros s.
    destruct s as [|s1 s2|e|o v|e|e|body clauses fin file line]; simpl; auto.
    + rewrite (IH s1), (IH s2). reflexivity.
    + rewrite (IH body). simpl.
      assert (Hc : forallb (fun cl => every (fun _ => true) (snd cl)) clauses = true).
      { induction clauses as [|[g b] cs IHcs]; simpl; auto.
        rewrite (IH b), IHcs. reflexivity. }
      rewrite Hc. simpl. destruct fin; auto.
Qed.

Lemma in_flight_refl st : in_flight st st.
Proof. split; [auto|]. exists []. rewrite app_nil_r. reflexivity. Qed.

Lemma in_flight_trans a b c : in_flight a b -> in_flight b c -> in_flight a c.
Proof.
  intros [U1 [l1 T1]] [U2 [l2 T2]]. split; [auto|].
  exists (l1 ++ l2). rewrite T2, T1, app_assoc. reflexivity.
Qed.

Lemma in_flight_control st st' :
  trace st' = trace st -> hasUncatchable st' = hasUncatchable st -> in_flight st st'.
Proof.
  intros T U. split; [congruence|]. exists []. rewrite app_nil_r. assumption.
Qed.

Lemma in_flight_thrown e st : in_flight st (thrown e st).
Proof.
  split.
  - rewrite hasUncatchable_thrown. intros ->. reflexivity.
  - rewrite trace_thrown. destruct (nextTrace st <? MAX_TRACE); eauto.
    exists []. rewrite app_nil_r. reflexivity.
Qed.

Lemma exec_resume_in_flight n :
  (forall s st, throw_free s = true -> carried in_flight st (exec n s st)) /\
  (forall buf body cs fin file line code st,
     (code = 0 -> throw_free body = true) ->
     forallb (fun cl => throw_free (snd cl)) cs = true ->
     match fin with Some fb => throw_free fb | None => true end = true ->
     nextContext st = buf + 1 ->
     carried in_flight st (resume n buf body cs fin file line code st)).
Proof.
  apply (exec_resume_carried in_flight (fun a => negb (is_throw a))).
  - apply in_flight_refl.
  - apply in_flight_trans.
  - intros a b Ht Hh _ _. apply in_flight_control; assumption.
  - intros e a _. apply in_flight_control; reflexivity.
  - apply in_flight_thrown.
  - intros e a _. apply in_flight_control; reflexivity.
  - intros o v a _. apply in_flight_control; reflexivity.
  - intros e a H. discriminate.
Qed.

(** * Pending exceptions and the sticky flag *)

Lemma leaveTry_normal file line st st' :
  _sxLeaveTry file line st = Normal st' -> settled st'.
Proof.
  intros H. pose proof (leaveTry_spec file line st) as L. rewrite H in L.
  destruct L as (-> & _ & U & C). split; assumption.
Qed.

Lemma finally_endtry_normal run fin file line st st' :
  finally_endtry run fin file line st = Normal st' -> settled st'.
Proof.
  unfold finally_endtry. destruct fin as [fb|]; [|apply leaveTry_normal].
  destruct (_sxSetCaught true st) as [[|] st1|]; try discriminate;
    [|apply leaveTry_normal].
  destruct (run fb st1); try discriminate. apply leaveTry_normal.
Qed.

Lemma region_pass_normal run body cs fin file line code st st' :
  region_pass run body cs fin file line code st = Normal st' -> settled st'.
Proof.
  unfold region_pass. destruct (_sxEnterTry2 code st) as [entering st1|]; [|discriminate].
  destruct (dispatch run entering body cs st1); try discriminate.
  apply finally_endtry_normal.
Qed.

Lemma resume_normal n : forall buf body cs fin file line code st st',
  resume n buf body cs fin file line code st = Normal st' -> settled st'.
Proof.
  induction n as [|n IH]; intros buf body cs fin file line code st st' H; [discriminate|].
  rewrite resume_S in H.
  destruct (region_pass (exec n) body cs fin file line code st) as [st1|t c st1| | |] eqn:P;
    try discriminate.
  - inversion H; subst. eapply region_pass_normal; eassumption.
  - destruct (t =? buf); [|discriminate]. eapply IH; eassumption.
Qed.

(** A statement that ends normally leaves the pending code and the sticky
    flag as they were, or settled. *)
Lemma exec_normal n : forall s st st',
  exec n s st = Normal st' ->
  (_sxLastJumpCode st' = _sxLastJumpCode st /\ hasUncatchable st' = hasUncatchable st) \/
  settled st'.
Proof.
  induction n as [|n IH]; intros s st st' H; [discriminate|].
  destruct s as [|s1 s2|e|o v|e|e|body clauses fin file line]; cbn [exec] in H.
  - inversion H; subst. left. auto.
  - destruct (exec n s1 st) as [st1| | | |] eqn:E1; try discriminate.
    apply IH in E1. apply IH in H.
    destruct H as [[H1 H2]|H]; [|right; assumption].
    destruct E1 as [[E1 E2]|[E1 E2]]; [left; split; congruence|].
    right. split; congruence.
  - inversion H; subst. left. auto.
  - inversion H; subst. left. auto.
  - exfalso. unfold sxThrow in H. pose proof (throw_frame e (clearTrace st)) as T.
    rewrite H in T. exact T.
  - exfalso. unfold sxRethrow in H. destruct (_ && _); [|discriminate].
    match type of H with _throw ?x st = _ => pose proof (throw_frame x st) as T end.
    rewrite H in T. exact T.
  - destruct (_sxEnterTry st); [|discriminate]. right. eapply resume_normal; eassumption.
Qed.

(** X1.  The trace never outgrows its array of MAX_TRACE entries, and the
    strings of its entries never outgrow their buffers: whatever a program
    does, each entry that is kept was cut to SX_MAX_TRACE_STRING - 1
    characters; on a full trace a throw leaves the trace as it is, the new
    entry is dropped. *)
Theorem trace_stays_bounded (s : stmt) (st : state) :
  trace_ok st ->
  match run s st with
  | OutOfFuel => False
  | Normal st' | Jump _ _ st' | Fatal _ st' | Uncaught _ st' => trace_ok st'
  end /\
  (nextTrace st = MAX_TRACE ->
   forall e, match _throw e st with
             | Jump _ _ st' | Uncaught _ st' => trace st' = trace st
             | _ => False
             end).
Proof.
  intros Hok. split.
  - pose proof (run_terminates s st) as Ht. pose proof (exec_trace_ok (cost s) s st) as H.
    unfold run in *. destruct (exec (cost s) s st); simpl in H; auto.
  - intros Hfull e. rewrite throw_unfold.
    assert (T : trace (thrown e st) = trace st).
    { rewrite trace_thrown. rewrite Hfull. reflexivity. }
    destruct (nextContext st <? 1); [|exact T].
    unfold sxPrintTrace.
    assert (W : forall l a, trace (sxWalkTrace sxPrintEntryToStdErr l a) = trace a).
    { induction l as [|x l IH]; intros a; simpl; [reflexivity|]. rewrite IH. reflexivity. }
    rewrite W. exact T.
Qed.

Lemma trace_stays_bounded_witness :
  trace_ok initial /\
  match run Tests.test_case111F initial with
  | OutOfFuel => False
  | Normal st' | Jump _ _ st' | Fatal _ st' | Uncaught _ st' => trace_ok st'
  end.
Proof.
  assert (H : trace_ok initial).
  { split; [unfold nextTrace, MAX_TRACE; simpl; lia|constructor]. }
  split; [exact H|]. apply (trace_stays_bounded Tests.test_case111F initial H).
Defined.

(** X2.  Without a new throw(...) the exception in flight is kept: rethrow
    and endtry only append to the trace, so its first entry, the one that
    curex() returns, stays the entry of the original throw; and the sticky
    flag of an uncatchable exception stays up. *)
Theorem rethrow_keeps_trace (s : stmt) (st : state) :
  throw_free s = true ->
  match run s st with
  | OutOfFuel => False
  | Normal st' | Jump _ _ st' | Fatal _ st' | Uncaught _ st' =>
      (exists l, trace st' = trace st ++ l) /\
      (hasUncatchable st = true -> hasUncatchable st' = true) /\
      (trace st <> [] -> sxCurrentException st' = sxCurrentException st)
  end.
Proof.
  intros Hs. pose proof (run_terminates s st) as Ht.
  destruct (exec_resume_in_flight (cost s)) as [He _]. specialize (He s st Hs).
  unfold run in *.
  assert (K : forall st', in_flight st st' ->
    (exists l, trace st' = trace st ++ l) /\
    (hasUncatchable st = true -> hasUncatchable st' = true) /\
    (trace st <> [] -> sxCurrentException st' = sxCurrentException st)).
  { intros st' [U [l T]]. split; [eauto|]. split; [assumption|].
    intros Hne. unfold sxCurrentException. rewrite T.
    destruct (trace st); [contradiction|reflexivity]. }
  destruct (exec (cost s) s st); simpl in He; auto.
Qed.

Lemma rethrow_keeps_trace_witness :
  throw_free Tests.rethrow_in_body_observed = true /\
  match run Tests.rethrow_in_body_observed initial with
  | OutOfFuel => False
  | Normal st' | Jump _ _ st' | Fatal _ st' | Uncaught _ st' =>
      exists l, trace st' = trace initial ++ l
  end.
Proof.
  split; [reflexivity|].
  pose proof (rethrow_keeps_trace Tests.rethrow_in_body_observed initial eq_refl) as H.
  destruct (run Tests.rethrow_in_body_observed initial); try exact H; apply H.
Defined.

(** X3.  While the sticky flag of an uncatchable exception is up, every
    endtry throws: a region entered then, whose code makes no new
    throw(...), never ends normally, whatever its body and clauses do, and
    the flag is still up when control leaves it. *)
Theorem sticky_flag_blocks_regions (body : stmt) (cs : list (option Z * stmt))
    (fin : option stmt) (file : string) (line : Z) (st : state) :
  hasUncatchable st = true ->
  throw_free (Try body cs fin file line) = true ->
  match run (Try body cs fin file line) st with
  | Normal _ | OutOfFuel => False
  | Jump _ _ st' | Fatal _ st' | Uncaught _ st' => hasUncatchable st' = true
  end.
Proof.
  intros Hu Hs. pose proof (run_terminates (Try body cs fin file line) st) as Ht.
  destruct (exec_resume_in_flight (cost (Try body cs fin file line))) as [He _].
  specialize (He _ st Hs). unfold run in *.
  destruct (exec (cost (Try body cs fin file line)) (Try body cs fin file line) st)
    as [st'| | | |] eqn:E; simpl in He; try (apply He; assumption); [|congruence].
  destruct He as [He _]. specialize (He Hu).
  destruct (cost (Try body cs fin file line)) as [|k]; [discriminate|].
  rewrite exec_Try in E. destruct (_sxEnterTry st); [|discriminate].
  apply resume_normal in E. destruct E as [_ E]. congruence.
Qed.

Lemma sticky_flag_blocks_regions_witness :
  match run (Try Skip [] None "main.c" 1)
            (set_hasUncatchable true (try_entered initial)) with
  | Normal _ | OutOfFuel => False
  | Jump _ _ st' | Fatal _ st' | Uncaught _ st' => hasUncatchable st' = true
  end.
Proof.
  apply (sticky_flag_blocks_regions Skip [] None "main.c" 1
           (set_hasUncatchable true (try_entered initial))); reflexivity.
Defined.

(** X4.  An exception thrown with uncatchable set is not stopped by a
    catch: when the body of a region leaves by a longjmp with the sticky
    flag up and neither the clauses nor finally make a new throw(...), the
    region is left by a longjmp to the enclosing frame or, without one, by
    the exit of an uncaught exception, never normally. *)
Theorem uncatchable_not_swallowed (body : stmt) (cs : list (option Z * stmt))
    (fin : option stmt) (file : string) (line : Z) (st : state) (t c : Z) (st2 : state) :
  0 <= nextContext st < MAX_TRY_CATCH ->
  run body (try_entered st) = Jump t c st2 ->
  hasUncatchable st2 = true ->
  forallb (fun cl => throw_free (snd cl)) cs = true ->
  match fin with Some fb => throw_free fb | None => true end = true ->
  match run (Try body cs fin file line) st with
  | Jump t' _ st' => t' = nextContext st - 1 /\ hasUncatchable st' = true
  | Uncaught _ st' => nextContext st = 0 /\ hasUncatchable st' = true
  | Fatal _ _ => True
  | Normal _ | OutOfFuel => False
  end.
Proof.
  intros [Hn0 Hn1] Hbody Hu Hc Hf.
  pose proof (run_terminates (Try body cs fin file line) st) as Ht.
  unfold run in Ht |- *. cbn [cost] in Ht |- *. fold (subcost body cs fin) in Ht |- *.
  set (m := subcost body cs fin) in *.
  change (5 + m)%nat with (S (S (S (S (S m))))) in Ht |- *.
  rewrite exec_Try in Ht |- *.
  destruct (enterTry_spec st) as [[_ E]|[Hge _]]; [|lia]. rewrite E in Ht |- *.
  set (buf := nextContext st) in *.
  rewrite resume_S in Ht |- *. unfold region_pass at 1 in Ht. unfold region_pass at 1.
  assert (E2 : _sxEnterTry2 0 (set_nextContext (buf + 1) (set_caught buf 0 st))
               = Ok true (try_entered st)).
  { unfold _sxEnterTry2. simpl. replace (buf + 1 - 1) with buf by lia.
    change (caught_at buf (set_nextContext (buf + 1) (set_caught buf 0 st)))
      with (caught_at buf (set_caught buf 0 st)).
    rewrite caught_at_set_caught_eq. reflexivity. }
  rewrite E2 in Ht |- *. unfold dispatch at 1 in Ht. unfold dispatch at 1.
  assert (Eb : exec (S (S (S m))) body (try_entered st) = Jump t c st2).
  { rewrite exec_run; [exact Hbody|]. subst m. unfold subcost. lia. }
  rewrite Eb in Ht |- *.
  pose proof (exec_frame (S (S (S m))) body (try_entered st)) as Fr.
  rewrite Eb in Fr. simpl in Fr. destruct Fr as ([N2 _] & Ht' & _ & H1).
  change (nextContext (try_entered st)) with (buf + 1) in *.
  assert (Hb : t = buf) by lia. clear Ht'. subst t. rewrite Z.eqb_refl in Ht |- *.
  destruct (exec_resume_in_flight (S (S (S m)))) as [_ Hr].
  specialize (Hr buf body cs fin file line c st2 ltac:(lia) Hc Hf N2).
  pose proof (resume_frame (S (S (S m))) buf body cs fin file line c st2 N2) as Rf.
  destruct (resume (S (S (S m))) buf body cs fin file line c st2) as [st'|t' c' st'| | |] eqn:R;
    simpl in Hr, Rf; auto.
  - apply resume_normal in R. destruct R as [_ R]. destruct Hr as [Hr _].
    rewrite Hr in R by assumption. discriminate.
  - destruct Rf as (_ & _ & -> & _). split; [reflexivity|]. apply Hr. assumption.
  - split; [lia|]. apply Hr. assumption.
Qed.

Lemma uncatchable_not_swallowed_witness :
  match run (Try (Throw (mkEntry 7 true "main.c" 3 "stop" 0)) [(None, Pass "c")]
                 (Some (Pass "f")) "main.c" 9) initial with
  | Uncaught _ st' => nextContext initial = 0 /\ hasUncatchable st' = true
  | _ => False
  end.
Proof.
  pose proof (uncatchable_not_swallowed (Throw (mkEntry 7 true "main.c" 3 "stop" 0))
                [(None, Pass "c")] (Some (Pass "f")) "main.c" 9 initial 0 7
                (thrown (mkEntry 7 true "main.c" 3 "stop" 0)
                        (clearTrace (try_entered initial)))) as H.
  assert (H0 : 0 <= nextContext initial < MAX_TRY_CATCH)
    by (split; [reflexivity|reflexivity]).
  specialize (H H0 eq_refl eq_refl eq_refl eq_refl).
  remember (run (Try (Throw (mkEntry 7 true "main.c" 3 "stop" 0)) [(None, Pass "c")]
                     (Some (Pass "f")) "main.c" 9) initial) as r eqn:Er.
  vm_compute in Er. subst r. exact H.
Defined.

(** * The consistency checks of the engine *)

Lemma checks_ok_weaken d rf d' rf' o :
  checks_ok d rf o -> d <= d' -> (rf' = true -> rf = true) -> checks_ok d' rf' o.
Proof.
  destruct o; simpl; auto. intros [[-> H]|[-> H]] Hd Hr; [left; split; [reflexivity|lia]|].
  right. split; [reflexivity|]. destruct rf'; [|reflexivity]. rewrite Hr in H; auto.
Qed.

Lemma depth_clause (g : option Z) (b : stmt) (cs : list (option Z * stmt)) :
  In (g, b) cs -> (depth b <= fold_right (fun cl m => Nat.max (depth (snd cl)) m) O cs)%nat.
Proof.
  induction cs as [|[g' b'] cs IH]; simpl; [tauto|].
  intros [E|I]; [inversion E; subst; lia|]. specialize (IH I). lia.
Qed.

Section Checks.

Variable run : stmt -> state -> outcome.
Hypothesis run_frame : forall s st, frame_ok st (run s st).
Hypothesis run_checks : forall s st,
  0 <= nextContext st ->
  checks_ok (nextContext st + Z.of_nat (depth s)) (rethrow_free s) (run s st).

Lemma finally_endtry_checks buf fin file line st :
  nextContext st = buf + 1 -> 0 <= buf ->
  checks_ok (buf + 1 + Z.of_nat (match fin with Some fb => depth fb | None => O end))
            (match fin with Some fb => rethrow_free fb | None => true end)
            (finally_endtry run fin file line st).
Proof.
  intros Hn Hb. unfold finally_endtry.
  assert (Hleave : forall d rf s, nextContext s = buf + 1 ->
                                  checks_ok d rf (_sxLeaveTry file line s)).
  { intros d rf s N. pose proof (leaveTry_spec file line s) as L.
    destruct (_sxLeaveTry file line s); simpl; auto. lia. }
  destruct fin as [fb|]; [|apply Hleave; assumption].
  pose proof (setCaught_touch true st) as T.
  destruct (_sxSetCaught true st) as [b st1|]; [|simpl; lia].
  destruct T as [_ T].
  assert (N1 : nextContext st1 = buf + 1) by (destruct T as (N & _); lia).
  destruct b; [|apply Hleave; assumption].
  pose proof (run_checks fb st1 ltac:(lia)) as C. rewrite N1 in C.
  pose proof (run_pass_ok run run_frame buf st1 fb st1 N1 (below_refl _ _)) as R.
  destruct (run fb st1); simpl in *; auto.
  apply Hleave. tauto.
Qed.

Lemma dispatch_checks buf entering body cs st :
  nextContext st = buf + 1 -> 0 <= buf ->
  checks_ok (buf + 1 + Z.of_nat (Nat.max (depth body)
               (fold_right (fun cl m => Nat.max (depth (snd cl)) m) O cs)))
            (rethrow_free body && forallb (fun cl => rethrow_free (snd cl)) cs)
            (dispatch run entering body cs st).
Proof.
  intros Hn Hb. unfold dispatch. destruct entering.
  - pose proof (run_checks body st ltac:(lia)) as C. rewrite Hn in C.
    eapply checks_ok_weaken; [exact C|lia|].
    intros H. apply andb_prop in H. tauto.
  - pose proof (arbitrate_touch cs 0 st) as T.
    destruct (arbitrate cs 0 st) as [[[j block]|] st1|] eqn:A; simpl; auto; [|lia].
    assert (N1 : nextContext st1 = buf + 1) by (destruct T as (N & _); lia).
    apply arbitrate_selected in A. destruct A as (g & I & _).
    pose proof (run_checks block st1 ltac:(lia)) as C. rewrite N1 in C.
    pose proof (depth_clause _ _ _ I) as D.
    eapply checks_ok_weaken; [exact C|lia|].
    intros H. apply andb_prop in H. destruct H as [_ H].
    rewrite forallb_forall in H. apply (H _ I).
Qed.

Lemma region_pass_checks buf body cs fin file line code st :
  nextContext st = buf + 1 -> 0 <= buf -> caught_at buf st < 1000 ->
  checks_ok (buf + 1 + Z.of_nat (subdepth body cs fin))
            (rethrow_free (Try body cs fin file line))
            (region_pass run body cs fin file line code st).
Proof.
  intros Hn Hb Hc. unfold region_pass.
  destruct (enterTry2_spec code st) as [[_ E]|[Hge _]];
    [|replace (nextContext st - 1) with buf in Hge by lia; lia].
  rewrite E.
  pose proof (dispatch_checks buf (code =? 0) body cs (set_sxLastJumpCode code st) Hn Hb) as D.
  pose proof (dispatch_pass_ok run run_frame buf (code =? 0) body cs st
                (set_sxLastJumpCode code st) Hn (below_refl _ _)) as P.
  assert (W : forall o,
    checks_ok (buf + 1 + Z.of_nat (Nat.max (depth body)
                 (fold_right (fun cl m => Nat.max (depth (snd cl)) m) O cs)))
              (rethrow_free body && forallb (fun cl => rethrow_free (snd cl)) cs) o ->
    checks_ok (buf + 1 + Z.of_nat (subdepth body cs fin))
              (rethrow_free (Try body cs fin file line)) o).
  { intros o H. eapply checks_ok_weaken; [exact H|unfold subdepth; lia|].
    unfold rethrow_free. simpl. intros H'. apply andb_prop in H'. tauto. }
  destruct (dispatch run (code =? 0) body cs (set_sxLastJumpCode code st)) as [st2| | | |];
    try (apply W; exact D); try exact I.
  destruct P as [N2 _].
  eapply checks_ok_weaken; [apply finally_endtry_checks; eassumption|unfold subdepth; lia|].
  unfold rethrow_free. simpl. intros H'. apply andb_prop in H'. tauto.
Qed.

(** A longjmp back into the frame finds its counter at 0, 1 or the
    threshold. *)
Lemma region_pass_counter buf body cs fin file line code st c st' :
  nextContext st = buf + 1 ->
  region_pass run body cs fin file line code st = Jump buf c st' ->
  caught_at buf st' = caught_at buf st \/ caught_at buf st' = 1 \/
  caught_at buf st' = FINALLY_THRESHOLD.
Proof.
  intros Hn H. unfold region_pass in H.
  destruct (enterTry2_spec code st) as [[_ E]|[_ E]]; rewrite E in H; [|discriminate].
  set (st1 := set_sxLastJumpCode code st) in H.
  assert (N1 : nextContext st1 = buf + 1) by assumption.
  destruct (dispatch run (code =? 0) body cs st1) as [st2| | | |] eqn:D; try discriminate.
  - apply dispatch_counter with (buf := buf) in D; [|assumption|assumption].
    destruct D as [_ N2].
    apply finally_endtry_jump with (buf := buf) in H; [|assumption|assumption]. tauto.
  - inversion H; subst. destruct (code =? 0).
    + unfold dispatch in D.
      pose proof (run_pass_ok run run_frame buf st1 body st1 N1 (below_refl _ _)) as R.
      rewrite D in R. left. apply R.
    + apply dispatch_claimed_jump with (buf := buf) in D; [|assumption|assumption]. tauto.
Qed.

End Checks.

Lemma exec_resume_checks n :
  (forall s st, 0 <= nextContext st ->
     checks_ok (nextContext st + Z.of_nat (depth s)) (rethrow_free s) (exec n s st)) /\
  (forall buf body cs fin file line code st,
     nextContext st = buf + 1 -> 0 <= buf -> caught_at buf st <= FINALLY_THRESHOLD ->
     checks_ok (buf + 1 + Z.of_nat (subdepth body cs fin))
               (rethrow_free (Try body cs fin file line))
               (resume n buf body cs fin file line code st)).
Proof.
  induction n as [|n [IHe IHr]]; [split; intros; exact I|].
  split.
  - intros s st Hn.
    destruct s as [|s1 s2|e|o v|e|e|body clauses fin file line]; cbn [exec]; try exact I.
    + pose proof (IHe s1 st Hn) as C1. pose proof (exec_frame n s1 st) as F1.
      destruct (exec n s1 st) as [st1| | | |]; try exact I.
      * destruct F1 as [N1 _]. pose proof (IHe s2 st1 ltac:(lia)) as C2. rewrite N1 in C2.
        eapply checks_ok_weaken; [exact C2|simpl; lia|].
        unfold rethrow_free. simpl. intros H. apply andb_prop in H. tauto.
      * eapply checks_ok_weaken; [exact C1|simpl; lia|].
        unfold rethrow_free. simpl. intros H. apply andb_prop in H. tauto.
    + unfold sxThrow. pose proof (throw_frame e (clearTrace st)) as T.
      destruct (_throw e (clearTrace st)); try exact I. contradiction.
    + unfold sxRethrow. destruct (_ && _).
      * match goal with |- context [_throw ?x st] => pose proof (throw_frame x st) as T;
          destruct (_throw x st) end; try exact I. contradiction.
      * simpl. right. split; reflexivity.
    + destruct (enterTry_spec st) as [[Hlt E]|[Hge E]]; rewrite E.
      * eapply checks_ok_weaken.
        -- apply IHr; [reflexivity|assumption|].
           change (caught_at (nextContext st) (set_nextContext (nextContext st + 1)
                     (set_caught (nextContext st) 0 st)))
             with (caught_at (nextContext st) (set_caught (nextContext st) 0 st)).
           rewrite caught_at_set_caught_eq. unfold FINALLY_THRESHOLD. lia.
        -- cbn [depth]. fold (subdepth body clauses fin). lia.
        -- auto.
      * simpl. left. split; [reflexivity|]. cbn [depth]. lia.
  - intros buf body cs fin file line code st Hn Hb Hc. rewrite resume_S.
    pose proof (region_pass_checks (exec n) (exec_frame n) IHe buf body cs fin file line
                  code st Hn Hb ltac:(unfold FINALLY_THRESHOLD in Hc; lia)) as C.
    pose proof (region_pass_ok (exec n) (exec_frame n) buf body cs fin file line code st Hn)
      as P.
    destruct (region_pass (exec n) body cs fin file line code st) as [|t c st'| | |] eqn:R;
      try exact I; try exact C.
    destruct P as (H1 & _ & [[-> N]|(-> & _ & N)]).
    + rewrite Z.eqb_refl. apply IHr; [assumption|assumption|].
      apply region_pass_counter with (buf := buf) in R; [|apply exec_frame|assumption].
      unfold FINALLY_THRESHOLD in *. lia.
    + destruct (Z.eqb_spec (buf - 1) buf); [lia|exact I].
Qed.

(** X5.  A program written with the macros cannot trip the consistency
    checks on the frame stack: in a state with a sound stack it never ends
    with EXIT_NO_TRY_ON_LEAVE, EXIT_OUTSIDE_CAUGHT or EXIT_TOO_NESTED.  The
    process is ended by a check only when the regions nest deeper than
    MAX_TRY_CATCH frames allow (EXIT_MAX_TRIES), or by a rethrow out of
    place (EXIT_OUTSIDE_RETHROW) in a program that has a rethrow. *)
Theorem engine_checks_unreachable (s : stmt) (st : state) :
  0 <= nextContext st ->
  match run s st with
  | Fatal c _ =>
      (c = EXIT_MAX_TRIES /\ MAX_TRY_CATCH < nextContext st + Z.of_nat (depth s)) \/
      (c = EXIT_OUTSIDE_RETHROW /\ rethrow_free s = false)
  | OutOfFuel => False
  | _ => True
  end.
Proof.
  intros Hn. pose proof (run_terminates s st) as Ht.
  destruct (exec_resume_checks (cost s)) as [He _]. specialize (He s st Hn).
  unfold run in *. destruct (exec (cost s) s st); simpl in He; auto.
Qed.

Lemma engine_checks_unreachable_witness :
  0 <= nextContext initial /\
  match run (Tests.crowded 48) initial with
  | Fatal _ _ | OutOfFuel => False
  | _ => True
  end.
Proof.
  split; [reflexivity|].
  pose proof (engine_checks_unreachable (Tests.crowded 48) initial) as H.
  assert (H0 : 0 <= nextContext initial) by reflexivity. specialize (H H0).
  destruct (run (Tests.crowded 48) initial) as [| |c st'| |]; try exact I; try exact H.
  destruct H as [[_ H]|[_ H]]; [vm_compute in H|]; discriminate.
Defined.

(** * The frame stack, termination and the report of an uncaught exception *)

Lemma walk_trace_kept l : forall st,
  trace (sxWalkTrace sxPrintEntryToStdErr l st) = trace st.
Proof. induction l as [|e l IH]; intros st; simpl; [reflexivity|]. rewrite IH. reflexivity. Qed.

Lemma throw_reported e st : reported (_throw e st).
Proof.
  rewrite throw_unfold. destruct (nextContext st <? 1); [|exact I].
  simpl. exists (code e), (events st). split; [reflexivity|].
  unfold sxPrintTrace. rewrite walk_events, walk_trace_kept. cbn [emit events trace].
  destruct (thrown_fields e st) as (_ & _ & _ & _ & E). rewrite E.
  rewrite <- app_assoc. reflexivity.
Qed.

Lemma leaveTry_reported file line st : reported (_sxLeaveTry file line st).
Proof.
  rewrite leaveTry_unfold. cbv zeta. destruct (0 <=? nextContext st - 1); [|exact I].
  destruct (_ || _); [apply throw_reported|exact I].
Qed.

Section Report.

Variable run : stmt -> state -> outcome.
Hypothesis run_reported : forall s st, reported (run s st).

Lemma finally_endtry_reported fin file line st :
  reported (finally_endtry run fin file line st).
Proof.
  unfold finally_endtry. destruct fin as [fb|]; [|apply leaveTry_reported].
  destruct (_sxSetCaught true st) as [[|] st1|]; try exact I; [|apply leaveTry_reported].
  pose proof (run_reported fb st1) as H.
  destruct (run fb st1); try exact I; [apply leaveTry_reported|exact H].
Qed.

Lemma region_pass_reported body cs fin file line code st :
  reported (region_pass run body cs fin file line code st).
Proof.
  unfold region_pass. destruct (_sxEnterTry2 code st) as [entering st1|]; [|exact I].
  assert (D : reported (dispatch run entering body cs st1)).
  { unfold dispatch. destruct entering; [apply run_reported|].
    destruct (arbitrate cs 0 st1) as [[[j block]|] st2|]; try exact I. apply run_reported. }
  destruct (dispatch run entering body cs st1); try exact I;
    [apply finally_endtry_reported|exact D].
Qed.

End Report.

Lemma exec_resume_reported n :
  (forall s st, reported (exec n s st)) /\
  (forall buf body cs fin file line code st,
     reported (resume n buf body cs fin file line code st)).
Proof.
  induction n as [|n [IHe IHr]]; [split; intros; exact I|].
  split.
  - intros s st.
    destruct s as [|s1 s2|e|o v|e|e|body clauses fin file line]; cbn [exec]; try exact I.
    + pose proof (IHe s1 st) as H1.
      destruct (exec n s1 st); try exact I; [apply IHe|exact H1].
    + apply throw_reported.
    + unfold sxRethrow. destruct (_ && _); [apply throw_reported|exact I].
    + destruct (_sxEnterTry st); [apply IHr|exact I].
  - intros buf body cs fin file line code st. rewrite resume_S.
    pose proof (region_pass_reported (exec n) IHe body cs fin file line code st) as H.
    destruct (region_pass (exec n) body cs fin file line code st); try exact I;
      [|exact H].
    destruct (_ =? _); [apply IHr|exact I].
Qed.

(** X6.  The frame stack is balanced.  A statement that ends normally
    leaves the stack at the height it found, with the frames below
    untouched, and the pending code and sticky flag either as they were or
    both cleared (the latter whenever the statement is a region).  A
    longjmp that leaves the statement goes to the frame just below, with a
    code of at least 1 and the stack at the height of the start.  The exit
    of an uncaught exception happens only with no frame left. *)
Theorem frames_balanced (s : stmt) (st : state) :
  0 <= nextContext st ->
  match run s st with
  | Normal st' =>
      nextContext st' = nextContext st /\
      (forall i, i < nextContext st -> caught_at i st' = caught_at i st) /\
      ((_sxLastJumpCode st' = _sxLastJumpCode st /\
        hasUncatchable st' = hasUncatchable st) \/ settled st') /\
      (forall body cs fin file line, s = Try body cs fin file line -> settled st')
  | Jump t c st' =>
      t = nextContext st - 1 /\ 1 <= nextContext st /\ 1 <= c /\
      nextContext st' = nextContext st /\
      (forall i, i < nextContext st -> caught_at i st' = caught_at i st)
  | Uncaught _ _ => nextContext st = 0
  | Fatal _ _ => True
  | OutOfFuel => False
  end.
Proof.
  intros Hn. pose proof (run_terminates s st) as Ht.
  pose proof (exec_frame (cost s) s st) as F. unfold run in *.
  destruct (exec (cost s) s st) as [st'|t c st'| | |] eqn:E; simpl in F; auto.
  - destruct F as [N C]. split; [assumption|]. split; [assumption|].
    split; [eapply exec_normal; eassumption|].
    intros body cs fin file line ->. destruct (cost _) as [|k]; [discriminate|].
    rewrite exec_Try in E. destruct (_sxEnterTry st); [|discriminate].
    eapply resume_normal; eassumption.
  - destruct F as ([N C] & -> & H0 & H1). repeat split; auto; lia.
  - lia.
Qed.

Lemma frames_balanced_witness :
  0 <= nextContext initial /\
  match run Tests.test_case111F initial with
  | Normal st' => nextContext st' = nextContext initial /\ settled st'
  | _ => False
  end.
Proof.
  split; [reflexivity|].
  pose proof (frames_balanced Tests.test_case111F initial) as H.
  assert (H0 : 0 <= nextContext initial) by reflexivity. specialize (H H0).
  remember (run Tests.test_case111F initial) as r eqn:Er. vm_compute in Er. subst r.
  destruct H as (H1 & _ & _ & H2). split; [exact H1|].
  eapply H2. reflexivity.
Defined.

(** X7.  No statement keeps jumping for ever: run with the fuel [cost s]
    it ends as something other than the end of the fuel, and with any
    larger fuel the outcome is the same.  So no sequence of throws makes a
    region go back to its setjmp without end. *)
Theorem fuel_suffices (n : nat) (s : stmt) (st : state) :
  (cost s <= n)%nat ->
  exec n s st = run s st /\ run s st <> OutOfFuel.
Proof.
  intros H. split; [apply exec_run; assumption|apply run_terminates].
Qed.

Lemma fuel_suffices_witness :
  exec 40 Tests.test_case111F initial = run Tests.test_case111F initial /\
  run Tests.test_case111F initial <> OutOfFuel.
Proof.
  apply (fuel_suffices 40 Tests.test_case111F initial). vm_compute. lia.
Defined.

(** X8.  When a program ends by the exit of an uncaught exception, the
    last thing on stderr is the line with the code followed by the whole
    trace, oldest entry first.  For a code up to INT_MAX - EXIT_UNCAUGHT,
    where the sum does not overflow, exit() is called with EXIT_UNCAUGHT
    plus that code, cut at 254; for a code from - EXIT_UNCAUGHT up that
    number is between 0 and 254, so it is the exit status itself. *)
Theorem uncaught_report (s : stmt) (st : state) :
  match run s st with
  | Uncaught status st' =>
      exists code l,
        events st' = l ++ EvUncaught code :: map EvEntry (trace st') /\
        (code <= INT_MAX - EXIT_UNCAUGHT -> status = Z.min 254 (EXIT_UNCAUGHT + code)) /\
        (- EXIT_UNCAUGHT <= code <= INT_MAX - EXIT_UNCAUGHT -> 0 <= status <= 254)
  | OutOfFuel => False
  | _ => True
  end.
Proof.
  pose proof (run_terminates s st) as Ht.
  destruct (exec_resume_reported (cost s)) as [He _]. specialize (He s st).
  unfold run in *. destruct (exec (cost s) s st); simpl in He; auto.
  destruct He as (code & l & -> & E). exists code, l. split; [exact E|].
  unfold EXIT_UNCAUGHT.
  destruct (Z.ltb_spec 254 (200 + code)); split; intros; lia.
Qed.

(** * The first pass over a region, and how endtry leaves it *)

(** The first pass over a region: the body runs on the frame just
    entered. *)
Lemma exec_Try_first n body cs fin file line st :
  0 <= nextContext st < MAX_TRY_CATCH ->
  exec (S (S n)) (Try body cs fin file line) st =
  match exec n body (try_entered st) with
  | Normal st2 =>
      match finally_endtry (exec n) fin file line st2 with
      | Jump t c st' =>
          if t =? nextContext st then resume n (nextContext st) body cs fin file line c st'
          else Jump t c st'
      | o => o
      end
  | Jump t c st2 =>
      if t =? nextContext st then resume n (nextContext st) body cs fin file line c st2
      else Jump t c st2
  | o => o
  end.
Proof.
  intros [H0 H1]. rewrite exec_Try.
  destruct (enterTry_spec st) as [[_ E]|[Hge _]]; [|lia]. rewrite E.
  rewrite resume_S. unfold region_pass.
  assert (E2 : _sxEnterTry2 0 (set_nextContext (nextContext st + 1)
                                 (set_caught (nextContext st) 0 st))
               = Ok true (try_entered st)).
  { unfold _sxEnterTry2. simpl. replace (nextContext st + 1 - 1) with (nextContext st) by lia.
    change (caught_at (nextContext st) (set_nextContext (nextContext st + 1)
              (set_caught (nextContext st) 0 st)))
      with (caught_at (nextContext st) (set_caught (nextContext st) 0 st)).
    rewrite caught_at_set_caught_eq. reflexivity. }
  rewrite E2. unfold dispatch.
  destruct (exec n body (try_entered st)); reflexivity.
Qed.

(** What the body leaves of the frame it ran on. *)
Lemma body_frame n body st :
  0 <= nextContext st ->
  match exec n body (try_entered st) with
  | Normal st2 =>
      nextContext st2 = nextContext st + 1 /\ caught_at (nextContext st) st2 = 0 /\
      _sxLastJumpCode st2 = 0 /\
      (hasUncatchable st = false -> hasUncatchable st2 = false)
  | Jump t c st2 =>
      t = nextContext st /\ 1 <= c /\ nextContext st2 = nextContext st + 1 /\
      caught_at (nextContext st) st2 = 0
  | Uncaught _ _ => False
  | _ => True
  end.
Proof.
  intros H0. pose proof (exec_frame n body (try_entered st)) as F.
  assert (C0 : caught_at (nextContext st) (try_entered st) = 0).
  { unfold try_entered.
    change (caught_at (nextContext st) (set_caught (nextContext st) 0 st) = 0).
    apply caught_at_set_caught_eq. }
  destruct (exec n body (try_entered st)) as [st2|t c st2| | |] eqn:E; simpl in F; auto.
  - destruct F as [N C]. change (nextContext (try_entered st)) with (nextContext st + 1) in *.
    split; [assumption|]. split; [rewrite C by lia; exact C0|].
    apply exec_normal in E. destruct E as [[E1 E2]|[E1 E2]].
    + split; [rewrite E1; reflexivity|]. intros Hu. rewrite E2. exact Hu.
    + split; [exact E1|]. intros _. exact E2.
  - destruct F as ([N C] & -> & _ & H1).
    change (nextContext (try_entered st)) with (nextContext st + 1) in *.
    split; [lia|]. split; [assumption|]. split; [assumption|].
    rewrite C by lia. exact C0.
  - change (nextContext (try_entered st)) with (nextContext st + 1) in F. lia.
Qed.

(** finally { free(p); } endtry on a frame whose counter is below the
    threshold: the block is freed, then endtry decides. *)
Lemma finally_free_endtry n p file line st :
  0 < nextContext st -> caught_at (nextContext st - 1) st + 1 < FINALLY_THRESHOLD ->
  exists st', finally_endtry (exec (S n)) (Some (Free p)) file line st
              = _sxLeaveTry file line st' /\
    events st' = events st ++ [EvFree p] /\ nextContext st' = nextContext st /\
    _sxLastJumpCode st' = _sxLastJumpCode st /\ hasUncatchable st' = hasUncatchable st /\
    trace st' = trace st /\ objects st' = objects st.
Proof.
  intros Hn Hc. unfold finally_endtry. rewrite setCaught_finally by assumption.
  destruct (Z.ltb_spec (caught_at (nextContext st - 1) st + 1) FINALLY_THRESHOLD); [|lia].
  unfold Free. rewrite exec_Emit. eexists. split; [reflexivity|]. simpl. auto 10.
Qed.

Lemma leaveTry_settled file line st :
  settled st -> 1 <= nextContext st ->
  _sxLeaveTry file line st = Normal (set_nextContext (nextContext st - 1) st).
Proof.
  intros [L U] Hn. rewrite leaveTry_unfold. cbv zeta.
  destruct (Z.leb_spec 0 (nextContext st - 1)); [|lia].
  rewrite U, L. reflexivity.
Qed.

(** endtry on a frame: silent when nothing is pending, else a throw to the
    frame below or the exit of an uncaught exception. *)
Lemma leaveTry_out file line st :
  1 <= nextContext st ->
  match _sxLeaveTry file line st with
  | Normal st' => settled st /\ st' = set_nextContext (nextContext st - 1) st
  | Jump t c st' =>
      ~ settled st /\ t = nextContext st - 2 /\ 0 <= t /\ 1 <= c /\ events st' = events st
  | Uncaught _ st' =>
      ~ settled st /\ nextContext st = 1 /\
      exists l, events st' = events st ++ l /\ forallb is_stderr l = true
  | _ => False
  end.
Proof.
  intros Hn. pose proof (leaveTry_spec file line st) as S.
  assert (Hns : hasUncatchable st || negb (_sxLastJumpCode st =? 0) = true -> ~ settled st).
  { intros H [L U]. rewrite L, U in H. discriminate. }
  rewrite leaveTry_unfold in *. cbv zeta in *.
  destruct (Z.leb_spec 0 (nextContext st - 1)); [|lia].
  destruct (hasUncatchable st || negb (_sxLastJumpCode st =? 0)) eqn:P.
  - pose proof (throw_events (endtry_entry file line st)
                  (set_nextContext (nextContext st - 1) st)) as T.
    destruct (_throw _ _); try contradiction.
    + destruct S as (-> & S0 & S1 & _). auto 10.
    + auto.
  - apply orb_false_iff in P. destruct P as [U L]. apply negb_false_iff in L.
    apply Z.eqb_eq in L. split; [split; assumption|reflexivity].
Qed.

(** * sxlcpyn *)

Lemma sxlcpyn_loop_copy n : forall (bpre window bpost spre text rest : list ascii),
  Forall (fun ch => ch <> zero) text ->
  List.length window = Nat.min (S (List.length text)) n ->
  ((List.length text < n)%nat -> List.hd_error rest = Some zero) ->
  sxlcpyn_loop n (bpre ++ window ++ bpost) (List.length bpre)
               (spre ++ text ++ rest) (List.length spre)
  = Some (bpre ++ take n (text ++ [zero]) ++ bpost,
          (List.length bpre + Nat.min (S (List.length text)) n)%nat).
Proof.
  induction n as [|n IH]; intros bpre window bpost spre text rest Hnz Hw Hrest.
  - simpl. rewrite Nat.min_0_r in *. destruct window; [|discriminate].
    rewrite Nat.add_0_r. reflexivity.
  - destruct window as [|w window]; [simpl in Hw; lia|].
    cbn [sxlcpyn_loop]. destruct text as [|c text].
    + (* the NUL of src is next *)
      specialize (Hrest ltac:(simpl; lia)). destruct rest as [|r rest]; [discriminate|].
      simpl in Hrest. inversion Hrest; subst r.
      rewrite app_nil_l. rewrite list_lookup_middle by reflexivity.
      rewrite length_app. cbn [List.length app].
      destruct (Nat.ltb_spec (List.length bpre)
                  (List.length bpre + S (List.length (window ++ bpost)))); [|lia].
      cbn [Ascii.eqb zero Bool.eqb]. simpl in Hw.
      assert (window = []) by (destruct window; [reflexivity|simpl in Hw; lia]). subst window.
      rewrite insert_app_r_alt by lia. rewrite Nat.sub_diag. simpl.
      rewrite take_nil. simpl. f_equal. f_equal. lia.
    + inversion Hnz as [|? ? Hc Hnz']; subst.
      cbn [app]. rewrite list_lookup_middle by reflexivity.
      rewrite length_app. cbn [List.length].
      destruct (Nat.ltb_spec (List.length bpre)
                  (List.length bpre + S (List.length (window ++ bpost)))); [|lia].
      destruct (Ascii.eqb_spec c zero) as [E|_]; [contradiction|].
      rewrite insert_app_r_alt by lia. rewrite Nat.sub_diag. cbn [insert list_insert].
      replace (bpre ++ c :: window ++ bpost) with ((bpre ++ [c]) ++ window ++ bpost)
        by (rewrite <- app_assoc; reflexivity).
      replace (spre ++ c :: text ++ rest) with ((spre ++ [c]) ++ text ++ rest)
        by (rewrite <- app_assoc; reflexivity).
      replace (S (List.length bpre)) with (List.length (bpre ++ [c]))
        by (rewrite length_app; simpl; lia).
      replace (S (List.length spre)) with (List.length (spre ++ [c]))
        by (rewrite length_app; simpl; lia).
      rewrite IH; [|assumption|cbn [List.length] in Hw; lia|intros; apply Hrest; cbn [List.length]; lia].
      rewrite <- app_assoc. cbn [app take List.length]. f_equal. f_equal.
      rewrite length_app. cbn [List.length]. lia.
Qed.

Lemma substring_take (l : list ascii) : forall m,
  substring 0 m (string_of_list_ascii l) = string_of_list_ascii (take m l).
Proof.
  induction l as [|c l IH]; intros m; destruct m as [|m]; simpl; try reflexivity.
  rewrite IH. reflexivity.
Qed.

Lemma take_snoc_any (text : list ascii) (N : nat) :
  (1 <= N)%nat ->
  exists x, take N (text ++ [zero]) = take (N - 1) text ++ [x].
Proof.
  intros HN. destruct (Nat.lt_ge_cases (List.length text) N) as [Hlt|Hge].
  - exists zero. rewrite take_ge by (rewrite length_app; simpl; lia).
    rewrite take_ge by lia. reflexivity.
  - rewrite take_app_le by lia.
    destruct (lookup_lt_is_Some_2 text (N - 1)) as [x Hx]; [lia|].
    exists x. replace N with (S (N - 1)) at 1 by lia.
    apply take_S_r. assumption.
Qed.

(** X9.  sxlcpyn copies at most n - 1 characters and always ends the copy
    with a NUL: after the call dest holds the first min(strlen(src), n - 1)
    characters of src and a NUL, whatever src has beyond; the bytes of the
    destination after the NUL are not touched (there is no padding), the
    pointer returned is that of the NUL, and with n <= 0 nothing is written
    and dest is returned.  With n = SX_MAX_TRACE_STRING the text left in
    dest is [sxlcpy] of the text of src. *)
Theorem sxlcpyn_copies (bpre window bpost spre text rest : list ascii) (n : Z) :
  Forall (fun ch => ch <> zero) text ->
  List.length window = S (Nat.min (List.length text) (Z.to_nat n - 1)) ->
  ((List.length text < Z.to_nat n)%nat -> List.hd_error rest = Some zero) ->
  0 < n ->
  sxlcpyn (bpre ++ window ++ bpost) (List.length bpre)
          (spre ++ text ++ rest) (List.length spre) n
  = Some (bpre ++ take (Z.to_nat n - 1) text ++ zero :: bpost,
          (List.length bpre + Nat.min (List.length text) (Z.to_nat n - 1))%nat) /\
  (forall m, m <= 0 ->
     sxlcpyn (bpre ++ window ++ bpost) (List.length bpre)
             (spre ++ text ++ rest) (List.length spre) m
     = Some (bpre ++ window ++ bpost, List.length bpre)) /\
  (n = SX_MAX_TRACE_STRING ->
     string_of_list_ascii (take (Z.to_nat n - 1) text)
     = sxlcpy (string_of_list_ascii text)).
Proof.
  intros Hnz Hw Hrest Hn. split; [|split].
  - unfold sxlcpyn. destruct (Z.ltb_spec 0 n); [|lia].
    rewrite (sxlcpyn_loop_copy (Z.to_nat n) bpre window bpost spre text rest Hnz);
      [|lia|assumption].
    destruct (take_snoc_any text (Z.to_nat n) ltac:(lia)) as [x Hx]. rewrite Hx.
    assert (Hk : List.length (take (Z.to_nat n - 1) text)
                 = Nat.min (List.length text) (Z.to_nat n - 1))
      by (rewrite length_take; lia).
    replace (Nat.pred (List.length bpre + Nat.min (S (List.length text)) (Z.to_nat n)))
      with (List.length bpre + Nat.min (List.length text) (Z.to_nat n - 1))%nat by lia.
    f_equal. f_equal.
    rewrite insert_app_r_alt by lia.
    replace (List.length bpre + Nat.min (List.length text) (Z.to_nat n - 1)
             - List.length bpre)%nat
      with (List.length (take (Z.to_nat n - 1) text) + 0)%nat by lia.
    rewrite <- app_assoc. rewrite insert_app_r. reflexivity.
  - intros m Hm. unfold sxlcpyn. destruct (Z.ltb_spec 0 m); [lia|reflexivity].
  - intros ->. unfold sxlcpy. rewrite substring_take. reflexivity.
Qed.

Lemma sxlcpyn_copies_witness :
  sxlcpyn ["x"; "x"; "x"; "x"; "x"; "x"]%char 1 ["a"; "b"; "c"; "d"; zero]%char 0 3
  = Some (["x"; "a"; "b"; zero; "x"; "x"]%char, 3%nat).
Proof.
  apply (sxlcpyn_copies ["x"]%char ["x"; "x"; "x"]%char ["x"; "x"]%char []
           ["a"; "b"; "c"; "d"]%char [zero] 3).
  - repeat constructor; discriminate.
  - reflexivity.
  - intros _. reflexivity.
  - lia.
Defined.

(** * Chains of descriptors *)

Lemma link_all_linked classes :
  classes_ok [vtObject_addr] classes = true ->
  linked (List.length classes) (link_all classes).
Proof.
  intros Hok.
  destruct (reg_inv_fold classes [vtObject_addr] 0 _ reg_inv_root Hok) as [known Hinv].
  simpl in Hinv. fold (link_all classes) in Hinv.
  destruct Hinv as (Hroot & Hdom & Hnull & Hpar & Hch).
  split; [assumption|]. split.
  { destruct (link_all classes !! 0) eqn:E; [|reflexivity].
    exfalso. apply Hnull. apply Hdom. eauto. }
  intros a Ha. apply Hdom in Ha.
  destruct (Hch a Ha) as (ch & C1 & C2 & C3 & C4 & C5 & C6).
  exists ch. split; [assumption|]. split; [assumption|]. split; [assumption|].
  split; [|assumption]. intros x Hx. apply Hdom. apply C5. assumption.
Qed.

(** The shape of a chain. *)
Lemma chain_of_inv (reg : registry) k a ch :
  chain_of k reg a = Some ch ->
  exists v, reg !! a = Some v /\
    ((parent v = 0 /\ ch = [a]) \/
     (parent v <> 0 /\ exists k' ch', k = S k' /\
        chain_of k' reg (parent v) = Some ch' /\ ch = a :: ch')).
Proof.
  intros H. destruct k as [|k]; simpl in H.
  - destruct (reg !! a) as [v|]; [|discriminate]. exists v. split; [reflexivity|].
    destruct (Z.eqb_spec (parent v) 0); [|discriminate]. inversion H. auto.
  - destruct (reg !! a) as [v|]; [|discriminate]. exists v. split; [reflexivity|].
    destruct (Z.eqb_spec (parent v) 0); [inversion H; auto|].
    destruct (chain_of k reg (parent v)) as [ch'|] eqn:E; [|discriminate].
    inversion H. right. split; [assumption|]. exists k, ch'. auto.
Qed.

Lemma chain_of_head (reg : registry) k a ch :
  chain_of k reg a = Some ch -> exists ch', ch = a :: ch'.
Proof.
  intros H. apply chain_of_inv in H. destruct H as (v & _ & [[_ ->]|(_ & k' & ch' & _ & _ & ->)]);
    eauto.
Qed.

Lemma chain_of_fuel (reg : registry) k k' a ch :
  chain_of k reg a = Some ch -> (k <= k')%nat -> chain_of k' reg a = Some ch.
Proof.
  intros H L. induction L as [|m L IH]; [assumption|].
  apply chain_of_more_fuel. assumption.
Qed.

(** The chain of a descriptor of the chain is the rest of the chain. *)
Lemma chain_of_drop (reg : registry) k : forall a ch i x,
  chain_of k reg a = Some ch -> ch !! i = Some x ->
  chain_of k reg x = Some (drop i ch).
Proof.
  induction k as [|k IH]; intros a ch i x H Hi.
  - apply chain_of_inv in H as Hv.
    destruct Hv as (v & L & [[P ->]|(_ & k' & _ & Hk & _)]); [|discriminate].
    destruct i as [|i]; [|discriminate]. simpl in Hi. inversion Hi; subst. assumption.
  - destruct i as [|i].
    + destruct (chain_of_head _ _ _ _ H) as [ch' ->]. simpl in Hi. inversion Hi; subst.
      assumption.
    + apply chain_of_inv in H as Hv.
      destruct Hv as (v & L & [[P ->]|(P & k' & ch' & Hk & Hc & ->)]); [discriminate|].
      inversion Hk; subst k'. simpl in Hi. simpl.
      apply chain_of_more_fuel. eapply IH; eassumption.
Qed.

Lemma nth_walk_chain (reg : registry) k : forall a ch i x,
  chain_of k reg a = Some ch -> ch !! i = Some x -> nth_walk i reg a = Some x.
Proof.
  induction k as [|k IH]; intros a ch i x H Hi.
  - apply chain_of_inv in H.
    destruct H as (v & L & [[P ->]|(_ & k' & _ & Hk & _)]); [|discriminate].
    destruct i as [|i]; [|discriminate]. simpl in *. congruence.
  - apply chain_of_inv in H.
    destruct H as (v & L & [[P ->]|(P & k' & ch' & Hk & Hc & ->)]).
    + destruct i as [|i]; [|discriminate]. simpl in *. congruence.
    + inversion Hk; subst k'. destruct i as [|i]; simpl in *; [congruence|].
      rewrite L. eapply IH; eassumption.
Qed.

(** One step past the root the walk is at NULL. *)
Lemma nth_walk_chain_end (reg : registry) k : forall a ch,
  chain_of k reg a = Some ch -> nth_walk (List.length ch) reg a = Some 0.
Proof.
  induction k as [|k IH]; intros a ch H.
  - apply chain_of_inv in H.
    destruct H as (v & L & [[P ->]|(_ & k' & _ & Hk & _)]); [|discriminate].
    simpl. rewrite L, P. reflexivity.
  - apply chain_of_inv in H.
    destruct H as (v & L & [[P ->]|(P & k' & ch' & Hk & Hc & ->)]).
    + simpl. rewrite L, P. reflexivity.
    + inversion Hk; subst k'. cbn [List.length nth_walk]. rewrite L. apply IH. assumption.
Qed.

Lemma nth_walk_add (reg : registry) i : forall j a b,
  nth_walk i reg a = Some b -> nth_walk (i + j) reg a = nth_walk j reg b.
Proof.
  induction i as [|i IH]; intros j a b H; simpl in *; [congruence|].
  destruct (reg !! a) as [v|]; [|discriminate]. apply IH. assumption.
Qed.

Lemma nth_walk_null (reg : registry) j :
  reg !! 0 = None -> nth_walk (S j) reg 0 = None.
Proof. intros H. simpl. rewrite H. reflexivity. Qed.

Lemma sjClassList_chain (reg : registry) k : forall a ch m,
  reg !! 0 = None -> chain_of k reg a = Some ch ->
  sjClassList m reg a = map (class_name reg) (take m ch).
Proof.
  induction k as [|k IH]; intros a ch m H0 H.
  - apply chain_of_inv in H.
    destruct H as (v & L & [[P ->]|(_ & k' & _ & Hk & _)]); [|discriminate].
    destruct m as [|m]; [reflexivity|]. simpl.
    destruct (Z.eqb_spec a 0) as [->|_]; [congruence|].
    unfold class_name. rewrite L, P. destruct m; reflexivity.
  - apply chain_of_inv in H.
    destruct H as (v & L & [[P ->]|(P & k' & ch' & Hk & Hc & ->)]).
    + destruct m as [|m]; [reflexivity|]. simpl.
      destruct (Z.eqb_spec a 0) as [->|_]; [congruence|].
      unfold class_name. rewrite L, P. destruct m; reflexivity.
    + inversion Hk; subst k'. destruct m as [|m]; [reflexivity|]. simpl.
      destruct (Z.eqb_spec a 0) as [->|_]; [congruence|].
      unfold class_name at 1. rewrite L. f_equal. apply IH; assumption.
Qed.

(** * sjNthParent, sjClassList and sjHasClass on the descriptors of a program *)

Lemma last_lookup_default (l : list Z) d :
  l <> [] -> l !! (List.length l - 1)%nat = Some (List.last l d).
Proof.
  induction l as [|x l IH]; [congruence|]. intros _.
  destruct l as [|y l]; [reflexivity|].
  cbn [List.length]. replace (S (S (List.length l)) - 1)%nat with (S (List.length l)) by lia.
  change (List.last (x :: y :: l) d) with (List.last (y :: l) d).
  cbn [lookup list_lookup]. rewrite <- IH by congruence.
  cbn [List.length]. f_equal. lia.
Qed.

Lemma In_lookup (l : list Z) x : In x l -> exists i, l !! i = Some x.
Proof.
  induction l as [|y l IH]; [intros []|]. intros [->|H].
  - exists 0%nat. reflexivity.
  - destruct (IH H) as [i Hi]. exists (S i). assumption.
Qed.

Lemma lookup_In (l : list Z) i x : l !! i = Some x -> In x l.
Proof.
  revert i. induction l as [|y l IH]; intros i H; [destruct i; discriminate|].
  destruct i as [|i]; simpl in H; [inversion H; left; reflexivity|].
  right. eapply IH; eassumption.
Qed.

Lemma NoDup_lookup_eq (l : list Z) : forall i j x,
  List.NoDup l -> l !! i = Some x -> l !! j = Some x -> i = j.
Proof.
  induction l as [|y l IH]; intros i j x Hnd Hi Hj; [destruct i; discriminate|].
  inversion Hnd as [|? ? Hy Hl]; subst.
  destruct i as [|i], j as [|j]; simpl in *; try reflexivity.
  - inversion Hi; subst. exfalso. apply Hy. eapply lookup_In; eassumption.
  - inversion Hj; subst. exfalso. apply Hy. eapply lookup_In; eassumption.
  - f_equal. eapply IH; eassumption.
Qed.

(** X10.  sjNthParent counts from the root.  For a descriptor with [cnt]
    parents: index 0 is Object's descriptor and index [cnt] the descriptor
    itself; every index from 0 to [cnt] gives a descriptor of its chain
    that has exactly that many parents; an index above [cnt] gives NULL,
    and so does -1; below -1 the walk reads through the NULL pointer. *)
Theorem nth_parent_indexing (classes : list ClassDef) (a : Z) (v : Object_vt) :
  classes_ok [vtObject_addr] classes = true ->
  link_all classes !! a = Some v ->
  exists cnt,
    sjCountParents (List.length classes) (link_all classes) a = Some cnt /\ 0 <= cnt /\
    sjNthParent (List.length classes) (link_all classes) a 0 = Some vtObject_addr /\
    sjNthParent (List.length classes) (link_all classes) a cnt = Some a /\
    (forall n, 0 <= n <= cnt ->
       exists p, sjNthParent (List.length classes) (link_all classes) a n = Some p /\
                 sjCountParents (List.length classes) (link_all classes) p = Some n /\
                 has_class_walk (List.length classes) (link_all classes) a p = Some true) /\
    (forall n, cnt < n ->
       sjNthParent (List.length classes) (link_all classes) a n = Some 0) /\
    sjNthParent (List.length classes) (link_all classes) a (-1) = Some 0 /\
    (forall n, n < -1 ->
       sjNthParent (List.length classes) (link_all classes) a n = None).
Proof.
  intros Hok Ha. destruct (link_all_linked classes Hok) as (Hroot & Hnull & Hch).
  set (reg := link_all classes) in *. set (k := List.length classes) in *.
  destruct (Hch a ltac:(eauto)) as (ch & C1 & C2 & C3 & C4 & C5).
  destruct (chain_of_head _ _ _ _ C1) as [ch' Ech].
  assert (Hlen : (1 <= List.length ch)%nat) by (rewrite Ech; simpl; lia).
  assert (Hcount : sjCountParents k reg a = Some (Z.of_nat (List.length ch) - 1)).
  { unfold sjCountParents. rewrite (count_walk_chain _ _ _ _ _ C1). f_equal. lia. }
  set (cnt := Z.of_nat (List.length ch) - 1) in *.
  assert (Hnth : forall n, 0 <= n <= cnt ->
    exists p, ch !! Z.to_nat (cnt - n) = Some p /\ sjNthParent k reg a n = Some p).
  { intros n Hn. destruct (lookup_lt_is_Some_2 ch (Z.to_nat (cnt - n))) as [p Hp];
      [subst cnt; lia|].
    exists p. split; [assumption|]. unfold sjNthParent. rewrite Hcount.
    fold cnt. destruct (Z.ltb_spec (cnt - n) 0); [lia|].
    eapply nth_walk_chain; eassumption. }
  exists cnt. split; [assumption|]. split; [subst cnt; lia|]. split.
  { destruct (Hnth 0 ltac:(subst cnt; lia)) as (p & Hp & ->). f_equal.
    replace (Z.to_nat (cnt - 0)) with (List.length ch - 1)%nat in Hp by (subst cnt; lia).
    rewrite (last_lookup_default ch 0) in Hp by (rewrite Ech; discriminate).
    congruence. }
  split.
  { destruct (Hnth cnt ltac:(subst cnt; lia)) as (p & Hp & ->). f_equal.
    replace (Z.to_nat (cnt - cnt)) with 0%nat in Hp by lia. rewrite Ech in Hp.
    simpl in Hp. congruence. }
  split.
  { intros n Hn. destruct (Hnth n Hn) as (p & Hp & E). exists p. split; [assumption|].
    split.
    - unfold sjCountParents.
      rewrite (count_walk_chain _ _ _ _ _ (chain_of_drop _ _ _ _ _ _ C1 Hp)).
      f_equal. rewrite length_drop. subst cnt. lia.
    - rewrite (has_class_walk_chain _ _ _ _ p C1). f_equal.
      apply existsb_eqb_In. eapply lookup_In; eassumption. }
  split.
  { intros n Hn. unfold sjNthParent. rewrite Hcount. fold cnt.
    destruct (Z.ltb_spec (cnt - n) 0); [reflexivity|lia]. }
  split.
  { unfold sjNthParent. rewrite Hcount. fold cnt.
    destruct (Z.ltb_spec (cnt - -1) 0); [lia|].
    replace (Z.to_nat (cnt - -1)) with (List.length ch) by (subst cnt; lia).
    eapply nth_walk_chain_end; eassumption. }
  intros n Hn. unfold sjNthParent. rewrite Hcount. fold cnt.
  destruct (Z.ltb_spec (cnt - n) 0); [lia|].
  replace (Z.to_nat (cnt - n)) with (List.length ch + S (Z.to_nat (- n - 2)))%nat
    by (subst cnt; lia).
  rewrite (nth_walk_add _ _ _ _ _ (nth_walk_chain_end _ _ _ _ C1)).
  apply nth_walk_null. assumption.
Qed.

Lemma nth_parent_indexing_witness :
  classes_ok [vtObject_addr]
    [Autoref_class; Tests.Fruit_class; Tests.Wallnut_class; Tests.Orange_class] = true /\
  exists cnt,
    sjCountParents 4 Tests.demo Tests.vtOrange = Some cnt /\
    sjNthParent 4 Tests.demo Tests.vtOrange cnt = Some Tests.vtOrange.
Proof.
  split; [reflexivity|].
  destruct (nth_parent_indexing
              [Autoref_class; Tests.Fruit_class; Tests.Wallnut_class; Tests.Orange_class]
              Tests.vtOrange
              (link_fresh Tests.Orange_class (link_fresh Tests.Fruit_class vtObject)))
    as (cnt & H1 & _ & _ & H2 & _).
  - reflexivity.
  - vm_compute. reflexivity.
  - exists cnt. split; [exact H1|exact H2].
Defined.

(** X11.  sjClassList writes the class names of the descriptors that the
    walk of sjHasClass visits, the class itself first, and stops after
    maxList of them: it never writes more than maxList entries, and when
    the chain fits the last name is that of Object. *)
Theorem class_list_names (classes : list ClassDef) (a : Z) (v : Object_vt) (maxList : nat) :
  classes_ok [vtObject_addr] classes = true ->
  link_all classes !! a = Some v ->
  exists ch,
    chain_of (List.length classes) (link_all classes) a = Some ch /\
    sjClassList maxList (link_all classes) a
      = map (class_name (link_all classes)) (take maxList ch) /\
    List.length (sjClassList maxList (link_all classes) a)
      = Nat.min maxList (List.length ch) /\
    ((1 <= maxList)%nat ->
       List.hd_error (sjClassList maxList (link_all classes) a) = Some (className v)) /\
    ((List.length ch <= maxList)%nat ->
       List.last (sjClassList maxList (link_all classes) a) EmptyString
         = "Object"%string).
Proof.
  intros Hok Ha. destruct (link_all_linked classes Hok) as (Hroot & Hnull & Hch).
  set (reg := link_all classes) in *. set (k := List.length classes) in *.
  destruct (Hch a ltac:(eauto)) as (ch & C1 & C2 & C3 & C4 & C5).
  exists ch. split; [assumption|].
  pose proof (sjClassList_chain reg k a ch maxList Hnull C1) as E.
  split; [assumption|]. rewrite E. split; [rewrite length_map, length_take; reflexivity|].
  destruct (chain_of_head _ _ _ _ C1) as [ch' Ech]. split.
  - intros Hm. destruct maxList as [|m]; [lia|]. rewrite Ech. simpl.
    unfold class_name. rewrite Ha. reflexivity.
  - intros Hm. rewrite take_ge by assumption.
    assert (L : forall (l : list Z) d, l <> [] ->
                List.last (map (class_name reg) l) EmptyString
                  = class_name reg (List.last l d)).
    { induction l as [|x l IH]; intros d Hl; [congruence|].
      destruct l as [|y l]; [reflexivity|].
      change (List.last (map (class_name reg) (x :: y :: l)) EmptyString)
        with (List.last (map (class_name reg) (y :: l)) EmptyString).
      change (List.last (x :: y :: l) d) with (List.last (y :: l) d).
      apply IH. discriminate. }
    rewrite (L ch 0) by (rewrite Ech; discriminate). rewrite C3.
    unfold class_name. rewrite Hroot. reflexivity.
Qed.

Lemma class_list_names_witness :
  classes_ok [vtObject_addr]
    [Autoref_class; Tests.Fruit_class; Tests.Wallnut_class; Tests.Orange_class] = true /\
  List.length (sjClassList 2 Tests.demo Tests.vtOrange) = 2%nat.
Proof.
  split; [reflexivity|].
  destruct (class_list_names
              [Autoref_class; Tests.Fruit_class; Tests.Wallnut_class; Tests.Orange_class]
              Tests.vtOrange
              (link_fresh Tests.Orange_class (link_fresh Tests.Fruit_class vtObject)) 2)
    as (ch & C1 & _ & H & _).
  - reflexivity.
  - vm_compute. reflexivity.
  - unfold Tests.demo. rewrite H. vm_compute in C1. inversion C1. reflexivity.
Defined.

(** X12.  Compatibility of classes is an order with Object on top.  On the
    descriptors of a program the walk of sjHasClass always answers; every
    class is compatible with itself and with Object; compatibility is
    transitive; and two different classes are never compatible with each
    other both ways. *)
Theorem has_class_order (classes : list ClassDef) (a : Z) (v : Object_vt) :
  classes_ok [vtObject_addr] classes = true ->
  link_all classes !! a = Some v ->
  has_class_walk (List.length classes) (link_all classes) a a = Some true /\
  has_class_walk (List.length classes) (link_all classes) a vtObject_addr = Some true /\
  (forall b, exists r,
     has_class_walk (List.length classes) (link_all classes) a b = Some r) /\
  (forall b, has_class_walk (List.length classes) (link_all classes) a b = Some true ->
             is_Some (link_all classes !! b)) /\
  (forall b c,
     has_class_walk (List.length classes) (link_all classes) a b = Some true ->
     has_class_walk (List.length classes) (link_all classes) b c = Some true ->
     has_class_walk (List.length classes) (link_all classes) a c = Some true) /\
  (forall b,
     has_class_walk (List.length classes) (link_all classes) a b = Some true ->
     has_class_walk (List.length classes) (link_all classes) b a = Some true ->
     a = b).
Proof.
  intros Hok Ha. destruct (link_all_linked classes Hok) as (Hroot & Hnull & Hch).
  set (reg := link_all classes) in *. set (k := List.length classes) in *.
  destruct (Hch a ltac:(eauto)) as (ch & C1 & C2 & C3 & C4 & C5).
  destruct (chain_of_head _ _ _ _ C1) as [ch' Ech].
  assert (Hhas : forall x, has_class_walk k reg a x = Some (existsb (Z.eqb x) ch))
    by (intros x; apply has_class_walk_chain; assumption).
  assert (Hin : forall b, has_class_walk k reg a b = Some true -> In b ch).
  { intros b H. rewrite Hhas in H. injection H as H'. apply existsb_eqb_In. assumption. }
  split.
  { rewrite Hhas. f_equal. apply existsb_eqb_In. rewrite Ech. left. reflexivity. }
  split.
  { rewrite Hhas. f_equal. apply existsb_eqb_In. rewrite <- C3.
    eapply lookup_In. apply last_lookup_default. rewrite Ech. discriminate. }
  split; [intros b; rewrite Hhas; eauto|].
  split; [intros b H; apply C4, Hin; assumption|].
  split.
  - intros b c Hb Hc. apply Hin in Hb. apply In_lookup in Hb. destruct Hb as [i Hi].
    pose proof (chain_of_drop _ _ _ _ _ _ C1 Hi) as Cb.
    rewrite (has_class_walk_chain _ _ _ _ c Cb) in Hc. injection Hc as Hc'.
    apply existsb_eqb_In in Hc'. rewrite Hhas. f_equal. apply existsb_eqb_In.
    apply In_lookup in Hc'. destruct Hc' as [j Hj]. rewrite lookup_drop in Hj.
    eapply lookup_In; eassumption.
  - intros b Hb Hba. apply Hin in Hb. apply In_lookup in Hb. destruct Hb as [i Hi].
    pose proof (chain_of_drop _ _ _ _ _ _ C1 Hi) as Cb.
    rewrite (has_class_walk_chain _ _ _ _ a Cb) in Hba. injection Hba as Hba'.
    apply existsb_eqb_In in Hba'. apply In_lookup in Hba'. destruct Hba' as [j Hj].
    rewrite lookup_drop in Hj.
    assert (H0 : ch !! 0%nat = Some a) by (rewrite Ech; reflexivity).
    pose proof (NoDup_lookup_eq ch _ _ _ C2 Hj H0) as E.
    assert (i = 0%nat) by lia. subst i. congruence.
Qed.

Lemma has_class_order_witness :
  classes_ok [vtObject_addr]
    [Autoref_class; Tests.Fruit_class; Tests.Wallnut_class; Tests.Orange_class] = true /\
  has_class_walk 4 Tests.demo Tests.vtOrange vtObject_addr = Some true.
Proof.
  split; [reflexivity|].
  destruct (has_class_order
              [Autoref_class; Tests.Fruit_class; Tests.Wallnut_class; Tests.Orange_class]
              Tests.vtOrange
              (link_fresh Tests.Orange_class (link_fresh Tests.Fruit_class vtObject)))
    as (_ & H & _).
  - reflexivity.
  - vm_compute. reflexivity.
  - exact H.
Defined.

(** * linkvt *)

Lemma assign_slots_length block : forall ms,
  List.length (assign_slots block ms) = List.length ms.
Proof.
  induction block as [|[i f] block IH]; intros ms; simpl; [reflexivity|].
  rewrite IH. apply length_insert.
Qed.

Lemma assign_slots_other block (i : nat) : forall ms,
  (forall f, ~ In (i, f) block) -> assign_slots block ms !! i = ms !! i.
Proof.
  induction block as [|[j f] block IH]; intros ms H; simpl; [reflexivity|].
  rewrite IH.
  - apply list_lookup_insert_ne. intros ->. apply (H f). left. reflexivity.
  - intros g Hg. apply (H g). right. assumption.
Qed.

(** The last assignment of the block to a slot is what the slot holds. *)
Lemma lookup_repeat (x : Z) n : forall i,
  repeat x n !! i = if (i <? n)%nat then Some x else None.
Proof.
  induction n as [|n IH]; intros i; simpl; [destruct i; reflexivity|].
  destruct i as [|i]; [reflexivity|]. simpl. rewrite IH.
  change (S i <? S n)%nat with (i <? n)%nat. reflexivity.
Qed.

(** X13.  linkvt(CLASS, PARENT).  The first call of vtCLASS() fills the
    static: parent, size, class name and constructor of the class, the
    destructor of the parent unless the block assigns one, and the method
    slots of the parent; a slot that the block does not assign holds what
    the parent's slot holds, and a slot that the class adds and does not
    assign is NULL.  No other descriptor changes, and a second call of
    vtCLASS() changes nothing. *)
Theorem linkvt_inherits (c : ClassDef) (reg : registry) (pv : Object_vt) :
  c_parent c <> 0 ->
  reg !! c_parent c = Some pv ->
  reg !! c_vt c = None ->
  exists v,
    linkvt c reg !! c_vt c = Some v /\
    parent v = c_parent c /\ size v = c_size c /\ objectSize v = c_objectSize c /\
    className v = c_name c /\ new v = c_new c /\
    del v = match c_del c with Some d => d | None => del pv end /\
    (forall i, (forall f, ~ In (i, f) (c_block c)) ->
       methods v !! i =
         if (i <? List.length (methods pv))%nat then methods pv !! i
         else if (i <? slot_count (c_size c))%nat then Some 0 else None) /\
    (forall a, a <> c_vt c -> linkvt c reg !! a = reg !! a) /\
    linkvt c (linkvt c reg) = linkvt c reg.
Proof.
  intros Hp Lp Lc.
  assert (E : linkvt c reg = <[c_vt c := link_fresh c pv]> reg).
  { unfold linkvt. rewrite Lc, Lp. reflexivity. }
  exists (link_fresh c pv). rewrite E.
  split; [apply lookup_insert_eq|].
  do 6 (split; [reflexivity|]).
  split.
  { intros i Hi. unfold link_fresh. cbn [methods].
    rewrite assign_slots_other by assumption.
    destruct (Nat.ltb_spec i (List.length (methods pv))) as [H|H].
    - apply lookup_app_l. assumption.
    - rewrite lookup_app_r by assumption.
      rewrite lookup_repeat.
      destruct (Nat.ltb_spec i (slot_count (c_size c))) as [H'|H'];
        destruct (Nat.ltb_spec (i - List.length (methods pv))
                    (slot_count (c_size c) - List.length (methods pv))); try reflexivity; lia. }
  split; [intros a Ha; apply lookup_insert_ne; congruence|].
  unfold linkvt at 1. rewrite lookup_insert_eq.
  cbn [link_fresh parent]. destruct (Z.eqb_spec (c_parent c) 0); [contradiction|].
  reflexivity.
Qed.

Lemma linkvt_inherits_witness :
  exists v,
    linkvt Tests.Orange_class (link_all [Autoref_class; Tests.Fruit_class])
      !! Tests.vtOrange = Some v /\
    methods v !! 3%nat = None /\ className v = "Orange"%string.
Proof.
  destruct (linkvt_inherits Tests.Orange_class (link_all [Autoref_class; Tests.Fruit_class])
              (link_fresh Tests.Fruit_class vtObject))
    as (v & H1 & _ & _ & _ & H2 & _ & _ & H3 & _).
  - discriminate.
  - vm_compute. reflexivity.
  - vm_compute. reflexivity.
  - exists v. split; [exact H1|]. split; [|exact H2].
    rewrite (H3 3%nat); [reflexivity|].
    intros f [H|[H|[H|[]]]]; discriminate.
Defined.

(** * sjInheritedMethod *)

Lemma inherited_walk_found (errno : Z) (reg : registry) off body cn fuel :
  forall vt v found inh,
  reg !! vt = Some v ->
  inherited_walk errno fuel reg vt v off body found cn = Ret inh ->
  inh = mkInh 0 0 \/
  exists i, (found = false -> (1 <= i)%nat) /\ found_above reg vt off body i inh.
Proof.
  induction fuel as [|fuel IH]; intros vt v found inh Hv H.
  - cbn [inherited_walk] in H.
    destruct (slot_at v off) as [p|] eqn:Hs; [|discriminate].
    destruct found; cbn [andb orb] in H.
    + destruct (Z.eqb_spec p 0) as [Hp0|Hp0].
      { inversion H; subst. right. exists 0%nat. split; [discriminate|].
        split; [reflexivity|]. exists v, 0. simpl. auto 10. }
      destruct (Z.eqb_spec p body) as [Hpb|Hpb]; cbn [negb] in H.
      2:{ inversion H; subst. right. exists 0%nat. split; [discriminate|].
          split; [reflexivity|]. exists v, p. simpl. auto 10. }
      destruct (parent v =? 0); [inversion H; auto|].
      destruct (reg !! parent v) as [pv|]; [|discriminate].
      destruct (off <=? last_slot pv); [discriminate|inversion H; auto].
    + destruct (parent v =? 0).
      { destruct (p =? body); [inversion H; auto|discriminate]. }
      destruct (reg !! parent v) as [pv|]; [|discriminate].
      destruct (off <=? last_slot pv); [discriminate|].
      destruct (p =? body); [inversion H; auto|discriminate].
  - cbn [inherited_walk] in H.
    destruct (slot_at v off) as [p|] eqn:Hs; [|discriminate].
    assert (Hrec : forall found',
      match reg !! parent v with
      | Some pv => inherited_walk errno fuel reg (parent v) pv off body found' cn = Ret inh
      | None => False
      end ->
      inh = mkInh 0 0 \/ exists i, (1 <= i)%nat /\ found_above reg vt off body i inh).
    { intros found' Hr. destruct (reg !! parent v) as [pv|] eqn:Hpv; [|contradiction].
      destruct (IH _ _ _ _ Hpv Hr) as [->|(i & _ & W & K)]; [auto|].
      right. exists (S i). split; [lia|]. split; [|exact K].
      cbn [nth_walk]. rewrite Hv. exact W. }
    destruct found; cbn [andb orb] in H.
    + destruct (Z.eqb_spec p 0) as [Hp0|Hp0].
      { inversion H; subst. right. exists 0%nat. split; [discriminate|].
        split; [reflexivity|]. exists v, 0. simpl. auto 10. }
      destruct (Z.eqb_spec p body) as [Hpb|Hpb]; cbn [negb] in H.
      2:{ inversion H; subst. right. exists 0%nat. split; [discriminate|].
          split; [reflexivity|]. exists v, p. simpl. auto 10. }
      destruct (parent v =? 0); [inversion H; auto|].
      destruct (reg !! parent v) as [pv|] eqn:Hpv; [|discriminate].
      destruct (off <=? last_slot pv); [|inversion H; auto].
      destruct (Hrec true) as [->|(i & Hi & K)]; [exact H|auto|].
      right. exists i. split; [discriminate|exact K].
    + destruct (parent v =? 0).
      { destruct (p =? body); [inversion H; auto|discriminate]. }
      destruct (reg !! parent v) as [pv|] eqn:Hpv; [|discriminate].
      destruct (off <=? last_slot pv).
      * destruct (Hrec (p =? body)) as [->|(i & Hi & K)]; [exact H|auto|].
        right. exists i. split; [intros _; exact Hi|exact K].
      * destruct (p =? body); [inversion H; auto|discriminate].
Qed.

(** X15.  What inherited() gets from sjInheritedMethod is never the body it
    asked with.  A null body, a slot address below the descriptor or past
    its last slot are refused with an exception, whose code is errno as
    newex() finds it; an answer with a method
    names the slot of a proper ancestor that holds another pointer, not
    NULL; an answer with a descriptor and no method names a proper
    ancestor whose slot is NULL (an abstract declaration); the answer with
    neither means no ancestor declares anything else. *)
Theorem inherited_is_not_self (errno : Z) (fuel : nat) (reg : registry)
    (vt vtMethod body : Z) (v : Object_vt) :
  reg !! vt = Some v ->
  (body = 0 \/ vtMethod < vt \/ last_slot v < (vtMethod - vt) mod SIZE_MOD ->
   exists e, sjInheritedMethod errno fuel reg vt vtMethod body = Throws e /\
             code e = errno) /\
  (forall inh, sjInheritedMethod errno fuel reg vt vtMethod body = Ret inh ->
     body <> 0 /\ vt <= vtMethod /\
     (inh = mkInh 0 0 \/
      exists i, (1 <= i)%nat /\
        found_above reg vt ((vtMethod - vt) mod SIZE_MOD) body i inh)).
Proof.
  intros Hv. unfold sjInheritedMethod. rewrite Hv. split.
  - intros H.
    assert (E : (vtMethod <? vt) || (last_slot v <? (vtMethod - vt) mod SIZE_MOD)
                || (body =? 0) = true).
    { destruct H as [->|[H|H]].
      - rewrite orb_true_r. reflexivity.
      - apply Z.ltb_lt in H. rewrite H. reflexivity.
      - apply Z.ltb_lt in H. rewrite H, orb_true_r. reflexivity. }
    rewrite E. eexists. split; reflexivity.
  - intros inh H.
    destruct (Z.ltb_spec vtMethod vt); [discriminate|].
    destruct (last_slot v <? (vtMethod - vt) mod SIZE_MOD); [discriminate|].
    destruct (Z.eqb_spec body 0); [discriminate|]. cbn [orb] in H.
    split; [assumption|]. split; [lia|].
    destruct (inherited_walk_found _ _ _ _ _ _ _ _ _ _ Hv H) as [->|(i & Hi & K)]; [auto|].
    right. exists i. split; [apply Hi; reflexivity|exact K].
Qed.

Lemma inherited_is_not_self_witness :
  exists inh,
    sjInheritedMethod 0 8 Tests.demo Tests.vtOrange
      (Tests.caloriesPerQuantity_of Tests.vtOrange) Tests.Orange_caloriesPerQuantity
    = Ret inh /\
    (inh = mkInh 0 0 \/
     exists i, (1 <= i)%nat /\
       found_above Tests.demo Tests.vtOrange
         ((Tests.caloriesPerQuantity_of Tests.vtOrange - Tests.vtOrange) mod SIZE_MOD)
         Tests.Orange_caloriesPerQuantity i inh).
Proof.
  eexists. split; [vm_compute; reflexivity|].
  destruct (inherited_is_not_self 0 8 Tests.demo Tests.vtOrange
              (Tests.caloriesPerQuantity_of Tests.vtOrange) Tests.Orange_caloriesPerQuantity
              (link_fresh Tests.Orange_class (link_fresh Tests.Fruit_class vtObject)))
    as [_ H].
  - vm_compute. reflexivity.
  - apply H. vm_compute. reflexivity.
Defined.

(** * sjInheritedMethod on the classes of a program *)

Lemma well_sized_root : well_sized {[ vtObject_addr := vtObject ]}.
Proof.
  intros a v H. destruct (decide (a = vtObject_addr)) as [->|N].
  - rewrite lookup_singleton_eq in H. inversion H; subst. vm_compute.
    split; [split; [discriminate|reflexivity]|reflexivity].
  - rewrite lookup_singleton_ne in H by congruence. discriminate.
Qed.

Lemma slot_count_mono a b : a <= b -> (slot_count a <= slot_count b)%nat.
Proof.
  intros H. unfold slot_count, ptrSize.
  pose proof (Z.div_le_mono a b 8 ltac:(lia) H). lia.
Qed.

Lemma well_sized_link c reg pv :
  well_sized reg -> reg !! c_parent c = Some pv ->
  size pv <= c_size c < SIZE_MOD ->
  well_sized (linkvt c reg).
Proof.
  intros Hw Lp [Hs1 Hs2] a v H. unfold linkvt in H.
  destruct (match reg !! c_vt c with
            | Some v0 => negb (parent v0 =? 0)
            | None => false
            end); [apply (Hw _ _ H)|].
  rewrite Lp in H. destruct (decide (c_vt c = a)) as [<-|N].
  - rewrite lookup_insert_eq in H. inversion H; subst. clear H.
    destruct (Hw _ _ Lp) as [[P1 P2] P3]. unfold link_fresh. cbn [size methods].
    split; [lia|]. rewrite assign_slots_length, length_app, repeat_length, P3.
    pose proof (slot_count_mono _ _ Hs1). lia.
  - rewrite lookup_insert_ne in H by assumption. apply (Hw _ _ H).
Qed.

Lemma well_sized_fold classes : forall reg,
  well_sized reg -> sizes_ok reg classes = true ->
  well_sized (fold_left (fun r c => linkvt c r) classes reg).
Proof.
  induction classes as [|c classes IH]; intros reg Hw Hok; simpl; [assumption|].
  simpl in Hok. apply andb_prop in Hok. destruct Hok as [Hc Hrest].
  destruct (reg !! c_parent c) as [pv|] eqn:Lp; [|discriminate].
  apply andb_prop in Hc. destruct Hc as [H1 H2].
  apply Z.leb_le in H1. apply Z.ltb_lt in H2.
  apply IH; [|assumption]. eapply well_sized_link; eauto.
Qed.

(** The slot of a method that the descriptor has. *)
Lemma slot_at_method v (i : nat) :
  (i < List.length (methods v))%nat ->
  exists p, slot_at v ((6 + Z.of_nat i) * ptrSize) = Some p.
Proof.
  intros H. unfold slot_at, ptrSize.
  rewrite Z.mod_mul by lia. rewrite Z.div_mul by lia.
  destruct (Z.leb_spec 0 ((6 + Z.of_nat i) * 8)); [|lia]. cbn [Z.eqb andb].
  destruct (lookup_lt_is_Some_2 (methods v) i H) as [p Hp]. exists p.
  assert (Hk : 6 <= 6 + Z.of_nat i) by lia.
  assert (Ei : Z.to_nat (6 + Z.of_nat i - 6) = i) by lia.
  revert Hk Ei. generalize (6 + Z.of_nat i). intros k Hk Ei.
  destruct k as [|q|q]; try lia.
  destruct q as [[q|[q|q|]|]|[q|[q|q|]|]|]; try lia; cbv iota;
    (match goal with
     | |- (if 6 <=? ?K then _ else _) = _ => destruct (Z.leb_spec 6 K); [|lia]
     end; rewrite Ei; exact Hp).
Qed.

Lemma inherited_walk_answers (errno : Z) (reg : registry) (i : nat) body cn k :
  well_sized reg ->
  forall fuel vt v found ch,
  reg !! vt = Some v -> chain_of k reg vt = Some ch ->
  (List.length ch <= S fuel)%nat ->
  (i < List.length (methods v))%nat ->
  inherited_walk errno fuel reg vt v ((6 + Z.of_nat i) * ptrSize) body found cn <> Undefined.
Proof.
  intros Hw. induction fuel as [|fuel IH]; intros vt v found ch Hv Hch Hlen Hi.
  - cbn [inherited_walk].
    destruct (slot_at_method v i Hi) as [p Hp]. rewrite Hp.
    destruct (found && (p =? 0)); [discriminate|].
    destruct (found && negb (p =? body)); [discriminate|].
    apply chain_of_inv in Hch.
    destruct Hch as (v0 & L & [[P ->]|(P & k' & ch' & Hk & Hc & ->)]).
    + rewrite Hv in L. inversion L; subst v0. rewrite P. cbn [Z.eqb].
      destruct (found || (p =? body)); discriminate.
    + apply chain_of_head in Hc. destruct Hc as [ch'' ->]. simpl in Hlen. lia.
  - cbn [inherited_walk].
    destruct (slot_at_method v i Hi) as [p Hp]. rewrite Hp.
    destruct (found && (p =? 0)); [discriminate|].
    destruct (found && negb (p =? body)); [discriminate|].
    apply chain_of_inv in Hch.
    destruct Hch as (v0 & L & [[P ->]|(P & k' & ch' & Hk & Hc & ->)]);
      rewrite Hv in L; inversion L; subst v0.
    + rewrite P. cbn [Z.eqb]. destruct (found || (p =? body)); discriminate.
    + destruct (Z.eqb_spec (parent v) 0); [contradiction|].
      apply chain_of_inv in Hc as Hpv. destruct Hpv as (pv & Lpv & _). rewrite Lpv.
      destruct (Z.leb_spec ((6 + Z.of_nat i) * ptrSize) (last_slot pv)) as [Hle|Hgt];
        [|destruct (found || (p =? body)); discriminate].
      eapply IH; [exact Lpv|rewrite Hk; apply chain_of_more_fuel; exact Hc
                 |simpl in Hlen; lia|].
      destruct (Hw _ _ Lpv) as [[S1 S2] S3]. rewrite S3.
      unfold last_slot, slot_count, ptrSize in *.
      rewrite Z.mod_small in Hle by lia.
      assert (6 + Z.of_nat i + 1 <= size pv / 8).
      { apply Z.div_le_lower_bound; lia. }
      lia.
Qed.

Lemma inherited_method_in_chain (errno : Z) (reg : registry) (k : nat) (vt : Z)
    (v : Object_vt) (ch : list Z) (i : nat) (body : Z) :
  well_sized reg -> reg !! vt = Some v ->
  chain_of k reg vt = Some ch -> (List.length ch <= S k)%nat ->
  (i < slot_count (size v))%nat -> body <> 0 ->
  sjInheritedMethod errno k reg vt (vt + (6 + Z.of_nat i) * ptrSize) body <> Undefined.
Proof.
  intros Hw Hv C1 C5 Hi Hb.
  destruct (Hw _ _ Hv) as [[S1 S2] S3].
  unfold sjInheritedMethod. rewrite Hv.
  replace (vt + (6 + Z.of_nat i) * ptrSize - vt) with ((6 + Z.of_nat i) * ptrSize) by lia.
  assert (Hoff : 0 <= (6 + Z.of_nat i) * ptrSize <= size v - ptrSize).
  { unfold slot_count, ptrSize in *. split; [lia|].
    pose proof (Z.mul_div_le (size v) 8 ltac:(lia)). lia. }
  rewrite Z.mod_small by (unfold ptrSize in *; lia).
  destruct (Z.ltb_spec (vt + (6 + Z.of_nat i) * ptrSize) vt);
    [unfold ptrSize in *; lia|].
  unfold last_slot. rewrite Z.mod_small by (unfold ptrSize in *; lia).
  destruct (Z.ltb_spec (size v - ptrSize) ((6 + Z.of_nat i) * ptrSize)); [lia|].
  destruct (Z.eqb_spec body 0); [contradiction|]. cbn [orb].
  eapply inherited_walk_answers; [exact Hw|exact Hv|exact C1| |rewrite S3; exact Hi].
  exact C5.
Qed.

(** X16.  On the classes of a program inherited() always gets an answer:
    asked for a method slot that the descriptor has, with a body that is
    not NULL, sjInheritedMethod returns or throws; the walk up the parents
    ends, and it reads no slot that a descriptor on the way does not
    have. *)
Theorem inherited_answers (errno : Z) (classes : list ClassDef) (vt : Z) (v : Object_vt)
    (i : nat) (body : Z) :
  classes_ok [vtObject_addr] classes = true ->
  sizes_ok {[ vtObject_addr := vtObject ]} classes = true ->
  link_all classes !! vt = Some v ->
  (i < slot_count (size v))%nat ->
  body <> 0 ->
  sjInheritedMethod errno (List.length classes) (link_all classes) vt
                    (vt + (6 + Z.of_nat i) * ptrSize) body <> Undefined.
Proof.
  intros Hok Hsz Hv Hi Hb.
  pose proof (well_sized_fold classes _ well_sized_root Hsz) as Hw.
  fold (link_all classes) in Hw.
  destruct (link_all_linked classes Hok) as (_ & _ & Hch).
  destruct (Hch vt ltac:(eauto)) as (ch & C1 & _ & _ & _ & C5).
  exact (inherited_method_in_chain errno _ _ vt v ch i body Hw Hv C1 C5 Hi Hb).
Qed.

Lemma inherited_answers_witness :
  sizes_ok {[ vtObject_addr := vtObject ]}
    [Autoref_class; Tests.Fruit_class; Tests.Wallnut_class; Tests.Orange_class] = true /\
  sjInheritedMethod 0 4 Tests.demo Tests.vtOrange
    (Tests.vtOrange + (6 + Z.of_nat 1) * ptrSize) Tests.Orange_caloriesPerQuantity
  <> Undefined.
Proof.
  split; [vm_compute; reflexivity|].
  apply (inherited_answers 0
           [Autoref_class; Tests.Fruit_class; Tests.Wallnut_class; Tests.Orange_class]
           Tests.vtOrange
           (link_fresh Tests.Orange_class (link_fresh Tests.Fruit_class vtObject)) 1
           Tests.Orange_caloriesPerQuantity).
  - reflexivity.
  - vm_compute. reflexivity.
  - vm_compute. reflexivity.
  - vm_compute. lia.
  - discriminate.
Defined.

(** * The chains of descriptors and the walks over them *)

(** C7 (as the code has it).  In the registry of a program whose classes
    are declared parents first, Object's descriptor has a null parent and
    every other descriptor has a parent that is not null and is itself a
    descriptor of the registry.  The chain of every descriptor is finite
    and free of repetitions, starts at the descriptor and ends at Object's,
    where every walk stops on the null parent: sjCountParents returns the
    length of the chain less one, the walk of sjHasClass returns
    membership in the chain, sjClassList lists the names of the chain (cut
    at maxList) and, on descriptors with the sizes that struct inclusion
    gives, sjInheritedMethod returns or throws for every method slot. *)
Theorem descriptor_chains (classes : list ClassDef) (a : Z) (v : Object_vt) :
  classes_ok [vtObject_addr] classes = true ->
  link_all classes !! a = Some v ->
  link_all classes !! vtObject_addr = Some vtObject /\ parent vtObject = 0 /\
  (a <> vtObject_addr ->
     parent v <> 0 /\ is_Some (link_all classes !! parent v)) /\
  exists ch,
    chain_of (List.length classes) (link_all classes) a = Some ch /\
    List.NoDup ch /\ List.hd_error ch = Some a /\ List.last ch 0 = vtObject_addr /\
    (List.length ch <= S (List.length classes))%nat /\
    sjCountParents (List.length classes) (link_all classes) a
      = Some (Z.of_nat (List.length ch) - 1) /\
    (forall x, has_class_walk (List.length classes) (link_all classes) a x
               = Some (existsb (Z.eqb x) ch)) /\
    (forall maxList,
       sjClassList maxList (link_all classes) a
       = map (class_name (link_all classes)) (take maxList ch)) /\
    (sizes_ok {[ vtObject_addr := vtObject ]} classes = true ->
     forall errno i body, (i < slot_count (size v))%nat -> body <> 0 ->
       sjInheritedMethod errno (List.length classes) (link_all classes) a
                         (a + (6 + Z.of_nat i) * ptrSize) body <> Undefined).
Proof.
  intros Hok Ha.
  destruct (reg_inv_fold classes [vtObject_addr] 0 _ reg_inv_root Hok) as [known Hinv].
  simpl in Hinv. fold (link_all classes) in Hinv.
  destruct Hinv as (Hroot & Hdom & Hnull & Hpar & Hch).
  split; [assumption|]. split; [reflexivity|]. split.
  { intros N. destruct (Hpar a v Ha N) as [P1 P2]. split; [assumption|].
    apply Hdom. assumption. }
  assert (Ia : In a known) by (apply Hdom; eauto).
  destruct (Hch a Ia) as (ch & C1 & C2 & C3 & C4 & C5 & C6).
  exists ch. split; [assumption|]. split; [assumption|]. split; [assumption|].
  split; [assumption|]. split; [assumption|]. split; [|split; [|split]].
  - unfold sjCountParents. rewrite (count_walk_chain _ _ _ _ _ C1). f_equal. lia.
  - intros x. apply has_class_walk_chain. assumption.
  - intros maxList. destruct (link_all_linked classes Hok) as (_ & H0 & _).
    exact (sjClassList_chain _ _ a ch maxList H0 C1).
  - intros Hsz errno i body Hi Hb.
    pose proof (well_sized_fold classes _ well_sized_root Hsz) as Hw.
    fold (link_all classes) in Hw.
    exact (inherited_method_in_chain errno _ _ a v ch i body Hw Ha C1 C6 Hi Hb).
Qed.

Lemma descriptor_chains_witness :
  classes_ok [vtObject_addr]
    [Autoref_class; Tests.Fruit_class; Tests.Wallnut_class; Tests.Orange_class] = true /\
  (exists v, Tests.demo !! Tests.vtOrange = Some v) /\
  exists ch, chain_of 4 Tests.demo Tests.vtOrange = Some ch /\
             List.last ch 0 = vtObject_addr /\
             sjCountParents 4 Tests.demo Tests.vtOrange
               = Some (Z.of_nat (List.length ch) - 1) /\
             sjClassList 64 Tests.demo Tests.vtOrange
               = map (class_name Tests.demo) (take 64 ch).
Proof.
  split; [reflexivity|]. split; [eexists; vm_compute; reflexivity|].
  destruct (descriptor_chains
              [Autoref_class; Tests.Fruit_class; Tests.Wallnut_class; Tests.Orange_class]
              Tests.vtOrange
              (link_fresh Tests.Orange_class
                 (link_fresh Tests.Fruit_class vtObject)))
    as (_ & _ & _ & ch & C1 & _ & _ & C4 & _ & C6 & _ & C8 & _).
  - reflexivity.
  - vm_compute. reflexivity.
  - exists ch. split; [exact C1|]. split; [exact C4|]. split; [exact C6|exact (C8 64%nat)].
Defined.

(** * sjClassCast and sjBaseMethod *)

Lemma has_class_walk_linked k (reg : registry) a v :
  linked k reg -> reg !! a = Some v ->
  has_class_walk k reg a a = Some true /\
  has_class_walk k reg a vtObject_addr = Some true /\
  forall b, exists r, has_class_walk k reg a b = Some r.
Proof.
  intros (Hroot & Hnull & Hch) Ha.
  destruct (Hch a ltac:(eauto)) as (ch & C1 & C2 & C3 & C4 & C5).
  destruct (chain_of_head _ _ _ _ C1) as [ch' Ech].
  assert (Hhas : forall x, has_class_walk k reg a x = Some (existsb (Z.eqb x) ch))
    by (intros x; apply has_class_walk_chain; assumption).
  split; [|split].
  - rewrite Hhas. f_equal. apply existsb_eqb_In. rewrite Ech. left. reflexivity.
  - rewrite Hhas. f_equal. apply existsb_eqb_In. rewrite <- C3.
    eapply lookup_In. apply last_lookup_default. rewrite Ech. discriminate.
  - intros b. rewrite Hhas. eauto.
Qed.

(** X17.  sjClassCast, the function behind as(obj, CLASS), returns the
    object itself or throws; it never returns NULL.  On the descriptors of
    a program it returns the object exactly when sjHasClass accepts the
    class, so always for the class of the object and for Object, and
    otherwise throws an exception made at saneobj.c:278 whose code is
    errno and whose message is "Object of class A cannot be cast to B."
    cut to 127 characters, so whole when the two names are short enough. *)
Theorem class_cast_checked (errno : Z) (classes : list ClassDef) (st : state)
    (obj target : Z) (o : Object) (ov tv : Object_vt) :
  classes_ok [vtObject_addr] classes = true ->
  objects st !! obj = Some o ->
  link_all classes !! vt o = Some ov ->
  link_all classes !! target = Some tv ->
  let text := ("Object of class " ++ className ov ++ " cannot be cast to "
               ++ className tv ++ ".")%string in
  sjClassCast errno (List.length classes) (link_all classes) st obj (vt o) = Ret obj /\
  sjClassCast errno (List.length classes) (link_all classes) st obj vtObject_addr = Ret obj /\
  exists r, sjHasClass (List.length classes) (link_all classes) st obj target = Some r /\
    (r = true ->
       sjClassCast errno (List.length classes) (link_all classes) st obj target = Ret obj) /\
    (r = false ->
       exists e,
         sjClassCast errno (List.length classes) (link_all classes) st obj target
           = Throws e /\
         code e = errno /\ uncatchable e = false /\
         file e = "saneobj.c"%string /\ line e = 278 /\
         message e = substring 0 127 text /\
         ((String.length text <= 127)%nat -> message e = text)).
Proof.
  intros Hok Ho Hov Htv text. pose proof (link_all_linked classes Hok) as Hl.
  destruct (has_class_walk_linked _ _ _ _ Hl Hov) as (H1 & H2 & H3).
  unfold sjClassCast, sjHasClass. rewrite Ho.
  split; [rewrite H1; reflexivity|]. split; [rewrite H2; reflexivity|].
  destruct (H3 target) as [r Hr]. exists r. split; [assumption|].
  rewrite Hr, Htv, Hov. split; intros ->; [reflexivity|].
  eexists. split; [reflexivity|]. cbn [code uncatchable file line message sxprintf newex].
  do 5 (split; [reflexivity|]). fold text.
  intros Hlen. unfold sxlcpy.
  change (Z.to_nat (SX_MAX_TRACE_STRING - 1)) with 127%nat.
  apply substring_whole. exact Hlen.
Qed.

Lemma class_cast_checked_witness :
  exists e,
    sjClassCast 0 4 Tests.demo (set_objects {[ 9000 := mkObject Tests.vtWallnut 0 ]} initial)
                9000 Tests.vtOrange = Throws e /\
    message e = "Object of class Wallnut cannot be cast to Orange."%string.
Proof.
  destruct (class_cast_checked 0
              [Autoref_class; Tests.Fruit_class; Tests.Wallnut_class; Tests.Orange_class]
              (set_objects {[ 9000 := mkObject Tests.vtWallnut 0 ]} initial)
              9000 Tests.vtOrange (mkObject Tests.vtWallnut 0)
              (link_fresh Tests.Wallnut_class (link_fresh Tests.Fruit_class vtObject))
              (link_fresh Tests.Orange_class (link_fresh Tests.Fruit_class vtObject)))
    as (_ & _ & r & Hr & _ & E); try (vm_compute; reflexivity).
  vm_compute in Hr. inversion Hr; subst r.
  destruct (E eq_refl) as (e & E1 & _ & _ & _ & _ & _ & E2).
  exists e. split; [exact E1|]. apply E2. vm_compute. lia.
Defined.

Lemma code_in_slots_spec (reg : registry) off a v a' :
  code_in_slots reg off = true ->
  reg !! a = Some v -> is_Some (reg !! a') -> slot_at v off <> Some (a' + off).
Proof.
  intros H Ha [v' Ha'] Hs. unfold code_in_slots in H. rewrite forallb_forall in H.
  apply elem_of_map_to_list in Ha. apply elem_of_map_to_list in Ha'.
  apply list_elem_of_In in Ha. apply list_elem_of_In in Ha'.
  specialize (H _ Ha). rewrite forallb_forall in H. specialize (H _ Ha').
  simpl in H. rewrite Hs in H. rewrite Z.eqb_refl in H. discriminate.
Qed.

(** A round of sjBaseMethod that asks with the address of a slot finds no
    descriptor holding it. *)
Lemma inherited_walk_unfound (errno : Z) (reg : registry) off body cn fuel :
  code_in_slots reg off = true ->
  forall vt v, reg !! vt = Some v ->
  (exists a', is_Some (reg !! a') /\ body = a' + off) ->
  forall inh, inherited_walk errno fuel reg vt v off body false cn <> Ret inh.
Proof.
  intros Hcode. induction fuel as [|fuel IH]; intros vt v Hv (a' & Ha' & ->) inh H.
  - cbn [inherited_walk] in H.
    destruct (slot_at v off) as [p|] eqn:Hs; [|discriminate]. cbn [andb orb] in H.
    assert (Hp : (p =? a' + off) = false).
    { apply Z.eqb_neq. intros ->. exact (code_in_slots_spec _ _ _ _ _ Hcode Hv Ha' Hs). }
    rewrite Hp in H.
    destruct (parent v =? 0); [discriminate|].
    destruct (reg !! parent v) as [pv|]; [|discriminate].
    destruct (off <=? last_slot pv); discriminate.
  - cbn [inherited_walk] in H.
    destruct (slot_at v off) as [p|] eqn:Hs; [|discriminate]. cbn [andb orb] in H.
    assert (Hp : (p =? a' + off) = false).
    { apply Z.eqb_neq. intros ->. exact (code_in_slots_spec _ _ _ _ _ Hcode Hv Ha' Hs). }
    rewrite Hp in H.
    destruct (parent v =? 0); [discriminate|].
    destruct (reg !! parent v) as [pv|] eqn:Hpv; [|discriminate].
    destruct (off <=? last_slot pv); [|discriminate].
    eapply IH; [exact Hpv|eauto|exact H].
Qed.

(** X18.  What sjBaseMethod answers.  It asks sjInheritedMethod with the
    pointer in the slot; when that finds nothing it answers the class it
    was asked about, and when that finds an ancestor with NULL in the slot
    it answers that ancestor.  When an ancestor holds another, non-null
    pointer the loop goes round again, asking with the address of that
    ancestor's slot, which no slot holds: that round never answers.  So
    sjBaseMethod never names an ancestor with a method of its own. *)
Theorem base_method_answers (errno : Z) (fuel : nat) (reg : registry) (vt vtMethod body : Z)
    (v : Object_vt) (inh : SjInheritedMethod) :
  0 <= vtMethod - vt < SIZE_MOD ->
  code_in_slots reg (vtMethod - vt) = true ->
  reg !! vt = Some v ->
  slot_at v (vtMethod - vt) = Some body ->
  sjBaseMethod errno fuel reg vt vtMethod = Ret inh ->
  (inh = mkInh vt body /\ sjInheritedMethod errno fuel reg vt vtMethod body = Ret (mkInh 0 0)) \/
  (inh_method inh = 0 /\ inh_vt inh <> 0 /\
   sjInheritedMethod errno fuel reg vt vtMethod body = Ret inh /\
   exists i, (1 <= i)%nat /\ found_above reg vt (vtMethod - vt) body i inh).
Proof.
  intros Hoff Hcode Hv Hs H. unfold sjBaseMethod in H. rewrite Hv, Hs in H.
  destruct fuel as [|rounds]; [discriminate|].
  cbn [base_walk inh_method] in H.
  destruct (sjInheritedMethod errno (S rounds) reg vt vtMethod body) as [inh1| |] eqn:E1;
    try discriminate.
  assert (Hfound : inh1 = mkInh 0 0 \/
            exists i, (1 <= i)%nat /\ found_above reg vt (vtMethod - vt) body i inh1).
  { unfold sjInheritedMethod in E1. rewrite Hv in E1.
    rewrite Z.mod_small in E1 by assumption.
    destruct ((vtMethod <? vt) || (last_slot v <? vtMethod - vt) || (body =? 0));
      [discriminate|].
    destruct (inherited_walk_found _ _ _ _ _ _ _ _ _ _ Hv E1) as [->|(i & Hi & K)]; [auto|].
    right. exists i. split; [apply Hi; reflexivity|exact K]. }
  destruct (Z.eqb_spec (inh_method inh1) 0) as [Hm|Hm].
  - destruct (Z.eqb_spec (inh_vt inh1) 0) as [Hz|Hz].
    + inversion H; subst. left. split; [reflexivity|].
      destruct inh1 as [a m]. simpl in *. subst. reflexivity.
    + inversion H; subst. right. split; [assumption|]. split; [assumption|].
      split; [reflexivity|].
      destruct Hfound as [->|Hfound]; [simpl in Hz; contradiction|exact Hfound].
  - exfalso.
    destruct Hfound as [->|(i & Hi & W & v' & p & Hv' & Hs' & [[_ Hz]|(_ & _ & Hz)])];
      [simpl in Hm; contradiction|contradiction|].
    destruct rounds as [|rounds]; [discriminate|].
    cbn [base_walk] in H. unfold sjInheritedMethod in H. rewrite Hv in H.
    rewrite Z.mod_small in H by assumption.
    destruct ((vtMethod <? vt) || (last_slot v <? vtMethod - vt)
              || (inh_method inh1 =? 0)); [discriminate|].
    destruct (inherited_walk errno (S (S rounds)) reg vt v (vtMethod - vt) (inh_method inh1)
                false (className v)) as [inh2| |] eqn:E2; try discriminate.
    eapply inherited_walk_unfound; [exact Hcode|exact Hv| |exact E2].
    exists (inh_vt inh1). split; [eauto|exact Hz].
Qed.

Lemma base_method_answers_witness :
  sjBaseMethod 0 8 Tests.demo Tests.vtOrange (Tests.eat_of Tests.vtOrange)
    = Ret (mkInh Tests.vtFruit 0) /\
  sjInheritedMethod 0 8 Tests.demo Tests.vtOrange (Tests.eat_of Tests.vtOrange)
    Tests.Orange_eat = Ret (mkInh Tests.vtFruit 0).
Proof.
  split; [vm_compute; reflexivity|].
  destruct (base_method_answers 0 8 Tests.demo Tests.vtOrange (Tests.eat_of Tests.vtOrange)
              Tests.Orange_eat
              (link_fresh Tests.Orange_class (link_fresh Tests.Fruit_class vtObject))
              (mkInh Tests.vtFruit 0))
    as [[H _]|(_ & _ & H & _)].
  - vm_compute. split; [discriminate|reflexivity].
  - vm_compute. reflexivity.
  - vm_compute. reflexivity.
  - vm_compute. reflexivity.
  - vm_compute. reflexivity.
  - discriminate.
  - exact H.
Defined.

(** * sjDel and the counter of an Autoref *)

(** X19.  sjDel frees the block exactly once, after the destructor, whether
    the destructor returns or throws.  When the destructor returns and no
    uncatchable exception is in flight, sjDel returns 1 with the frame
    stack as before; when the destructor returns during the unwinding of
    an uncatchable exception, the endtry of sjDel throws after the free
    and sjDel does not return; when the destructor throws, the exception
    goes on to the caller's frame or, without one, ends the process, after
    the free. *)
Theorem sjDel_frees_once (n fuel : nat) (reg : registry)
    (code : Z -> Z -> state -> Z * state) (dtor : Z -> stmt) (obj : Z)
    (file : string) (line : Z) (st st1 : state) :
  sjRelease fuel reg code obj st = Some (true, st1) ->
  0 <= nextContext st1 < MAX_TRY_CATCH ->
  (cost (dtor obj) + 4 <= n)%nat ->
  match run (dtor obj) (emit (EvDel obj) (try_entered st1)) with
  | Normal st2 =>
      match sjDel n fuel reg code dtor obj file line st with
      | Returns b st' =>
          b = true /\ hasUncatchable st2 = false /\
          events st' = events st2 ++ [EvFree obj] /\ nextContext st' = nextContext st1
      | Escapes (Jump t _ st') =>
          hasUncatchable st2 = true /\ t = nextContext st1 - 1 /\
          events st' = events st2 ++ [EvFree obj]
      | Escapes (Uncaught _ st') =>
          hasUncatchable st2 = true /\ nextContext st1 = 0 /\
          exists l, events st' = events st2 ++ EvFree obj :: l /\
                    forallb is_stderr l = true
      | _ => False
      end
  | Jump _ _ st2 =>
      match sjDel n fuel reg code dtor obj file line st with
      | Escapes (Jump t _ st') =>
          t = nextContext st1 - 1 /\ events st' = events st2 ++ [EvFree obj]
      | Escapes (Uncaught _ st') =>
          nextContext st1 = 0 /\
          exists l, events st' = events st2 ++ EvFree obj :: l /\
                    forallb is_stderr l = true
      | _ => False
      end
  | Fatal _ _ =>
      match sjDel n fuel reg code dtor obj file line st with
      | Escapes (Fatal _ _) => True
      | _ => False
      end
  | _ => False
  end.
Proof.
  intros Hrel [Hn0 Hn1] Hfuel.
  unfold sjDel. rewrite Hrel.
  destruct n as [|[|[|[|n]]]]; try lia.
  set (k := S (S n)).
  rewrite (exec_Try_first k) by lia.
  assert (Eb : exec k (Seq (Emit (EvDel obj)) (dtor obj)) (try_entered st1)
               = run (dtor obj) (emit (EvDel obj) (try_entered st1))).
  { subst k. rewrite exec_Seq, exec_Emit. apply exec_run. lia. }
  pose proof (body_frame k (Seq (Emit (EvDel obj)) (dtor obj)) st1 ltac:(lia)) as Fr.
  rewrite Eb in *.
  pose proof (run_terminates (dtor obj) (emit (EvDel obj) (try_entered st1))) as Ht.
  destruct (run (dtor obj) (emit (EvDel obj) (try_entered st1))) as [st2|t c st2| | |];
    try contradiction; [ | |exact I].
  - (* the destructor returns *)
    destruct Fr as (N2 & C2 & L2 & _).
    destruct (finally_free_endtry (S n) obj "saneobj.c" 172 st2)
      as (st3 & E3 & V3 & N3 & L3 & U3 & _).
    { lia. }
    { rewrite N2. replace (nextContext st1 + 1 - 1) with (nextContext st1) by lia.
      rewrite C2. unfold FINALLY_THRESHOLD. lia. }
    subst k. rewrite E3.
    pose proof (leaveTry_out "saneobj.c" 172 st3 ltac:(lia)) as Lo.
    assert (Hset : settled st3 <-> hasUncatchable st2 = false).
    { unfold settled. rewrite L3, L2, U3. tauto. }
    assert (Hnot : ~ settled st3 -> hasUncatchable st2 = true).
    { intros H. destruct (hasUncatchable st2); [reflexivity|].
      exfalso. apply H. apply Hset. reflexivity. }
    destruct (_sxLeaveTry "saneobj.c" 172 st3) as [st4|t' c' st4| |s4 st4|];
      try contradiction.
    + destruct Lo as [Hs ->]. split; [reflexivity|]. split; [apply Hset; exact Hs|].
      simpl. split; [assumption|lia].
    + destruct Lo as (Hs & -> & _ & _ & V).
      destruct (Z.eqb_spec (nextContext st3 - 2) (nextContext st1)); [lia|].
      split; [apply Hnot; exact Hs|]. split; [lia|congruence].
    + destruct Lo as (Hs & Hb & l & V & Hl).
      split; [apply Hnot; exact Hs|]. split; [lia|].
      exists l. split; [|exact Hl]. rewrite V, V3, <- app_assoc. reflexivity.
  - (* the destructor throws *)
    destruct Fr as (-> & H1 & N2 & C2). rewrite Z.eqb_refl.
    subst k. rewrite resume_S. unfold region_pass.
    destruct (enterTry2_spec c st2) as [[_ E]|[Hge _]];
      [|rewrite N2 in Hge;
        replace (nextContext st1 + 1 - 1) with (nextContext st1) in Hge by lia; lia].
    rewrite E. destruct (Z.eqb_spec c 0); [lia|].
    unfold dispatch. cbn [arbitrate].
    set (st3 := set_sxLastJumpCode c st2).
    destruct (finally_free_endtry n obj "saneobj.c" 172 st3) as (st4 & E4 & V4 & N4 & L4 & _).
    { subst st3. simpl. lia. }
    { subst st3. simpl. rewrite N2.
      replace (nextContext st1 + 1 - 1) with (nextContext st1) by lia.
      change (caught_at (nextContext st1) (set_sxLastJumpCode c st2))
        with (caught_at (nextContext st1) st2).
      rewrite C2. unfold FINALLY_THRESHOLD. lia. }
    rewrite E4.
    pose proof (leaveTry_events "saneobj.c" 172 st4) as Le.
    rewrite L4, N4 in Le. subst st3. simpl in Le, V4. rewrite N2 in Le.
    specialize (Le ltac:(lia) ltac:(lia)).
    destruct (_sxLeaveTry "saneobj.c" 172 st4) as [|t' c' st5| |s5 st5|]; try contradiction.
    + destruct Le as [-> Le].
      destruct (Z.eqb_spec (nextContext st1 + 1 - 2) (nextContext st1)); [lia|].
      split; [lia|]. congruence.
    + destruct Le as (Hb & l & Le & Hl). split; [lia|]. exists l. split; [|exact Hl].
      rewrite Le, V4. rewrite <- app_assoc. reflexivity.
Qed.

Lemma sjDel_frees_once_witness :
  exists st',
    sjDel 6 8 Tests.demo Tests.no_counters (fun _ => Skip) 9000 "saneobj-demo.c" 355
          (set_objects {[ 9000 := mkObject vtAutoref_addr 1 ]} initial)
      = Returns true st' /\
    events st' = [EvDel 9000; EvFree 9000].
Proof.
  pose proof (sjDel_frees_once 6 8 Tests.demo Tests.no_counters (fun _ => Skip) 9000
                "saneobj-demo.c" 355
                (set_objects {[ 9000 := mkObject vtAutoref_addr 1 ]} initial)
                (set_objects {[ 9000 := mkObject vtAutoref_addr 0 ]} initial)) as H.
  assert (H1 : sjRelease 8 Tests.demo Tests.no_counters 9000
                 (set_objects {[ 9000 := mkObject vtAutoref_addr 1 ]} initial)
               = Some (true, set_objects {[ 9000 := mkObject vtAutoref_addr 0 ]} initial))
    by (vm_compute; reflexivity).
  assert (H2 : 0 <= nextContext (set_objects {[ 9000 := mkObject vtAutoref_addr 0 ]} initial)
               < MAX_TRY_CATCH) by (split; reflexivity).
  specialize (H H1 H2 ltac:(simpl; lia)).
  remember (sjDel 6 8 Tests.demo Tests.no_counters (fun _ => Skip) 9000 "saneobj-demo.c" 355
              (set_objects {[ 9000 := mkObject vtAutoref_addr 1 ]} initial)) as r eqn:Er.
  vm_compute in Er. subst r.
  eexists. split; [reflexivity|]. apply H.
Defined.

Lemma int_wrap_small z : INT_MIN <= z <= INT_MAX -> int_wrap z = z.
Proof.
  unfold int_wrap, INT_MIN, INT_MAX. intros H.
  rewrite Z.mod_small by lia. lia.
Qed.

(** Adding one and taking one away gives the counter back, also at
    INT_MAX; and the sum is 1 only for 0. *)
Lemma int_wrap_succ_pred z :
  INT_MIN <= z <= INT_MAX ->
  int_wrap (int_wrap (z + 1) - 1) = z /\ (int_wrap (z + 1) = 1 <-> z = 0).
Proof.
  intros H. destruct (Z.eq_dec z INT_MAX) as [->|Hne].
  - vm_compute. split; [reflexivity|]. split; discriminate.
  - rewrite (int_wrap_small (z + 1)) by (unfold INT_MIN, INT_MAX in *; lia).
    replace (z + 1 - 1) with z by lia. rewrite int_wrap_small by assumption.
    split; [reflexivity|lia].
Qed.

Lemma state_eta st : set_objects (objects st) st = st.
Proof. destruct st. reflexivity. Qed.

Lemma release_after_take obj o st :
  objects st !! obj = Some o -> INT_MIN <= refs o <= INT_MAX ->
  Autoref_release obj (snd (Autoref_take obj st)) = (int_wrap (refs o + 1), st).
Proof.
  intros Ho Hr.
  assert (T : objects st !!! obj = o).
  { unfold lookup_total, map_lookup_total. rewrite Ho. reflexivity. }
  unfold Autoref_release, Autoref_take. rewrite T. cbn [snd objects set_objects].
  assert (T' : <[obj := mkObject (vt o) (int_wrap (refs o + 1))]> (objects st) !!! obj
               = mkObject (vt o) (int_wrap (refs o + 1))).
  { unfold lookup_total, map_lookup_total. rewrite lookup_insert_eq. reflexivity. }
  rewrite T'. cbn [refs vt]. f_equal.
  rewrite insert_insert_eq.
  destruct (int_wrap_succ_pred (refs o) Hr) as [-> _].
  replace (mkObject (vt o) (refs o)) with o by (destruct o; reflexivity).
  rewrite insert_id by assumption. destruct st. reflexivity.
Qed.

(** X20.  Counting the owners of an Autoref whose class keeps Autoref's own
    release in its release slot.  take() and release() return the old
    counter, an int, and leave it one more and one less (wrapping around
    at the ends of int).  sjDel on such an instance only lets go of one
    reference unless the counter was 1: it returns 0, the counter is one
    less and nothing else has happened.  So a take() followed by sjDel
    leaves an instance that had owners exactly as it was.  With the
    counter at 1, and for an instance that is no Autoref, the deletion
    goes ahead. *)
Theorem autoref_counting (n fuel : nat) (reg : registry)
    (code : Z -> Z -> state -> Z * state) (dtor : Z -> stmt) (obj : Z)
    (o : Object) (v : Object_vt) (file : string) (line : Z) (st : state) :
  objects st !! obj = Some o ->
  INT_MIN <= refs o <= INT_MAX ->
  sjHasClass fuel reg st obj vtAutoref_addr = Some true ->
  reg !! vt o = Some v ->
  slot_at v release_offset = Some Autoref_release_addr ->
  fst (Autoref_take obj st) = refs o /\ fst (Autoref_release obj st) = refs o /\
  (INT_MIN < refs o -> int_wrap (refs o - 1) = refs o - 1) /\
  (refs o <> 1 ->
     sjDel n fuel reg code dtor obj file line st
     = Returns false
         (set_objects (<[obj := mkObject (vt o) (int_wrap (refs o - 1))]> (objects st))
                      st)) /\
  (refs o <> 0 ->
     sjDel n fuel reg code dtor obj file line (snd (Autoref_take obj st))
     = Returns false st) /\
  (refs o = 1 -> exists st1, sjRelease fuel reg code obj st = Some (true, st1) /\
                             objects st1 !! obj = Some (mkObject (vt o) 0)) /\
  (forall obj', sjHasClass fuel reg st obj' vtAutoref_addr = Some false ->
                sjRelease fuel reg code obj' st = Some (true, st)).
Proof.
  intros Ho Hr Hc Hv Hs.
  assert (T : objects st !!! obj = o).
  { unfold lookup_total, map_lookup_total. rewrite Ho. reflexivity. }
  assert (Hcall : forall s, call_counter code Autoref_release_addr obj s
                            = Autoref_release obj s) by reflexivity.
  assert (Hrel : forall s, objects s !! obj = Some (mkObject (vt o) (refs (objects s !!! obj))) ->
                 sjHasClass fuel reg s obj vtAutoref_addr = Some true ->
                 sjRelease fuel reg code obj s
                 = let (old, s') := Autoref_release obj s in Some (old =? 1, s')).
  { intros s Hso Hsc. unfold sjRelease. rewrite Hsc, Hso. cbn [vt]. rewrite Hv, Hs.
    change (Autoref_release_addr =? 0) with false. cbv iota. rewrite Hcall. reflexivity. }
  assert (Ho' : objects st !! obj = Some (mkObject (vt o) (refs (objects st !!! obj)))).
  { rewrite T, Ho. destruct o; reflexivity. }
  split; [unfold Autoref_take; simpl; rewrite T; reflexivity|].
  split; [unfold Autoref_release; simpl; rewrite T; reflexivity|].
  split; [intros H; apply int_wrap_small; unfold INT_MIN, INT_MAX in *; lia|].
  split; [|split; [|split]].
  - intros H1. unfold sjDel. rewrite (Hrel st Ho' Hc). unfold Autoref_release.
    rewrite T. destruct (Z.eqb_spec (refs o) 1); [contradiction|reflexivity].
  - intros H0. unfold sjDel.
    assert (Hc' : sjHasClass fuel reg (snd (Autoref_take obj st)) obj vtAutoref_addr
                  = Some true).
    { unfold sjHasClass in *. unfold Autoref_take. cbn [snd objects set_objects].
      rewrite lookup_insert_eq. rewrite T. cbn [vt]. rewrite Ho in Hc. exact Hc. }
    rewrite Hrel; [|unfold Autoref_take; cbn [snd objects set_objects]; rewrite T;
                    unfold lookup_total, map_lookup_total; rewrite !lookup_insert_eq;
                    reflexivity|exact Hc'].
    rewrite (release_after_take obj o st Ho Hr).
    destruct (int_wrap_succ_pred (refs o) Hr) as [_ H1].
    destruct (Z.eqb_spec (int_wrap (refs o + 1)) 1) as [E|E]; [|reflexivity].
    apply H1 in E. contradiction.
  - intros H1. rewrite (Hrel st Ho' Hc). unfold Autoref_release. rewrite T.
    rewrite H1. eexists. split; [reflexivity|]. cbn [objects set_objects].
    rewrite lookup_insert_eq. reflexivity.
  - intros obj' H. unfold sjRelease. rewrite H. reflexivity.
Qed.

Lemma autoref_counting_witness :
  sjDel 6 8 Tests.demo Tests.no_counters (fun _ => Skip) 9000 "saneobj-demo.c" 384
        (set_objects {[ 9000 := mkObject vtAutoref_addr 3 ]} initial)
  = Returns false (set_objects {[ 9000 := mkObject vtAutoref_addr 2 ]} initial).
Proof.
  destruct (autoref_counting 6 8 Tests.demo Tests.no_counters (fun _ => Skip) 9000
              (mkObject vtAutoref_addr 3) (link_fresh Autoref_class vtObject)
              "saneobj-demo.c" 384
              (set_objects {[ 9000 := mkObject vtAutoref_addr 3 ]} initial))
    as (_ & _ & _ & H & _).
  - reflexivity.
  - vm_compute. split; discriminate.
  - vm_compute. reflexivity.
  - vm_compute. reflexivity.
  - reflexivity.
  - rewrite H by discriminate. vm_compute. reflexivity.
Defined.

(** * sjJoinClassList *)

Lemma string_length_append (a b : string) :
  String.length (a ++ b) = (String.length a + String.length b)%nat.
Proof. induction a as [|c a IH]; simpl; [reflexivity|]. rewrite IH. reflexivity. Qed.

Lemma string_append_assoc (a b c : string) : ((a ++ b) ++ c = a ++ (b ++ c))%string.
Proof.
  induction a as [|x a IH]; [reflexivity|].
  change (String x ((a ++ b) ++ c) = String x (a ++ (b ++ c)))%string.
  f_equal. exact IH.
Qed.

Lemma string_append_nil_r (a : string) : (a ++ "")%string = a.
Proof.
  induction a as [|x a IH]; [reflexivity|].
  change (String x (a ++ "") = String x a). f_equal. exact IH.
Qed.

Lemma substring_all (a : string) : substring 0 (String.length a) a = a.
Proof. induction a as [|x a IH]; simpl; [reflexivity|]. rewrite IH. reflexivity. Qed.

Lemma substring_none (a : string) : substring 0 0 a = EmptyString.
Proof. destruct a; reflexivity. Qed.

Lemma join_loop_names fuel : forall names joiner parentFirst i res (first : bool),
  -1 <= i <= Z.of_nat (List.length names) ->
  (parentFirst = true -> i < Z.of_nat (List.length names)) ->
  (parentFirst = false -> 0 <= i) ->
  (List.length (todo_at names parentFirst i) <= fuel)%nat ->
  join_loop fuel names (Z.of_nat (List.length names)) joiner parentFirst i res
            (Z.of_nat (String.length res))
            (if first then 0 else Z.of_nat (String.length joiner))
  = (join_names (todo_at names parentFirst i) joiner res first,
     Z.of_nat (String.length (join_names (todo_at names parentFirst i) joiner res first))).
Proof.
  induction fuel as [|fuel IH]; intros names joiner parentFirst i res first Hi Hp Hq Hf.
  - destruct (todo_at names parentFirst i); [reflexivity|simpl in Hf; lia].
  - cbn [join_loop].
    destruct (Z.leb_spec 0 i) as [H0|H0]; cbn [andb].
    2:{ assert (i = -1) by lia. subst i. unfold todo_at. destruct parentFirst; simpl.
        - reflexivity.
        - specialize (Hq eq_refl). lia. }
    destruct (Z.ltb_spec i (Z.of_nat (List.length names))) as [H1|H1].
    2:{ assert (i = Z.of_nat (List.length names)) by lia. subst i. unfold todo_at.
        destruct parentFirst.
        - specialize (Hp eq_refl). lia.
        - rewrite Nat2Z.id, drop_all. reflexivity. }
    destruct (lookup_lt_is_Some_2 names (Z.to_nat i)) as [name Hname]; [lia|].
    rewrite Hname.
    assert (Htodo : todo_at names parentFirst i
                    = name :: todo_at names parentFirst (i + (if parentFirst then -1 else 1))).
    { unfold todo_at. destruct parentFirst.
      - replace (Z.to_nat (i + 1)) with (S (Z.to_nat i)) by lia.
        rewrite (take_S_r _ _ _ Hname). rewrite rev_app_distr. simpl.
        replace (Z.to_nat (i + -1 + 1)) with (Z.to_nat i) by lia. reflexivity.
      - rewrite (drop_S _ _ _ Hname). replace (Z.to_nat (i + 1)) with (S (Z.to_nat i)) by lia.
        reflexivity. }
    rewrite Htodo in *. cbn [join_names].
    rewrite Nat2Z.id, substring_all.
    assert (Hsep : substring 0 (Z.to_nat (if first then 0
                                          else Z.of_nat (String.length joiner))) joiner
                   = if first then EmptyString else joiner).
    { destruct first; [apply substring_none|]. rewrite Nat2Z.id. apply substring_all. }
    rewrite Hsep.
    assert (Hlen : (if first then 0 else Z.of_nat (String.length joiner))
                   = Z.of_nat (String.length (if first then EmptyString else joiner)))
      by (destruct first; reflexivity).
    rewrite Hlen.
    destruct (Z.leb_spec maxString
                (Z.of_nat (String.length (if first then EmptyString else joiner))
                 + Z.of_nat (String.length res) + Z.of_nat (String.length name))).
    + f_equal. rewrite string_length_append. simpl. lia.
    + replace (Z.of_nat (String.length res)
               + Z.of_nat (String.length (if first then EmptyString else joiner)))
        with (Z.of_nat (String.length (res ++ (if first then EmptyString else joiner))))
        by (rewrite string_length_append; lia).
      rewrite Nat2Z.id, substring_all.
      replace (Z.of_nat (String.length (res ++ (if first then EmptyString else joiner)))
               + Z.of_nat (String.length name))
        with (Z.of_nat (String.length ((res ++ (if first then EmptyString else joiner))
                                       ++ name)))
        by (rewrite !string_length_append; lia).
      apply (IH names joiner parentFirst _ _ false).
      * destruct parentFirst; lia.
      * intros ->. lia.
      * intros ->. lia.
      * cbn [List.length] in Hf. lia.
Qed.

Lemma joined_cons joiner acc first name rest :
  joined joiner acc first (name :: rest)
  = joined joiner ((acc ++ (if first then EmptyString else joiner)) ++ name)%string false rest.
Proof.
  unfold joined. destruct rest as [|r rest].
  - cbn [String.concat]. rewrite string_append_assoc. reflexivity.
  - cbn [String.concat]. rewrite !string_append_assoc. reflexivity.
Qed.

Lemma joined_length joiner acc first todo :
  (String.length acc <= String.length (joined joiner acc first todo))%nat.
Proof.
  unfold joined. destruct todo; [lia|]. rewrite string_length_append. lia.
Qed.

Lemma join_names_joined joiner : forall todo acc first,
  Z.of_nat (String.length (joined joiner acc first todo)) < maxString ->
  join_names todo joiner acc first = joined joiner acc first todo.
Proof.
  induction todo as [|name rest IH]; intros acc first H; [reflexivity|].
  cbn [join_names]. rewrite joined_cons in H |- *.
  pose proof (joined_length joiner
                ((acc ++ (if first then EmptyString else joiner)) ++ name)%string false rest)
    as L.
  rewrite !string_length_append in L.
  destruct (Z.leb_spec maxString
              (Z.of_nat (String.length (if first then EmptyString else joiner))
               + Z.of_nat (String.length acc) + Z.of_nat (String.length name))); [lia|].
  apply IH. assumption.
Qed.

Lemma join_names_cut joiner : forall todo acc first,
  exists j, (j <= List.length todo)%nat /\
    join_names todo joiner acc first
    = (joined joiner acc first (take j todo)
       ++ (if (j <? List.length todo)%nat then "..." else ""))%string.
Proof.
  induction todo as [|name rest IH]; intros acc first.
  - exists 0%nat. split; [simpl; lia|]. simpl. rewrite string_append_nil_r. reflexivity.
  - cbn [join_names].
    destruct (Z.leb_spec maxString
                (Z.of_nat (String.length (if first then EmptyString else joiner))
                 + Z.of_nat (String.length acc) + Z.of_nat (String.length name))).
    + exists 0%nat. split; [simpl; lia|]. reflexivity.
    + destruct (IH ((acc ++ (if first then EmptyString else joiner)) ++ name)%string false)
        as (j & Hj & E).
      exists (S j). split; [simpl; lia|]. rewrite E. cbn [take List.length].
      rewrite joined_cons. reflexivity.
Qed.

Lemma join_names_bound joiner : forall todo acc first,
  Z.of_nat (String.length acc) < maxString ->
  Z.of_nat (String.length (join_names todo joiner acc first)) <= maxString + 2.
Proof.
  induction todo as [|name rest IH]; intros acc first H; cbn [join_names]; [lia|].
  destruct (Z.leb_spec maxString
              (Z.of_nat (String.length (if first then EmptyString else joiner))
               + Z.of_nat (String.length acc) + Z.of_nat (String.length name))).
  - rewrite string_length_append. simpl. lia.
  - apply IH. rewrite !string_length_append. lia.
Qed.

Lemma join_class_list_names reg vt joiner parentFirst :
  join_class_list reg vt joiner parentFirst
  = join_names (if parentFirst then rev (sjClassList maxList reg vt)
                else sjClassList maxList reg vt) joiner EmptyString true.
Proof.
  unfold join_class_list.
  set (names := sjClassList maxList reg vt).
  pose proof (join_loop_names (List.length names) names joiner parentFirst
                (if parentFirst then Z.of_nat (List.length names) - 1 else 0)
                EmptyString true) as H.
  assert (T : todo_at names parentFirst
                (if parentFirst then Z.of_nat (List.length names) - 1 else 0)
              = if parentFirst then rev names else names).
  { unfold todo_at. destruct parentFirst.
    - replace (Z.to_nat (Z.of_nat (List.length names) - 1 + 1)) with (List.length names)
        by lia.
      rewrite take_ge by lia. reflexivity.
    - reflexivity. }
  rewrite T in H. change (Z.of_nat (String.length EmptyString)) with 0 in H. rewrite H.
  - rewrite Nat2Z.id. apply substring_all.
  - destruct parentFirst; lia.
  - intros ->. lia.
  - intros ->. lia.
  - destruct parentFirst; [rewrite length_rev|]; lia.
Qed.

(** A region whose body and clauses cannot throw: endtry alone decides. *)
Lemma exec_Try_Skip n cs file line st :
  0 <= nextContext st < MAX_TRY_CATCH ->
  match exec (S (S (S n))) (Try Skip cs None file line) st with
  | Normal st' =>
      hasUncatchable st = false /\
      st' = set_nextContext (nextContext st) (try_entered st)
  | Jump t _ st' =>
      hasUncatchable st = true /\ t = nextContext st - 1 /\ events st' = events st
  | Uncaught _ st' =>
      hasUncatchable st = true /\ nextContext st = 0 /\
      exists l, events st' = events st ++ l /\ forallb is_stderr l = true
  | _ => False
  end.
Proof.
  intros [H0 H1]. rewrite (exec_Try_first (S n)) by lia.
  cbn [exec finally_endtry].
  pose proof (leaveTry_out file line (try_entered st)) as Lo.
  change (nextContext (try_entered st)) with (nextContext st + 1) in Lo.
  specialize (Lo ltac:(lia)).
  assert (Hs : settled (try_entered st) <-> hasUncatchable st = false).
  { unfold settled. simpl. tauto. }
  assert (Hn : ~ settled (try_entered st) -> hasUncatchable st = true).
  { intros H. destruct (hasUncatchable st); [reflexivity|]. exfalso. apply H, Hs.
    reflexivity. }
  destruct (_sxLeaveTry file line (try_entered st)) as [st'|t c st'| |s st'|];
    try contradiction.
  - destruct Lo as [Hst ->]. split; [apply (proj1 Hs); exact Hst|].
    replace (nextContext st + 1 - 1) with (nextContext st) by lia. reflexivity.
  - destruct Lo as (Hst & -> & _ & _ & V).
    destruct (Z.eqb_spec (nextContext st + 1 - 2) (nextContext st)); [lia|].
    split; [apply Hn; exact Hst|]. split; [lia|exact V].
  - destruct Lo as (Hst & Hb & L). split; [apply Hn; exact Hst|]. split; [lia|exact L].
Qed.

(** X14.  sjJoinClassList, called with room for a frame.  When malloc gave
    a block and no uncatchable exception is in flight, it returns the
    class names of the chain joined with the joiner, the class first or,
    with parentFirst, Object first: whole when the joined text is shorter
    than 1000 characters, and in any case the join of the first names,
    followed by "..." when names were left out, at most 1002 characters
    long, which fits the 1004 bytes allocated; nothing is freed and the
    frame stack is as before.  During the unwinding of an uncatchable
    exception its endtry throws instead, to the caller's frame or to the
    exit of an uncaught exception, and the block is not freed.  When
    malloc gave NULL the function writes through it. *)
Theorem join_class_list_joins (errno : Z) (n : nat) (reg : registry) (vt : Z)
    (joiner : string) (parentFirst : bool) (res : Z) (st : state) :
  0 <= nextContext st < MAX_TRY_CATCH -> (3 <= n)%nat ->
  let names := sjClassList maxList reg vt in
  let ordered := if parentFirst then rev names else names in
  (res = 0 -> sjJoinClassList errno n reg vt joiner parentFirst res st = Crashes) /\
  (res <> 0 -> hasUncatchable st = true ->
     match sjJoinClassList errno n reg vt joiner parentFirst res st with
     | Escapes (Jump t _ st') => t = nextContext st - 1 /\ events st' = events st
     | Escapes (Uncaught _ st') =>
         nextContext st = 0 /\
         exists l, events st' = events st ++ l /\ forallb is_stderr l = true
     | _ => False
     end) /\
  (res <> 0 -> hasUncatchable st = false ->
   exists s st',
    sjJoinClassList errno n reg vt joiner parentFirst res st = Returns s st' /\
    events st' = events st /\ nextContext st' = nextContext st /\
    (Z.of_nat (String.length (String.concat joiner ordered)) < maxString ->
       s = String.concat joiner ordered) /\
    (exists j, (j <= List.length ordered)%nat /\
       s = (String.concat joiner (take j ordered)
            ++ (if (j <? List.length ordered)%nat then "..." else ""))%string) /\
    Z.of_nat (String.length s) <= maxString + 2).
Proof.
  intros Hn H3 names ordered.
  destruct n as [|[|[|n]]]; try lia.
  unfold sjJoinClassList.
  destruct (enterTry_spec st) as [[_ E]|[Hge _]]; [|lia]. rewrite E.
  pose proof (exec_Try_Skip n
                [(None, Seq (Free res) (Rethrow (newex errno "saneobj.c" 329)))]
                "saneobj.c" 330 st Hn) as T.
  split; [intros ->; reflexivity|].
  split.
  - intros Hr Hu. destruct (Z.eqb_spec res 0); [contradiction|].
    destruct (exec _ _ st) as [st'|t c st'| |s st'|]; try contradiction.
    + destruct T as [T _]. congruence.
    + destruct T as (_ & T1 & T2). auto.
    + destruct T as (_ & T1 & T2). auto.
  - intros Hr Hu. destruct (Z.eqb_spec res 0); [contradiction|].
    destruct (exec _ _ st) as [st'|t c st'| |s st'|]; try contradiction;
      try (destruct T as [T _]; congruence).
    destruct T as [_ ->].
    eexists _, _. split; [reflexivity|]. split; [reflexivity|].
    split; [simpl; lia|].
    rewrite join_class_list_names. fold names. fold ordered.
    assert (J : forall l, joined joiner EmptyString true l = String.concat joiner l).
    { intros l. unfold joined. destruct l; reflexivity. }
    split; [|split].
    + intros H. rewrite join_names_joined; rewrite J; [reflexivity|assumption].
    + destruct (join_names_cut joiner ordered EmptyString true) as (j & Hj & E').
      exists j. split; [assumption|]. rewrite E', J. reflexivity.
    + apply join_names_bound. simpl. unfold maxString. lia.
Qed.

Lemma join_class_list_joins_witness :
  exists st',
    sjJoinClassList 0 3 Tests.demo Tests.vtOrange "<" false 9000 initial
      = Returns "Orange<Fruit<Object"%string st' /\
    sjJoinClassList 0 3 Tests.demo Tests.vtOrange ">" true 9000 initial
      = Returns "Object>Fruit>Orange"%string st'.
Proof.
  destruct (join_class_list_joins 0 3 Tests.demo Tests.vtOrange "<" false 9000 initial)
    as (_ & _ & H); [split; reflexivity|lia|].
  destruct (H ltac:(discriminate) eq_refl) as (s & st' & E & _ & _ & H' & _).
  specialize (H' ltac:(vm_compute; reflexivity)).
  exists st'. split.
  - rewrite E, H'. reflexivity.
  - vm_compute in E. inversion E. reflexivity.
Defined.

(** * sjNew when the constructor returns *)

Lemma clearTrace_events st : events (clearTrace st) = events st ++ freed_extras st.
Proof. unfold clearTrace, freed_extras. simpl. rewrite free_extras_events. reflexivity. Qed.

(** A new throw as the outside sees it. *)
Lemma sxThrow_events e st :
  match sxThrow e st with
  | Jump t _ st' => t = nextContext st - 1 /\ events st' = events st ++ freed_extras st
  | Uncaught _ st' =>
      nextContext st <= 0 /\
      exists l, events st' = events st ++ freed_extras st ++ l /\ forallb is_stderr l = true
  | _ => False
  end.
Proof.
  unfold sxThrow. pose proof (throw_events e (clearTrace st)) as T.
  pose proof (throw_frame e (clearTrace st)) as F.
  destruct (clearTrace_fields st) as (N & _).
  destruct (_throw e (clearTrace st)); try contradiction.
  - destruct F as (-> & _). split; [lia|]. rewrite T. apply clearTrace_events.
  - split; [lia|]. destruct T as (l & T & Hl). exists l. split; [|exact Hl].
    rewrite T, clearTrace_events, <- app_assoc. reflexivity.
Qed.

(** X21.  sjNew when the constructor returns.  With no uncatchable
    exception in flight the block is kept and returned, with nothing
    freed, exactly when the constructor returns the block it was given;
    when it returns another pointer the block is freed, once, and then: a
    NULL is answered with an exception, an instance of a class that
    extends Autoref is returned in place of the block, and any other
    instance is answered with an exception.  An exception leaves for the
    caller's frame or, without one, ends the process.  During the
    unwinding of an uncatchable exception the endtry of sjNew throws
    instead: the block is neither returned nor freed. *)
Theorem sjNew_ctor_returns (n fuel : nat) (reg : registry) (ctor : Z -> stmt)
    (ctor_ret : Z -> Z) (allocated size : Z) (file : string) (line : Z)
    (st st2 : state) :
  allocated <> 0 ->
  0 <= nextContext st < MAX_TRY_CATCH ->
  run (ctor allocated) (try_entered st) = Normal st2 ->
  (cost (ctor allocated) + 4 <= n)%nat ->
  (hasUncatchable st = false -> hasUncatchable st2 = false) /\
  (hasUncatchable st2 = true ->
   match sjNew n fuel reg ctor ctor_ret allocated size file line st with
   | Escapes (Jump t _ st') => t = nextContext st - 1 /\ events st' = events st2
   | Escapes (Uncaught _ st') =>
       nextContext st = 0 /\
       exists l, events st' = events st2 ++ l /\ forallb is_stderr l = true
   | _ => False
   end) /\
  (hasUncatchable st2 = false ->
   match sjNew n fuel reg ctor ctor_ret allocated size file line st with
   | Returns r st' =>
       r = ctor_ret allocated /\ r <> 0 /\ nextContext st' = nextContext st /\
       ((r = allocated /\ events st' = events st2) \/
        (r <> allocated /\ events st' = events st2 ++ [EvFree allocated] /\
         sjHasClass fuel reg st' r vtAutoref_addr = Some true))
   | Escapes (Jump t _ st') =>
       ctor_ret allocated <> allocated /\ t = nextContext st - 1 /\
       (ctor_ret allocated = 0 \/
        sjHasClass fuel reg st2 (ctor_ret allocated) vtAutoref_addr = Some false) /\
       events st' = events st2 ++ EvFree allocated :: freed_extras st2
   | Escapes (Uncaught _ st') =>
       ctor_ret allocated <> allocated /\ nextContext st = 0 /\
       (ctor_ret allocated = 0 \/
        sjHasClass fuel reg st2 (ctor_ret allocated) vtAutoref_addr = Some false) /\
       exists l, events st' = events st2 ++ EvFree allocated :: freed_extras st2 ++ l /\
                 forallb is_stderr l = true
   | Crashes =>
       ctor_ret allocated <> allocated /\ ctor_ret allocated <> 0 /\
       sjHasClass fuel reg st2 (ctor_ret allocated) vtAutoref_addr = None
   | Escapes _ => False
   end).
Proof.
  intros Ha [Hn0 Hn1] Hctor Hfuel. unfold sjNew.
  destruct (Z.eqb_spec allocated 0); [contradiction|].
  destruct n as [|[|[|[|n]]]]; try lia.
  set (k := S (S n)).
  rewrite (exec_Try_first k) by lia.
  assert (Eb : exec k (ctor allocated) (try_entered st) = Normal st2).
  { rewrite <- Hctor. apply exec_run. subst k. lia. }
  pose proof (body_frame k (ctor allocated) st Hn0) as Fr.
  rewrite Eb in *. destruct Fr as (N2 & C2 & L2 & S2).
  split; [exact S2|].
  unfold finally_endtry. split.
  { intros Hu.
    pose proof (leaveTry_out "saneobj.c" 127 st2 ltac:(lia)) as Lo.
    destruct (_sxLeaveTry "saneobj.c" 127 st2) as [st3|t c st3| |s st3|];
      try contradiction.
    - destruct Lo as [[_ Lo] _]. congruence.
    - destruct Lo as (_ & -> & _ & _ & V).
      destruct (Z.eqb_spec (nextContext st2 - 2) (nextContext st)); [lia|].
      split; [lia|exact V].
    - destruct Lo as (_ & Hb & L). split; [lia|exact L]. }
  intros Hu.
  rewrite leaveTry_settled by (try split; assumption || lia).
  set (st3 := set_nextContext (nextContext st2 - 1) st2).
  assert (N3 : nextContext st3 = nextContext st) by (subst st3; simpl; lia).
  destruct (Z.eqb_spec (ctor_ret allocated) allocated) as [Eo|Eo].
  { split; [reflexivity|]. split; [congruence|]. split; [assumption|]. left.
    split; [assumption|reflexivity]. }
  set (st4 := emit (EvFree allocated) st3).
  assert (V4 : events st4 = events st2 ++ [EvFree allocated]) by reflexivity.
  assert (T4 : freed_extras st4 = freed_extras st2) by reflexivity.
  assert (N4 : nextContext st4 = nextContext st) by exact N3.
  assert (K : forall e,
    match sxThrow e st4 with
    | Jump t _ st' =>
        t = nextContext st - 1 /\ events st' = events st2 ++ EvFree allocated :: freed_extras st2
    | Uncaught _ st' =>
        nextContext st = 0 /\
        exists l, events st' = events st2 ++ EvFree allocated :: freed_extras st2 ++ l /\
                  forallb is_stderr l = true
    | _ => False
    end).
  { intros e. pose proof (sxThrow_events e st4) as T. rewrite N4, V4, T4 in T.
    destruct (sxThrow e st4); try contradiction.
    - destruct T as [-> T]. split; [reflexivity|]. rewrite T, <- app_assoc. reflexivity.
    - destruct T as (Hle & l & T & Hl). split; [lia|]. exists l. split; [|exact Hl].
      rewrite T, <- app_assoc. reflexivity. }
  assert (Hcls : sjHasClass fuel reg st4 (ctor_ret allocated) vtAutoref_addr
                 = sjHasClass fuel reg st2 (ctor_ret allocated) vtAutoref_addr)
    by reflexivity.
  destruct (Z.eqb_spec (ctor_ret allocated) 0) as [E0|E0].
  { match goal with |- context [sxThrow ?e st4] => specialize (K e);
      destruct (sxThrow e st4) end; try contradiction.
    - destruct K as [K1 K2]. auto.
    - destruct K as [K1 K2]. auto. }
  rewrite Hcls.
  destruct (sjHasClass fuel reg st2 (ctor_ret allocated) vtAutoref_addr) as [[|]|] eqn:Hc.
  - split; [reflexivity|]. split; [assumption|]. split; [assumption|]. right.
    split; [assumption|]. split; [assumption|]. exact Hcls.
  - match goal with |- context [sxThrow ?e st4] => specialize (K e);
      destruct (sxThrow e st4) end; try contradiction.
    + destruct K as [K1 K2]. auto.
    + destruct K as [K1 K2]. auto.
  - auto.
Qed.

Lemma sjNew_ctor_returns_witness :
  exists st',
    sjNew 5 8 Tests.demo (fun o => Store o (mkObject Tests.vtOrange 0)) (fun o => o)
          9000 32 "saneobj-demo.c" 209 initial = Returns 9000 st' /\
    events st' = [].
Proof.
  pose proof (sjNew_ctor_returns 5 8 Tests.demo
                (fun o => Store o (mkObject Tests.vtOrange 0)) (fun o => o)
                9000 32 "saneobj-demo.c" 209 initial
                (set_objects {[ 9000 := mkObject Tests.vtOrange 0 ]} (try_entered initial)))
    as H.
  assert (H1 : 9000 <> 0) by discriminate.
  assert (H2 : 0 <= nextContext initial < MAX_TRY_CATCH) by (split; reflexivity).
  specialize (H H1 H2 eq_refl ltac:(simpl; lia)).
  destruct H as (_ & _ & H). specialize (H eq_refl).
  remember (sjNew 5 8 Tests.demo (fun o => Store o (mkObject Tests.vtOrange 0)) (fun o => o)
              9000 32 "saneobj-demo.c" 209 initial) as r eqn:Er.
  vm_compute in Er. subst r.
  destruct H as (_ & _ & _ & [[_ H]|[H _]]); [|contradiction].
  eexists. split; [reflexivity|exact H].
Defined.

(** * What becomes of a thrown code in a region *)

Lemma straight_exec s : forall n st,
  straight s = true -> (cost s <= n)%nat ->
  exists st', exec n s st = Normal st' /\
    nextContext st' = nextContext st /\ contexts st' = contexts st /\
    _sxLastJumpCode st' = _sxLastJumpCode st /\ trace st' = trace st /\
    hasUncatchable st' = hasUncatchable st /\ events st' = events st ++ emitted s.
Proof.
  induction s as [|s1 IH1 s2 IH2|e|o v|e|e|body clauses fin file line];
    intros n st Hs Hn; try discriminate; (destruct n as [|n]; [simpl in Hn; lia|]).
  - exists st. simpl. rewrite app_nil_r. auto 10.
  - simpl in Hs, Hn. apply andb_prop in Hs. destruct Hs as [H1 H2].
    destruct (IH1 n st H1 ltac:(lia)) as (st1 & E1 & A1 & B1 & C1 & D1 & F1 & G1).
    destruct (IH2 n st1 H2 ltac:(lia)) as (st2 & E2 & A2 & B2 & C2 & D2 & F2 & G2).
    exists st2. rewrite exec_Seq, E1. split; [assumption|].
    repeat split; try congruence. rewrite G2, G1. simpl. rewrite app_assoc. reflexivity.
  - eexists. split; [reflexivity|]. simpl. auto 10.
  - eexists. split; [reflexivity|]. simpl. rewrite app_nil_r. auto 10.
Qed.

(** finally { straight code } endtry on a frame whose counter is below the
    threshold. *)
Lemma finally_straight_endtry n fin file line st :
  straight_opt fin = true ->
  (match fin with Some fb => cost fb | None => O end <= n)%nat ->
  0 < nextContext st -> caught_at (nextContext st - 1) st + 1 < FINALLY_THRESHOLD ->
  exists st', finally_endtry (exec n) fin file line st = _sxLeaveTry file line st' /\
    events st' = events st ++ emitted_opt fin /\ nextContext st' = nextContext st /\
    _sxLastJumpCode st' = _sxLastJumpCode st /\ hasUncatchable st' = hasUncatchable st /\
    trace st' = trace st.
Proof.
  intros Hs Hc Hn Hk. unfold finally_endtry. destruct fin as [fb|].
  - rewrite setCaught_finally by assumption.
    destruct (Z.ltb_spec (caught_at (nextContext st - 1) st + 1) FINALLY_THRESHOLD); [|lia].
    match goal with |- context [exec n fb ?s] =>
      destruct (straight_exec fb n s Hs Hc) as (st' & E & A & B & C & D & F & G) end.
    rewrite E. exists st'. split; [reflexivity|]. simpl in *. auto 10.
  - exists st. simpl. rewrite app_nil_r. auto 10.
Qed.

Lemma leaveTry_status file line st :
  match _sxLeaveTry file line st with
  | Uncaught status _ =>
      status = Z.min 254 (EXIT_UNCAUGHT + _sxLastJumpCode st)
  | _ => True
  end.
Proof.
  rewrite leaveTry_unfold. cbv zeta. destruct (0 <=? nextContext st - 1); [|exact I].
  destruct (_ || _); [|exact I]. rewrite throw_unfold.
  destruct (_ <? 1); [|exact I]. simpl.
  destruct (Z.ltb_spec 254 (EXIT_UNCAUGHT + _sxLastJumpCode st)); lia.
Qed.

(** X22.  An exception that no clause of a region claims goes on with its
    code.  When the body has thrown code [c], no clause is catch(c) or
    catchall, and finally (if any) is straight code, the region runs
    finally and then endtry sends the same code to the enclosing frame;
    with no enclosing frame, and a code up to INT_MAX - EXIT_UNCAUGHT so
    that the sum does not overflow, the process ends with status
    EXIT_UNCAUGHT + c cut at 254, which is between 201 and 254. *)
Theorem unclaimed_code_passes_on (body : stmt) (cs : list (option Z * stmt))
    (fin : option stmt) (file : string) (line : Z) (st : state) (t c : Z) (st2 : state) :
  0 <= nextContext st < MAX_TRY_CATCH ->
  run body (try_entered st) = Jump t c st2 ->
  c <= INT_MAX - EXIT_UNCAUGHT ->
  first_match c cs 0 = None ->
  straight_opt fin = true ->
  match run (Try body cs fin file line) st with
  | Jump t' c' st' =>
      t' = nextContext st - 1 /\ c' = c /\ events st' = events st2 ++ emitted_opt fin
  | Uncaught status st' =>
      nextContext st = 0 /\ status = Z.min 254 (EXIT_UNCAUGHT + c) /\
      201 <= status <= 254 /\
      exists l, events st' = events st2 ++ emitted_opt fin ++ l /\
                forallb is_stderr l = true
  | _ => False
  end.
Proof.
  intros [Hn0 Hn1] Hbody Hint Hnone Hfin.
  unfold run at 1. cbn [cost]. fold (subcost body cs fin).
  set (m := subcost body cs fin).
  change (5 + m)%nat with (S (S (S (S (S m))))).
  rewrite (exec_Try_first (S (S (S m)))) by lia.
  assert (Eb : exec (S (S (S m))) body (try_entered st) = Jump t c st2).
  { rewrite exec_run; [exact Hbody|]. subst m. unfold subcost. lia. }
  pose proof (body_frame (S (S (S m))) body st Hn0) as Fr.
  rewrite Eb in *. destruct Fr as (-> & H1 & N2 & C2). rewrite Z.eqb_refl.
  rewrite resume_S. unfold region_pass.
  destruct (enterTry2_spec c st2) as [[_ E]|[Hge _]];
    [|rewrite N2 in Hge; replace (nextContext st + 1 - 1) with (nextContext st) in Hge by lia;
      lia].
  rewrite E. destruct (Z.eqb_spec c 0); [lia|].
  set (st3 := set_sxLastJumpCode c st2).
  assert (N3 : nextContext st3 = nextContext st + 1) by exact N2.
  assert (C3 : caught_at (nextContext st3 - 1) st3 = 0).
  { rewrite N3. replace (nextContext st + 1 - 1) with (nextContext st) by lia. exact C2. }
  unfold dispatch. rewrite arbitrate_unclaimed by (assumption || lia).
  change (_sxLastJumpCode st3) with c. rewrite Hnone.
  destruct (finally_straight_endtry (S (S m)) fin file line st3 Hfin)
    as (st4 & E4 & V4 & N4 & L4 & U4 & T4).
  { subst m. unfold subcost. destruct fin; lia. }
  { lia. }
  { rewrite C3. unfold FINALLY_THRESHOLD. lia. }
  rewrite E4.
  pose proof (leaveTry_events file line st4) as Le.
  pose proof (leaveTry_pending file line st4) as Lp.
  pose proof (leaveTry_status file line st4) as Ls.
  rewrite L4 in Le, Lp, Ls. change (_sxLastJumpCode st3) with c in Le, Lp, Ls.
  rewrite N4, N3 in Le, Lp.
  specialize (Le ltac:(lia) ltac:(lia)). specialize (Lp ltac:(lia) ltac:(lia)).
  change (events st3) with (events st2) in V4.
  destruct (_sxLeaveTry file line st4) as [|t' c' st5| |s5 st5|]; try contradiction.
  - destruct Le as [-> Le]. destruct Lp as [_ ->].
    destruct (Z.eqb_spec (nextContext st + 1 - 2) (nextContext st)); [lia|].
    split; [lia|]. split; [reflexivity|]. congruence.
  - destruct Le as (Hb & l & Le & Hl). split; [lia|]. split; [exact Ls|].
    split; [subst s5; unfold EXIT_UNCAUGHT; lia|].
    exists l. split; [|exact Hl]. rewrite Le, V4, <- app_assoc. reflexivity.
Qed.

Lemma unclaimed_code_passes_on_witness :
  match run (Try (Throw (mkEntry 3 false "main.c" 3 "" 0)) [(Some 1, Pass "1")]
                 (Some (Pass "f")) "main.c" 9) initial with
  | Uncaught status st' => status = 203 /\ Tests.passed_of (events st') = "f"%string
  | _ => False
  end.
Proof.
  pose proof (unclaimed_code_passes_on (Throw (mkEntry 3 false "main.c" 3 "" 0))
                [(Some 1, Pass "1")] (Some (Pass "f")) "main.c" 9 initial 0 3
                (thrown (mkEntry 3 false "main.c" 3 "" 0)
                        (clearTrace (try_entered initial)))) as H.
  assert (H0 : 0 <= nextContext initial < MAX_TRY_CATCH) by (split; reflexivity).
  assert (H3 : 3 <= INT_MAX - EXIT_UNCAUGHT) by (vm_compute; discriminate).
  specialize (H H0 eq_refl H3 eq_refl eq_refl).
  remember (run (Try (Throw (mkEntry 3 false "main.c" 3 "" 0)) [(Some 1, Pass "1")]
                     (Some (Pass "f")) "main.c" 9) initial) as r eqn:Er.
  vm_compute in Er. subst r.
  destruct H as (_ & H & _). split; [exact H|reflexivity].
Defined.

(** X23.  A caught exception is resolved.  When the body has thrown code
    [c] with no uncatchable entry in flight, and the first clause that is
    catch(c) or catchall has a block of straight code, as has finally (if
    any), the region runs that block, then finally, and ends normally: the
    code after endtry goes on with the frame stack as before and nothing
    pending.  The trace still holds the exception. *)
Theorem caught_exception_resolved (body : stmt) (cs : list (option Z * stmt))
    (fin : option stmt) (file : string) (line : Z) (st : state) (t c : Z) (st2 : state)
    (j : nat) (block : stmt) :
  0 <= nextContext st < MAX_TRY_CATCH ->
  run body (try_entered st) = Jump t c st2 ->
  hasUncatchable st2 = false ->
  first_match c cs 0 = Some (j, block) ->
  straight block = true ->
  straight_opt fin = true ->
  exists st',
    run (Try body cs fin file line) st = Normal st' /\
    nextContext st' = nextContext st /\ settled st' /\
    events st' = events st2 ++ emitted block ++ emitted_opt fin /\
    trace st' = trace st2.
Proof.
  intros [Hn0 Hn1] Hbody Hu Hsome Hblk Hfin.
  unfold run at 1. cbn [cost]. fold (subcost body cs fin).
  set (m := subcost body cs fin).
  change (5 + m)%nat with (S (S (S (S (S m))))).
  rewrite (exec_Try_first (S (S (S m)))) by lia.
  assert (Eb : exec (S (S (S m))) body (try_entered st) = Jump t c st2).
  { rewrite exec_run; [exact Hbody|]. subst m. unfold subcost. lia. }
  pose proof (body_frame (S (S (S m))) body st Hn0) as Fr.
  rewrite Eb in *. destruct Fr as (-> & H1 & N2 & C2). rewrite Z.eqb_refl.
  rewrite resume_S. unfold region_pass.
  destruct (enterTry2_spec c st2) as [[_ E]|[Hge _]];
    [|rewrite N2 in Hge; replace (nextContext st + 1 - 1) with (nextContext st) in Hge by lia;
      lia].
  rewrite E. destruct (Z.eqb_spec c 0); [lia|].
  set (st3 := set_sxLastJumpCode c st2).
  assert (N3 : nextContext st3 = nextContext st + 1) by exact N2.
  assert (C3 : caught_at (nextContext st3 - 1) st3 = 0).
  { rewrite N3. replace (nextContext st + 1 - 1) with (nextContext st) by lia. exact C2. }
  unfold dispatch. rewrite arbitrate_unclaimed by (assumption || lia).
  change (_sxLastJumpCode st3) with c. rewrite Hsome.
  assert (Hcost : (cost block <= S (S m))%nat).
  { assert (Hin : exists g, In (g, block) cs).
    { clear - Hsome. revert Hsome. generalize 0%nat.
      induction cs as [|[g b] cs IH]; intros i H; simpl in H; [discriminate|].
      destruct g as [n|].
      - destruct (c =? n).
        + inversion H; subst. exists (Some n). left. reflexivity.
        + destruct (IH _ H) as [g' Hg]. exists g'. right. assumption.
      - inversion H; subst. exists None. left. reflexivity. }
    destruct Hin as [g Hin]. apply cost_clause in Hin. subst m. unfold subcost. lia. }
  destruct (straight_exec block (S (S m)) (claimed st3) Hblk Hcost)
    as (st4 & E4 & N4 & B4 & L4 & T4 & U4 & V4).
  rewrite E4.
  assert (N4' : nextContext st4 = nextContext st + 1) by (rewrite N4; exact N2).
  assert (C4 : caught_at (nextContext st4 - 1) st4 = 1).
  { unfold caught_at. rewrite B4, N4'. unfold claimed.
    replace (nextContext st + 1 - 1) with (nextContext st) by lia. rewrite N3.
    replace (nextContext st + 1 - 1) with (nextContext st) by lia.
    change (caught_at (nextContext st) (set_caught (nextContext st) 1 st3) = 1).
    apply caught_at_set_caught_eq. }
  destruct (finally_straight_endtry (S (S m)) fin file line st4 Hfin)
    as (st5 & E5 & V5 & N5 & L5 & U5 & T5).
  { subst m. unfold subcost. destruct fin; lia. }
  { lia. }
  { rewrite C4. unfold FINALLY_THRESHOLD. lia. }
  rewrite E5. rewrite leaveTry_settled.
  - eexists. split; [reflexivity|]. simpl.
    split; [lia|].
    split; [split; simpl; [rewrite L5, L4; reflexivity|rewrite U5, U4; exact Hu]|].
    split; [rewrite V5, V4; simpl; rewrite <- app_assoc; reflexivity|].
    rewrite T5, T4. reflexivity.
  - split; [rewrite L5, L4; reflexivity|]. rewrite U5, U4. exact Hu.
  - lia.
Qed.

Lemma caught_exception_resolved_witness :
  exists st',
    run Tests.test_case110f initial = Normal st' /\
    Tests.passed_of (events st') = "tcf"%string /\ nextTrace st' = 1.
Proof.
  destruct (caught_exception_resolved (Seq (Pass "t") (Throw Tests.ex)) [(None, Pass "c")]
              (Some (Pass "f")) "saneex-test.c" 0 initial 0 1
              (thrown Tests.ex (clearTrace (emit (EvPass "t") (try_entered initial))))
              0 (Pass "c"))
    as (st' & E & _ & _ & V & T); try reflexivity.
  - split; reflexivity.
  - exists st'. split; [exact E|]. split; [rewrite V; reflexivity|].
    unfold nextTrace. rewrite T. reflexivity.
Defined.

(** * The clauses of a region *)

Lemma finally_endtry_ext (run1 run2 : stmt -> state -> outcome) fin file line st :
  (forall fb, fin = Some fb -> forall s, run1 fb s = run2 fb s) ->
  finally_endtry run1 fin file line st = finally_endtry run2 fin file line st.
Proof.
  intros H. unfold finally_endtry. destruct fin as [fb|]; [|reflexivity].
  destruct (_sxSetCaught true st) as [[|] st'|]; try reflexivity.
  rewrite (H fb eq_refl). reflexivity.
Qed.

Lemma resume_more_fuel n m buf body cs fin file line code st :
  resume n buf body cs fin file line code st <> OutOfFuel -> (n <= m)%nat ->
  resume m buf body cs fin file line code st = resume n buf body cs fin file line code st.
Proof.
  intros H Hle. induction Hle as [|m Hle IH]; [reflexivity|].
  destruct (exec_resume_more m) as [_ R]. rewrite R; [exact IH|]. rewrite IH. exact H.
Qed.

Lemma first_match_In c cs : forall i j block,
  first_match c cs i = Some (j, block) -> exists g, In (g, block) cs.
Proof.
  induction cs as [|[g b] cs IH]; intros i j block H; simpl in H; [discriminate|].
  destruct g as [n|].
  - destruct (c =? n).
    + inversion H; subst. exists (Some n). left. reflexivity.
    + destruct (IH _ _ _ H) as [g' Hg]. exists g'. right. assumption.
  - inversion H; subst. exists None. left. reflexivity.
Qed.

Section Claimed.

Variable x : ascii.
Variable body : stmt.
Variable cs : list (option Z * stmt).
Variable fin : option stmt.
Variable file : string.
Variable line : Z.
Hypothesis Hfin : match fin with Some fb => quiet x fb | None => true end = true.

Lemma fin_quiet_dead : fin_dead x fin = true.
Proof. unfold fin_dead. destruct fin; [apply quiet_dead_only; exact Hfin|reflexivity]. Qed.

(** finally and endtry add no PASS(x), and a longjmp of theirs into the
    frame finds its counter at the threshold. *)
Lemma finally_endtry_quiet n buf st :
  0 <= buf -> nextContext st = buf + 1 ->
  match finally_endtry (exec n) fin file line st with
  | OutOfFuel | Fatal _ _ => True
  | Normal st' | Uncaught _ st' => npass x st' = npass x st
  | Jump t c st' =>
      npass x st' = npass x st /\
      (t = buf -> 1 <= c /\ nextContext st' = buf + 1 /\
                  caught_at buf st' = FINALLY_THRESHOLD)
  end.
Proof.
  intros Hb Hn.
  pose proof (finally_endtry_silent x (exec n) (exec_silent x n) fin file line st
                fin_quiet_dead) as S.
  pose proof (finally_endtry_pass_ok (exec n) (exec_frame n) buf fin file line st st Hn
                (fun _ _ => eq_refl)) as P.
  destruct (finally_endtry (exec n) fin file line st) as [st'|t c st'| | |] eqn:E;
    simpl in S, P; auto.
  split; [exact S|]. intros ->.
  destruct P as (H1 & _ & [[_ N]|[Hx _]]); [|lia].
  apply finally_endtry_jump with (buf := buf) in E; [|apply exec_frame|assumption].
  destruct E as [C _]. auto.
Qed.

(** A longjmp into a frame that is claimed already runs no clause: the
    passes that follow add no PASS(x), whatever the clauses hold. *)
Lemma resume_claimed_quiet n : forall buf c st,
  0 <= buf -> nextContext st = buf + 1 -> 1 <= caught_at buf st -> 1 <= c ->
  match resume n buf body cs fin file line c st with
  | OutOfFuel | Fatal _ _ => True
  | Normal st' | Jump _ _ st' | Uncaught _ st' => npass x st' = npass x st
  end.
Proof.
  induction n as [|n IH]; intros buf c st Hb Hn Hc H1; [exact I|].
  rewrite resume_S. unfold region_pass.
  destruct (enterTry2_spec c st) as [[_ E]|[_ E]]; rewrite E; [|exact I].
  destruct (Z.eqb_spec c 0); [lia|].
  set (st1 := set_sxLastJumpCode c st).
  assert (N1 : nextContext st1 = buf + 1) by exact Hn.
  destruct (arbitrate_claimed cs 0 st1) as (st2 & A & T & _).
  { lia. }
  { rewrite N1. replace (buf + 1 - 1) with buf by lia. exact Hc. }
  unfold dispatch. rewrite A.
  destruct T as (N2 & _ & M2 & _ & _ & _ & E2).
  rewrite N1 in *. replace (buf + 1 - 1) with buf in M2 by lia.
  change (caught_at buf st1) with (caught_at buf st) in M2.
  assert (P2 : npass x st2 = npass x st).
  { unfold npass. rewrite E2. reflexivity. }
  pose proof (finally_endtry_quiet n buf st2 Hb N2) as F.
  destruct (finally_endtry (exec n) fin file line st2) as [st3|t c' st3| |s st3|];
    try exact I; try congruence.
  destruct F as [F1 F2]. destruct (Z.eqb_spec t buf) as [->|Hne]; [|congruence].
  destruct (F2 eq_refl) as (H1' & N3 & C3).
  specialize (IH buf c' st3 Hb N3 ltac:(rewrite C3; unfold FINALLY_THRESHOLD; lia) H1').
  destruct (resume n buf body cs fin file line c' st3); auto; congruence.
Qed.

(** The same for whatever follows a pass: finally and endtry, or a
    longjmp into the claimed frame. *)
Lemma after_pass_quiet n buf st (o : outcome) :
  0 <= buf ->
  match o with
  | Normal st4 => nextContext st4 = buf + 1 /\ npass x st4 = npass x st
  | Jump t c st4 =>
      npass x st4 = npass x st /\
      (t = buf -> 1 <= c /\ nextContext st4 = buf + 1 /\ 1 <= caught_at buf st4)
  | Uncaught _ st4 | Fatal _ st4 => npass x st4 = npass x st
  | OutOfFuel => True
  end ->
  match (match (match o with
                | Normal st4 => finally_endtry (exec n) fin file line st4
                | o' => o'
                end) with
         | Jump t' c' st' =>
             if t' =? buf then resume n buf body cs fin file line c' st'
             else Jump t' c' st'
         | o' => o'
         end) with
  | OutOfFuel | Fatal _ _ => True
  | Normal st' | Jump _ _ st' | Uncaught _ st' => npass x st' = npass x st
  end.
Proof.
  intros Hb Ho. destruct o as [st4|t c st4|s st4|s st4|]; auto.
  - destruct Ho as [N4 P4].
    pose proof (finally_endtry_quiet n buf st4 Hb N4) as F.
    destruct (finally_endtry (exec n) fin file line st4) as [st5|t c st5| |s st5|];
      try exact I; try congruence.
    destruct F as [F1 F2]. destruct (Z.eqb_spec t buf) as [->|Hne]; [|congruence].
    destruct (F2 eq_refl) as (H1 & N5 & C5).
    pose proof (resume_claimed_quiet n buf c st5 Hb N5
                  ltac:(rewrite C5; unfold FINALLY_THRESHOLD; lia) H1) as R.
    destruct (resume n buf body cs fin file line c st5); auto; congruence.
  - destruct Ho as [P4 H]. destruct (Z.eqb_spec t buf) as [->|Hne]; [|exact P4].
    destruct (H eq_refl) as (H1 & N4 & C4).
    pose proof (resume_claimed_quiet n buf c st4 Hb N4 C4 H1) as R.
    destruct (resume n buf body cs fin file line c st4); auto; congruence.
Qed.

End Claimed.

(** C1.  A region whose body has thrown code [c].  The clauses are tried
    in source order with [c] pending on an unclaimed frame, and the block
    that runs is that of the first clause that is catch(c) or catchall: it
    starts on the frame with its counter at 1 and the pending code at 0,
    and the region goes on from the outcome of that block, with finally,
    endtry and, should a throw come back to the frame, the later passes.
    No other block of a clause runs, in that pass or a later one: when the
    claiming block starts with a PASS(x) found nowhere else but in the
    other clauses, PASS(x) has been executed exactly once when the region
    is left, and not at all when the claiming block has none, or when no
    clause claims the code. *)
Theorem catch_arbitration (x : ascii) (body : stmt) (cs : list (option Z * stmt))
    (fin : option stmt) (file : string) (line : Z) (st : state) (t c : Z) (st2 : state) :
  0 <= nextContext st < MAX_TRY_CATCH ->
  run body (try_entered st) = Jump t c st2 ->
  quiet x body = true ->
  match fin with Some fb => quiet x fb | None => true end = true ->
  let buf := nextContext st in
  let st3 := set_sxLastJumpCode c st2 in
  let region := Try body cs fin file line in
  t = buf /\ 1 <= c /\ run region st <> OutOfFuel /\
  match first_match c cs 0 with
  | Some (j, block) =>
      caught_at buf (claimed st3) = 1 /\ _sxLastJumpCode (claimed st3) = 0 /\
      events (claimed st3) = events st2 /\
      run region st =
        match (match run block (claimed st3) with
               | Normal st4 => finally_endtry run fin file line st4
               | o => o
               end) with
        | Jump t' c' st' =>
            if t' =? buf then resume (cost region) buf body cs fin file line c' st'
            else Jump t' c' st'
        | o => o
        end /\
      (forall B, block = Seq (Pass x) B -> quiet x B = true ->
         match run region st with
         | Normal st' | Jump _ _ st' | Uncaught _ st' => npass x st' = S (npass x st)
         | _ => True
         end) /\
      (quiet x block = true ->
         match run region st with
         | Normal st' | Jump _ _ st' | Uncaught _ st' => npass x st' = npass x st
         | _ => True
         end)
  | None =>
      match run region st with
      | Normal st' | Jump _ _ st' | Uncaught _ st' => npass x st' = npass x st
      | _ => True
      end
  end.
Proof.
  intros [Hn0 Hn1] Hbody Hqb Hqf buf st3 region.
  pose proof (run_terminates region st) as Ht.
  assert (Hrun : run region st = exec (5 + subcost body cs fin) region st) by reflexivity.
  set (m := subcost body cs fin) in *.
  change (5 + m)%nat with (S (S (S (S (S m))))) in Hrun.
  subst region. rewrite (exec_Try_first (S (S (S m)))) in Hrun by lia.
  assert (Eb : exec (S (S (S m))) body (try_entered st) = Jump t c st2).
  { rewrite exec_run; [exact Hbody|]. subst m. unfold subcost. lia. }
  pose proof (body_frame (S (S (S m))) body st Hn0) as Fr.
  pose proof (exec_silent x (S (S (S m))) body (try_entered st)
                (quiet_dead_only _ _ Hqb)) as Sb.
  rewrite Eb in *. simpl in Sb. change (npass x (try_entered st)) with (npass x st) in Sb.
  destruct Fr as (-> & H1 & N2 & C2). rewrite Z.eqb_refl in Hrun.
  rewrite resume_S in Hrun. unfold region_pass in Hrun.
  destruct (enterTry2_spec c st2) as [[_ E]|[Hge _]];
    [|rewrite N2 in Hge;
      replace (nextContext st + 1 - 1) with (nextContext st) in Hge by lia; lia].
  rewrite E in Hrun. destruct (Z.eqb_spec c 0); [lia|].
  fold st3 in Hrun.
  assert (N3 : nextContext st3 = buf + 1) by exact N2.
  assert (C3 : caught_at (nextContext st3 - 1) st3 = 0).
  { rewrite N3. replace (buf + 1 - 1) with buf by lia. exact C2. }
  unfold dispatch in Hrun. rewrite arbitrate_unclaimed in Hrun by (assumption || lia).
  change (_sxLastJumpCode st3) with c in Hrun.
  split; [reflexivity|]. split; [assumption|]. split; [exact Ht|].
  assert (P3 : npass x st3 = npass x st) by exact Sb.
  destruct (first_match c cs 0) as [[j block]|] eqn:Hfm.
  - assert (N4 : nextContext (claimed st3) = buf + 1) by exact N2.
    assert (C4 : caught_at buf (claimed st3) = 1).
    { unfold claimed, caught_at. simpl. rewrite N2.
      replace (nextContext st + 1 - 1) with buf by (subst buf; lia).
      fold (caught_at buf (set_caught buf 1 st2)). apply caught_at_set_caught_eq. }
    assert (Hcost : (cost block <= m)%nat).
    { destruct (first_match_In _ _ _ _ _ Hfm) as [g Hin]. apply cost_clause in Hin.
      subst m. unfold subcost. lia. }
    assert (Eblk : exec (S (S m)) block (claimed st3) = run block (claimed st3))
      by (apply exec_run; lia).
    split; [exact C4|]. split; [reflexivity|]. split; [reflexivity|].
    assert (Eq : run (Try body cs fin file line) st =
                 match (match run block (claimed st3) with
                        | Normal st4 => finally_endtry (exec (S (S m))) fin file line st4
                        | o => o
                        end) with
                 | Jump t' c' st' =>
                     if t' =? buf then resume (S (S m)) buf body cs fin file line c' st'
                     else Jump t' c' st'
                 | o => o
                 end).
    { rewrite Hrun, Eblk. reflexivity. }
    assert (Hext : forall s, finally_endtry (exec (S (S m))) fin file line s
                             = finally_endtry run fin file line s).
    { intros s. apply finally_endtry_ext. intros fb -> s'. apply exec_run.
      subst m. unfold subcost. lia. }
    split; [|split].
    + rewrite Eq. destruct (run block (claimed st3)) as [st4|t' c' st4| | |];
        try reflexivity.
      * rewrite Hext.
        destruct (finally_endtry run fin file line st4) as [|t' c' st5| | |] eqn:Ef;
          try reflexivity.
        destruct (t' =? buf) eqn:Et; [|reflexivity].
        symmetry. apply resume_more_fuel;
          [|change (cost (Try body cs fin file line)) with (5 + m)%nat; lia].
        intros Hout. apply Ht. rewrite Eq, Hext, Ef, Et. exact Hout.
      * destruct (t' =? buf) eqn:Et; [|reflexivity].
        symmetry. apply resume_more_fuel;
          [|change (cost (Try body cs fin file line)) with (5 + m)%nat; lia].
        intros Hout. apply Ht. rewrite Eq. exact Hout.
    + intros B -> HB.
      assert (Hblk : match run (Seq (Pass x) B) (claimed st3) with
                     | OutOfFuel => True
                     | Normal st' | Jump _ _ st' | Fatal _ st' | Uncaught _ st' =>
                         npass x st' = S (npass x st)
                     end).
      { rewrite <- Eblk. rewrite exec_Seq. unfold Pass at 1.
        destruct m as [|m']; [simpl in Hcost; lia|]. rewrite exec_Emit.
        pose proof (exec_silent x (S (S m')) B (emit (EvPass x) (claimed st3))
                      (quiet_dead_only _ _ HB)) as Hs.
        assert (E1 : npass x (emit (EvPass x) (claimed st3)) = S (npass x st)).
        { rewrite npass_emit. simpl. rewrite Ascii.eqb_refl.
          change (npass x (claimed st3)) with (npass x st3). rewrite P3. lia. }
        destruct (exec (S (S m')) B (emit (EvPass x) (claimed st3))); simpl in Hs; auto;
          congruence. }
      pose proof (run_pass_ok (exec (S (S m))) (exec_frame (S (S m))) buf (claimed st3)
                    (Seq (Pass x) B) (claimed st3) N4 (fun _ _ => eq_refl)) as R.
      rewrite Eblk in R.
      pose proof (after_pass_quiet x body cs fin file line Hqf (S (S m)) buf
                    (emit (EvPass x) st) (run (Seq (Pass x) B) (claimed st3)) Hn0) as A.
      assert (E0 : npass x (emit (EvPass x) st) = S (npass x st)).
      { rewrite npass_emit. simpl. rewrite Ascii.eqb_refl. lia. }
      rewrite E0 in A. rewrite Eq.
      destruct (run (Seq (Pass x) B) (claimed st3)) as [st4|t' c' st4|s st4|s st4|].
      * destruct R as (R1 & _). exact (A (conj R1 Hblk)).
      * destruct R as (R1 & -> & R3 & _ & R5).
        assert (A' : npass x st4 = S (npass x st) /\
                     (buf = buf -> 1 <= c' /\ nextContext st4 = buf + 1 /\
                                   1 <= caught_at buf st4)).
        { split; [exact Hblk|]. intros _. rewrite R5, C4. auto with zarith. }
        exact (A A').
      * exact I.
      * exact Hblk.
      * exact I.
    + intros Hq.
      pose proof (exec_silent x (S (S m)) block (claimed st3) (quiet_dead_only _ _ Hq)) as Hs.
      rewrite Eblk in Hs.
      pose proof (run_pass_ok (exec (S (S m))) (exec_frame (S (S m))) buf (claimed st3)
                    block (claimed st3) N4 (fun _ _ => eq_refl)) as R.
      rewrite Eblk in R.
      pose proof (after_pass_quiet x body cs fin file line Hqf (S (S m)) buf
                    st (run block (claimed st3)) Hn0) as A.
      rewrite Eq.
      destruct (run block (claimed st3)) as [st4|t' c' st4|s st4|s st4|]; simpl in Hs;
        try (change (npass x (claimed st3)) with (npass x st3) in Hs; rewrite P3 in Hs).
      * destruct R as (R1 & _). exact (A (conj R1 Hs)).
      * destruct R as (R1 & -> & R3 & _ & R5).
        assert (A' : npass x st4 = npass x st /\
                     (buf = buf -> 1 <= c' /\ nextContext st4 = buf + 1 /\
                                   1 <= caught_at buf st4)).
        { split; [exact Hs|]. intros _. rewrite R5, C4. auto with zarith. }
        exact (A A').
      * exact I.
      * exact Hs.
      * exact I.
  - pose proof (after_pass_quiet x body cs fin file line Hqf (S (S m)) buf
                  st (Normal st3) Hn0 (conj N3 P3)) as A.
    rewrite Hrun. exact A.
Qed.

Lemma catch_arbitration_witness :
  match run (Try (Throw Tests.ex2)
                 [(Some 1, Pass "x"); (Some 2, Seq (Pass "x") (Pass "a"));
                  (None, Pass "x"); (Some 2, Pass "x")]
                 None "saneex-test.c" 0) initial with
  | Normal st' => npass "x" st' = 1%nat
  | _ => False
  end.
Proof.
  pose proof (catch_arbitration "x" (Throw Tests.ex2)
                [(Some 1, Pass "x"); (Some 2, Seq (Pass "x") (Pass "a"));
                 (None, Pass "x"); (Some 2, Pass "x")]
                None "saneex-test.c" 0 initial 0 2
                (thrown Tests.ex2 (clearTrace (try_entered initial)))) as H.
  assert (H0 : 0 <= nextContext initial < MAX_TRY_CATCH) by (split; reflexivity).
  specialize (H H0 eq_refl eq_refl eq_refl).
  destruct H as (_ & _ & _ & H).
  change (first_match 2 [(Some 1, Pass "x"); (Some 2, Seq (Pass "x") (Pass "a"));
                         (None, Pass "x"); (Some 2, Pass "x")] 0)
    with (Some (1%nat, Seq (Pass "x") (Pass "a"))) in H.
  destruct H as (_ & _ & _ & _ & H & _).
  specialize (H (Pass "a") eq_refl eq_refl).
  remember (run (Try (Throw Tests.ex2)
                     [(Some 1, Pass "x"); (Some 2, Seq (Pass "x") (Pass "a"));
                      (None, Pass "x"); (Some 2, Pass "x")]
                     None "saneex-test.c" 0) initial) as r eqn:Er.
  vm_compute in Er. subst r. exact H.
Defined.
